(** * polaroid-booth: the canvas compositor and the captured-image list

    A shallow embedding of the two revisions of the photobooth script:

    - the current revision (the one with the collage layout), embedded at
      top level in the modules [CanvasDrawer] and [PolaroidMaker];
    - the earlier revision [app.js], embedded in the module [AppJs]: its
      catalog, its compositor and its [addCapturedImage];
    - more of the page class of the current revision: the selections, the
      preview and the download in the module [Page]; the camera, the
      shutter, the timer and the buttons in the module [Booth], where the
      object and the elements it writes to are one record, the callbacks
      given to [setTimeout] wait in a queue ordered by due time, and every
      handler runs to its end before the next event.

    JavaScript numbers are modelled as rationals ([Q]).  Every value the
    compositor computes from its constants is integral except the collage
    scale factor; the cover fit, whose quotients and products depend on the
    size of the image and are not exact in double precision, rounds every
    operation to the nearest double ([fl]).  The 2D context is modelled as a
    display list: every drawing call is recorded together with the drawing
    state (transform, clip, filter, shadow, fill style, font) it was issued
    under. *)

From Stdlib Require Import List String Bool Arith ZArith NArith.
From Stdlib Require Import QArith Qminmax Qround Qabs Qpower Lia Lqa.
Import ListNotations.

Local Open Scope string_scope.
Local Open Scope list_scope.
Local Open Scope Q_scope.

(** ** JavaScript values and errors *)

(** What a rejected promise or a [throw] carries. *)
Inductive js_error : Type :=
| NoImagesToDraw                      (* new Error("No images to draw.") *)
| TypeError (property : string)       (* reading [property] of undefined *)
| EncodingError.                      (* img.decode() rejected *)

Inductive result (A : Type) : Type :=
| Ok (a : A)
| Throw (e : js_error).
Arguments Ok {A} a.
Arguments Throw {A} e.

(** A settled promise. *)
Inductive Promise (A : Type) : Type :=
| Fulfilled (v : A)
| Rejected (e : js_error).
Arguments Fulfilled {A} v.
Arguments Rejected {A} e.

(** [p.catch(e => console.error(..., e))]: a rejection becomes a promise
    fulfilled with the value of [console.error], which is [undefined]. *)
Definition catch_console_error {A} (p : Promise A) : Promise (option A) :=
  match p with
  | Fulfilled v => Fulfilled (Some v)
  | Rejected _ => Fulfilled None
  end.

(** The callback [p => p] of [Array.prototype.filter] asks whether its argument
    is truthy; the argument is a promise object, and every object is. *)
Definition truthy_object {A} (_ : Promise A) : bool := true.

(** [p.then(f)] with a callback that does not throw. *)
Definition then_ {A B} (p : Promise A) (f : A -> B) : Promise B :=
  match p with
  | Fulfilled v => Fulfilled (f v)
  | Rejected e => Rejected e
  end.

(** [array.map(f)] with a callback that may throw: the first exception, in
    array order, ends the traversal. *)
Fixpoint map_throwing {A B} (f : A -> result B) (l : list A) : result (list B) :=
  match l with
  | [] => Ok []
  | a :: l' =>
      match f a with
      | Throw e => Throw e
      | Ok b =>
          match map_throwing f l' with
          | Ok bs => Ok (b :: bs)
          | Throw e => Throw e
          end
      end
  end.

(** [Promise.all]: the list of the values, or the first rejection. *)
Fixpoint Promise_all {A} (ps : list (Promise A)) : result (list A) :=
  match ps with
  | [] => Ok []
  | Fulfilled v :: ps' =>
      match Promise_all ps' with
      | Ok vs => Ok (v :: vs)
      | Throw e => Throw e
      end
  | Rejected e :: _ => Throw e
  end.

(** [obj[key]] on an object literal used as a table; [None] is [undefined].
    An object literal also inherits the members of [Object.prototype]
    ('constructor', 'toString', ...), which [obj[key]] finds and [lookup]
    does not: [lookup] is [obj[key]] for every key that is an entry of the
    table or is not the name of such a member ([plain_key]). *)
Fixpoint lookup {A} (key : string) (obj : list (string * A)) : option A :=
  match obj with
  | [] => None
  | (k, v) :: rest => if String.eqb key k then Some v else lookup key rest
  end.

(** [map.set(key, v)] on a JavaScript [Map]: an existing key keeps its place
    in the iteration order, a new one goes last. *)
Fixpoint Map_set {A} (key : string) (v : A) (m : list (string * A)) : list (string * A) :=
  match m with
  | [] => [(key, v)]
  | (k, v') :: rest =>
      if String.eqb key k then (k, v) :: rest else (k, v') :: Map_set key v rest
  end.

(** [new Map(entries)]. *)
Definition new_Map {A} (entries : list (string * A)) : list (string * A) :=
  fold_left (fun m kv => Map_set (fst kv) (snd kv) m) entries [].

(** ** Images, the style catalog and the world *)

(** A decoded [Image]; [width] and [height] are unsigned. *)
Record Image : Type := { src : string; img_width : N; img_height : N }.

Definition N2Q (n : N) : Q := inject_Z (Z.of_N n).

Record FilterEntry : Type := { filter_name : string; value : string }.

Record DecorationEntry : Type :=
  { deco_name : string; url : string;
    deco_w : Q; deco_h : Q; deco_x : Q; deco_y : Q }.

Record Config : Type :=
  { filters : list (string * FilterEntry);
    decorations : list (string * DecorationEntry) }.

(** What the page provides: which sources decode, and the value of the CSS
    variable [--polaroid-bg]. *)
Record World : Type :=
  { decode : string -> Promise Image;
    polaroid_bg : string }.

(** ** The 2D context as a display list *)

(** The current transformation; the code only translates and scales. *)
Record Transform : Type := { tx : Q; ty : Q; sx : Q; sy : Q }.

Definition identity : Transform := {| tx := 0; ty := 0; sx := 1; sy := 1 |}.

Record Rect : Type := { rx : Q; ry : Q; rw : Q; rh : Q }.

(** The part of the drawing state the compositor changes and that varies:
    [shadowBlur], [shadowOffsetY], [textAlign] and [textBaseline] are only
    ever set to one constant each and are left out.  [ctx_filter],
    [fillStyle] and [font] record the value last assigned; a context keeps
    its previous value when it cannot parse the one assigned. *)
Record DrawState : Type :=
  { transform : Transform;
    clip : list (Transform * Rect);   (* intersected clip paths *)
    ctx_filter : string;
    shadowColor : string;
    fillStyle : string;
    font : Q * string }.              (* size in px, family; weight 600 *)

Definition default_state : DrawState :=
  {| transform := identity; clip := []; ctx_filter := "none";
     shadowColor := "transparent"; fillStyle := "#000000";
     font := (10, "sans-serif") |}.

Inductive draw_op : Type :=
| ClearRect (s : DrawState) (r : Rect)
| FillRect (s : DrawState) (r : Rect)
| DrawImage9 (s : DrawState) (img : Image) (source dest : Rect)
| DrawImage5 (s : DrawState) (img : Image) (dest : Rect)
| FillText (s : DrawState) (text : string) (px py : Q).

Record Canvas : Type :=
  { width : Q;
    height : Q;
    state : DrawState;
    stack : list DrawState;
    pixels : list draw_op }.

(** ** Statements that draw: state passing with exceptions *)

Definition M (A : Type) : Type := Canvas -> result A * Canvas.

Definition ret {A} (a : A) : M A := fun cv => (Ok a, cv).

Definition throw {A} (e : js_error) : M A := fun cv => (Throw e, cv).

Definition bind {A B} (m : M A) (k : A -> M B) : M B :=
  fun cv =>
    match m cv with
    | (Ok a, cv') => k a cv'
    | (Throw e, cv') => (Throw e, cv')
    end.

Notation "m ;; k" := (bind m (fun _ => k)) (at level 61, right associativity).
Notation "'let*' a := m 'in' k" := (bind m (fun a => k))
  (at level 61, a name, m at next level, right associativity).

Definition with_state (f : DrawState -> DrawState) : M unit :=
  fun cv =>
    (Ok tt, {| width := width cv; height := height cv; state := f (state cv);
               stack := stack cv; pixels := pixels cv |}).

Definition emit (op : DrawState -> draw_op) : M unit :=
  fun cv =>
    (Ok tt, {| width := width cv; height := height cv; state := state cv;
               stack := stack cv; pixels := pixels cv ++ [op (state cv)] |}).

(** Assigning [canvas.width] or [canvas.height] clears the bitmap and resets
    the context to its default state.  The values assigned here are
    integral, so the conversion to an unsigned integer changes nothing. *)
Definition set_width (v : Q) : M unit :=
  fun cv =>
    (Ok tt, {| width := v; height := height cv; state := default_state;
               stack := []; pixels := [] |}).

Definition set_height (v : Q) : M unit :=
  fun cv =>
    (Ok tt, {| width := width cv; height := v; state := default_state;
               stack := []; pixels := [] |}).

Definition save : M unit :=
  fun cv =>
    (Ok tt, {| width := width cv; height := height cv; state := state cv;
               stack := state cv :: stack cv; pixels := pixels cv |}).

(** [restore] on an empty stack does nothing. *)
Definition restore : M unit :=
  fun cv =>
    match stack cv with
    | [] => (Ok tt, cv)
    | s :: rest =>
        (Ok tt, {| width := width cv; height := height cv; state := s;
                   stack := rest; pixels := pixels cv |})
    end.

Definition set_transform (t : Transform) (s : DrawState) : DrawState :=
  {| transform := t; clip := clip s; ctx_filter := ctx_filter s;
     shadowColor := shadowColor s; fillStyle := fillStyle s; font := font s |}.

Definition translated (dx dy : Q) (t : Transform) : Transform :=
  {| tx := tx t + sx t * dx; ty := ty t + sy t * dy; sx := sx t; sy := sy t |}.

Definition scaled (a b : Q) (t : Transform) : Transform :=
  {| tx := tx t; ty := ty t; sx := sx t * a; sy := sy t * b |}.

Definition translate (dx dy : Q) : M unit :=
  with_state (fun s => set_transform (translated dx dy (transform s)) s).

Definition scale (a b : Q) : M unit :=
  with_state (fun s => set_transform (scaled a b (transform s)) s).

Definition with_shadowColor (c : string) (s : DrawState) : DrawState :=
  {| transform := transform s; clip := clip s; ctx_filter := ctx_filter s;
     shadowColor := c; fillStyle := fillStyle s; font := font s |}.

Definition with_fillStyle (c : string) (s : DrawState) : DrawState :=
  {| transform := transform s; clip := clip s; ctx_filter := ctx_filter s;
     shadowColor := shadowColor s; fillStyle := c; font := font s |}.

Definition with_filter (f : string) (s : DrawState) : DrawState :=
  {| transform := transform s; clip := clip s; ctx_filter := f;
     shadowColor := shadowColor s; fillStyle := fillStyle s; font := font s |}.

Definition with_font (size : Q) (family : string) (s : DrawState) : DrawState :=
  {| transform := transform s; clip := clip s; ctx_filter := ctx_filter s;
     shadowColor := shadowColor s; fillStyle := fillStyle s;
     font := (size, family) |}.

(** [beginPath(); rect(x, y, w, h); clip()] under the current transform. *)
Definition with_clip (r : Rect) (s : DrawState) : DrawState :=
  {| transform := transform s; clip := (transform s, r) :: clip s;
     ctx_filter := ctx_filter s; shadowColor := shadowColor s;
     fillStyle := fillStyle s; font := font s |}.

Definition set_shadowColor (c : string) : M unit := with_state (with_shadowColor c).
Definition set_fillStyle (c : string) : M unit := with_state (with_fillStyle c).
Definition set_filter (f : string) : M unit := with_state (with_filter f).
Definition set_font (size : Q) (family : string) : M unit :=
  with_state (with_font size family).
Definition clip_rect (r : Rect) : M unit := with_state (with_clip r).

Definition clearRect (r : Rect) : M unit := emit (fun s => ClearRect s r).
Definition fillRect (r : Rect) : M unit := emit (fun s => FillRect s r).
Definition fillText (text : string) (px py : Q) : M unit :=
  emit (fun s => FillText s text px py).
Definition drawImage5 (img : Image) (dest : Rect) : M unit :=
  emit (fun s => DrawImage5 s img dest).
Definition drawImage9 (img : Image) (source dest : Rect) : M unit :=
  emit (fun s => DrawImage9 s img source dest).

(** [for (let i = start; i < start + count; i++) body(i)]. *)
Fixpoint for_range (start count : nat) (body : nat -> M unit) : M unit :=
  match count with
  | O => ret tt
  | S count' => body start ;; for_range (S start) count' body
  end.

(** [for (const entry of entries) body(entry)]. *)
Fixpoint for_of {A} (entries : list A) (body : A -> M unit) : M unit :=
  match entries with
  | [] => ret tt
  | e :: rest => body e ;; for_of rest body
  end.

(** [array[i]]: [undefined] out of range, and a stored [undefined] reads the
    same. *)
Definition index {A} (array : list (option A)) (i : nat) : option A :=
  match nth_error array i with
  | Some v => v
  | None => None
  end.

(** A string is truthy when it is not empty. *)
Definition truthy_string (s : string) : bool := negb (String.eqb s "").

(** ** Double-precision arithmetic

    A JavaScript number is an IEEE 754 double: every arithmetic operation
    returns the exact result rounded to the nearest number with a
    significand of 53 bits, a tie going to the even significand.  [fl] is
    that rounding on the rationals.  The exponent is not bounded here: the
    model agrees with the doubles as long as no result overflows or falls
    into the subnormal range, which [in_double_range] keeps the operands of
    the cover fit away from. *)

(** The nearest integer, a tie going to the even one. *)
Definition round_half_even (q : Q) : Z :=
  let f := Qfloor q in
  match Qcompare (q - inject_Z f) (1 # 2) with
  | Lt => f
  | Gt => (f + 1)%Z
  | Eq => if Z.even f then f else (f + 1)%Z
  end.

(** The binary exponent of a positive rational: [2 ^ ilog2 q <= q < 2 ^ (ilog2 q + 1)]. *)
Definition ilog2 (q : Q) : Z :=
  let k := (Z.log2 (Qnum q) - Z.log2 (Zpos (Qden q)))%Z in
  if Qle_bool (2 ^ k) q then k else (k - 1)%Z.

(** A positive rational rounded to 53 significant bits. *)
Definition round53 (q : Q) : Q :=
  let ulp := 2 ^ (ilog2 q - 52) in
  inject_Z (round_half_even (q / ulp)) * ulp.

Definition fl (q : Q) : Q :=
  match Qcompare q 0 with
  | Eq => 0
  | Gt => Qred (round53 q)
  | Lt => Qred (- round53 (- q))
  end.

(** Half the distance between 1 and the next double. *)
Definition u53 : Q := 1 # (2 ^ 53).

(** A double that is 0 or of a magnitude between 2^-256 and 2^256. *)
Definition in_double_range (q : Q) : Prop :=
  fl q == q /\ (q == 0 \/ (1 # (2 ^ 256) <= Qabs q /\ Qabs q <= inject_Z (2 ^ 256))).

(** ** The compositor: class CanvasDrawer (current revision) *)

(** [this.CONSTANTS]; [POLAROID_HEIGHT] is the getter. *)
Definition FONT_SIZE : Q := 90.
Definition PADDING : Q := 60.
Definition TEXT_AREA_HEIGHT : Q := 220.
Definition IMG_SIZE : Q := 1000.
Definition POLAROID_WIDTH : Q := 1000 + 60 * 2.
Definition POLAROID_HEIGHT : Q := IMG_SIZE + PADDING + TEXT_AREA_HEIGHT.
Definition GRID_GAP : Q := 100.

(** The argument of [createDownloadableCanvas]; [decorations] is a [Set],
    spread in insertion order. *)
Record Options : Type :=
  { layout : string;
    images : list string;
    text : string;
    opt_filter : string;
    opt_font : string;
    opt_decorations : list string }.

Module CanvasDrawer.

(** The cell sizes of the collage branch. *)
Definition w_large : Q := POLAROID_WIDTH.
Definition h_large : Q := POLAROID_HEIGHT.
Definition w_small : Q := (POLAROID_WIDTH - GRID_GAP) / 2.
Definition h_small : Q := POLAROID_HEIGHT.

Section Drawer.

Variable config : Config.
Variable world : World.

Definition _loadAssets (imageSources activeDecorations : list string)
  : result (list (option Image) * list (string * Image)) :=
  let imagePromises :=
    map (fun src => catch_console_error (decode world src)) imageSources in
  match
    map_throwing (fun id =>
      match lookup id (decorations config) with
      | None => Throw (TypeError "url")
      | Some d =>
          Ok (catch_console_error
                (then_ (decode world (url d)) (fun img => (id, img))))
      end) activeDecorations
  with
  | Throw e => Throw e
  | Ok decoPromises =>
      match Promise_all (filter truthy_object imagePromises),
            Promise_all (filter truthy_object decoPromises) with
      | Ok loadedImages, Ok loadedDecos =>
          match
            map_throwing (fun d : option (string * Image) =>
              match d with
              | None => Throw (TypeError "id")
              | Some d => Ok (fst d, snd d)
              end) loadedDecos
          with
          | Ok entries => Ok (loadedImages, new_Map entries)
          | Throw e => Throw e
          end
      | Throw e, _ => Throw e
      | _, Throw e => Throw e
      end
  end.

(** [_drawImageWithAspectRatio], every operation rounded to a double; the
    product [img.width * ratio] is computed twice in the source, with the
    same result.  [img.width] and [img.height] are integers below 2^32
    and so are doubles as they are.  An image of width or height 0 makes an
    argument of [drawImage] non-finite or its source rectangle empty, and
    [drawImage] then returns without drawing. *)
Definition _drawImageWithAspectRatio (img : option Image) (dx dy dWidth dHeight : Q)
  : M unit :=
  match img with
  | None => throw (TypeError "width")
  | Some img =>
      if (img_width img =? 0)%N || (img_height img =? 0)%N then ret tt
      else
        let hRatio := fl (dWidth / N2Q (img_width img)) in
        let vRatio := fl (dHeight / N2Q (img_height img)) in
        let ratio := Qmax hRatio vRatio in
        let centerShiftX := fl (fl (dWidth - fl (N2Q (img_width img) * ratio)) / 2) in
        let centerShiftY := fl (fl (dHeight - fl (N2Q (img_height img) * ratio)) / 2) in
        drawImage9 img
          {| rx := 0; ry := 0; rw := N2Q (img_width img); rh := N2Q (img_height img) |}
          {| rx := fl (dx + centerShiftX); ry := fl (dy + centerShiftY);
             rw := fl (N2Q (img_width img) * ratio);
             rh := fl (N2Q (img_height img) * ratio) |}
  end.

Definition _drawSinglePolaroid (img : option Image) (text : string)
    (decoMap : list (string * Image)) (filterValue font : string) : M unit :=
  let polaroidBg := polaroid_bg world in
  (* A. background and shadow *)
  set_shadowColor "rgba(60, 60, 80, 0.15)" ;;
  set_fillStyle polaroidBg ;;
  fillRect {| rx := 0; ry := 0; rw := POLAROID_WIDTH; rh := POLAROID_HEIGHT |} ;;
  set_shadowColor "transparent" ;;
  (* B. image with filter *)
  save ;;
  clip_rect {| rx := PADDING; ry := PADDING; rw := IMG_SIZE; rh := IMG_SIZE |} ;;
  set_filter filterValue ;;
  _drawImageWithAspectRatio img PADDING PADDING IMG_SIZE IMG_SIZE ;;
  set_filter "none" ;;
  restore ;;
  (* C. decorations *)
  for_of decoMap (fun entry =>
    match lookup (fst entry) (decorations config) with
    | None => throw (TypeError "x")
    | Some d =>
        drawImage5 (snd entry)
          {| rx := deco_x d; ry := deco_y d; rw := deco_w d; rh := deco_h d |}
    end) ;;
  (* D. text *)
  if truthy_string text then
    set_fillStyle "#444" ;;
    set_font FONT_SIZE font ;;
    fillText text (POLAROID_WIDTH / 2) (PADDING + IMG_SIZE + TEXT_AREA_HEIGHT / 2)
  else ret tt.

Definition cols_rows (layout : string) : Z * Z :=
  if String.eqb layout "grid-2x2" then (2, 2)%Z
  else if String.eqb layout "grid-strip" || String.eqb layout "grid-4x1" then (1, 4)%Z
  else (1, 1)%Z.

Definition createDownloadableCanvas (options : Options) : M Canvas :=
  match _loadAssets (images options) (opt_decorations options) with
  | Throw e => throw e
  | Ok (loadedImages, decoMap) =>
      if (List.length loadedImages =? 0)%nat then throw NoImagesToDraw
      else
        match lookup (opt_filter options) (filters config) with
        | None => throw (TypeError "value")
        | Some f =>
            let filterValue := value f in
            let last := (Z.of_nat (List.length loadedImages) - 1)%Z in
            (fun cv =>
               clearRect {| rx := 0; ry := 0; rw := width cv; rh := height cv |} cv) ;;
            (if String.eqb (layout options) "collage" then
               set_width w_large ;;
               set_height (h_large + h_small + GRID_GAP) ;;
               (* large image *)
               match index loadedImages 0 with
               | Some img0 =>
                   save ;;
                   _drawSinglePolaroid (Some img0) "" decoMap filterValue
                     (opt_font options) ;;
                   restore
               | None => ret tt
               end ;;
               (* small images *)
               for_range 1 2 (fun i =>
                 match index loadedImages i with
                 | None => ret tt
                 | Some img =>
                     let x := (inject_Z (Z.of_nat i) - 1) * (w_small + GRID_GAP) in
                     let y := h_large + GRID_GAP in
                     save ;;
                     translate x y ;;
                     scale (w_small / POLAROID_WIDTH) (h_small / POLAROID_HEIGHT) ;;
                     _drawSinglePolaroid (Some img)
                       (if (Z.of_nat i =? last)%Z then text options else "")
                       [] filterValue (opt_font options) ;;
                     restore
                 end)
             else
               let cols := fst (cols_rows (layout options)) in
               let rows := snd (cols_rows (layout options)) in
               set_width (inject_Z cols * POLAROID_WIDTH
                          + (inject_Z cols - 1) * GRID_GAP) ;;
               set_height (inject_Z rows * POLAROID_HEIGHT
                           + (inject_Z rows - 1) * GRID_GAP) ;;
               for_range 0 (List.length loadedImages) (fun i =>
                 let isLastImage := (Z.of_nat i =? last)%Z in
                 let currentText := if isLastImage then text options else "" in
                 let currentDecos :=
                   if String.eqb (layout options) "single" || (i =? 0)%nat
                   then decoMap else [] in
                 let row := (Z.of_nat i / cols)%Z in
                 let col := (Z.of_nat i mod cols)%Z in
                 let x := inject_Z col * (POLAROID_WIDTH + GRID_GAP) in
                 let y := inject_Z row * (POLAROID_HEIGHT + GRID_GAP) in
                 save ;;
                 translate x y ;;
                 _drawSinglePolaroid (index loadedImages i) currentText currentDecos
                   filterValue (opt_font options) ;;
                 restore)) ;;
            (fun cv => (Ok cv, cv))
        end
  end.

End Drawer.
End CanvasDrawer.

(** ** The page: class PolaroidMaker (current revision) *)

Module PolaroidMaker.

(** [this.config] as [_initConfig] builds it. *)
Definition config : Config :=
  {| filters :=
       [ ("none", {| filter_name := "None"; value := "none" |});
         ("vintage", {| filter_name := "Vintage";
            value := "sepia(0.35) contrast(1.1) brightness(1.05) saturate(1.2)" |});
         ("mono", {| filter_name := "Mono"; value := "grayscale(1)" |});
         ("retro", {| filter_name := "Retro";
            value := "sepia(0.6) contrast(0.9) brightness(1.1)" |});
         ("gloomy", {| filter_name := "Gloomy";
            value := "contrast(1.2) brightness(0.9) saturate(0.8)" |});
         ("mellow", {| filter_name := "Mellow";
            value := "brightness(1.1) contrast(0.95) saturate(0.9)" |});
         ("dreamy", {| filter_name := "Dreamy";
            value := "saturate(1.4) contrast(0.9) brightness(1.1) blur(0.5px)" |});
         ("lomo", {| filter_name := "Lomo"; value := "saturate(1.5) contrast(1.2)" |});
         ("golden", {| filter_name := "Golden";
            value := "sepia(0.2) saturate(1.4) contrast(0.9) brightness(1.1) hue-rotate(-10deg)" |});
         ("cyber", {| filter_name := "Cyber";
            value := "saturate(1.5) contrast(1.2) hue-rotate(180deg) sepia(0.3) brightness(0.9)" |});
         ("cam90", {| filter_name := "90s Cam";
            value := "sepia(0.4) contrast(1.1) brightness(1.1) saturate(1.3)" |}) ];
     decorations :=
       [ ("ribbon-decoration",
          {| deco_name := "Ribbon"; url := "assets/ribbon.png";
             deco_w := 200; deco_h := 100; deco_x := 0; deco_y := 0 |});
         ("heart-decoration",
          {| deco_name := "Heart"; url := "assets/heart.png";
             deco_w := 150; deco_h := 150; deco_x := 870; deco_y := 0 |});
         ("sparkle-decoration",
          {| deco_name := "Sparkle"; url := "assets/sparkle.svg";
             deco_w := 100; deco_h := 100; deco_x := 880; deco_y := 30 |});
         ("doodle-arrow-decoration",
          {| deco_name := "Arrow"; url := "assets/doodle-arrow.svg";
             deco_w := 200; deco_h := 200; deco_x := 400; deco_y := 400 |}) ] |}.

(** The part of [this.state] the image list depends on, with the caption
    field and the style selections [downloadPolaroid] reads. *)
Record State : Type :=
  { st_layout : string;
    st_filter : string;
    st_font : string;
    st_decorations : list string;
    capturedImages : list string;
    polaroidText : string }.

(** [_initState]. *)
Definition initial : State :=
  {| st_layout := "single"; st_filter := "none"; st_font := "Caveat";
     st_decorations := []; capturedImages := []; polaroidText := "" |}.

Definition _getMaxImagesForLayout (st : State) : nat :=
  if String.eqb (st_layout st) "single" then 1
  else if String.eqb (st_layout st) "grid-2x2" then 4
  else if String.eqb (st_layout st) "grid-strip" then 4
  else if String.eqb (st_layout st) "collage" then 3
  else 1.

Definition set_capturedImages (imgs : list string) (st : State) : State :=
  {| st_layout := st_layout st; st_filter := st_filter st; st_font := st_font st;
     st_decorations := st_decorations st; capturedImages := imgs;
     polaroidText := polaroidText st |}.

(** [array.shift()] drops the first element, if there is one. *)
Definition shift {A} (array : list A) : list A := tl array.

Definition addCapturedImage (imageData : string) (st : State) : State :=
  let maxImages := _getMaxImagesForLayout st in
  let shifted :=
    if (maxImages <=? List.length (capturedImages st))%nat
    then shift (capturedImages st) else capturedImages st in
  set_capturedImages (shifted ++ [imageData]) st.

(** The click handler of the layout options: [this.state.layout =
    el.dataset.layout]; the image list is left as it is. *)
Definition selectLayout (l : string) (st : State) : State :=
  {| st_layout := l; st_filter := st_filter st; st_font := st_font st;
     st_decorations := st_decorations st; capturedImages := capturedImages st;
     polaroidText := polaroidText st |}.

(** [array.slice(-n)]: the last [n] elements; [slice(-0)] is [slice(0)],
    the whole array. *)
Definition slice_last {A} (n : nat) (array : list A) : list A :=
  if (n =? 0)%nat then array else skipn (List.length array - n) array.

(** The options [downloadPolaroid] passes to the compositor. *)
Definition download_options (st : State) : Options :=
  {| layout := st_layout st;
     images := slice_last (_getMaxImagesForLayout st) (capturedImages st);
     text := polaroidText st;
     opt_filter := st_filter st;
     opt_font := st_font st;
     opt_decorations := st_decorations st |}.

(** What the user does to the image list and the layout. *)
Inductive action : Type :=
| Add (imageData : string)
| SelectLayout (l : string).

Definition step (st : State) (a : action) : State :=
  match a with
  | Add imageData => addCapturedImage imageData st
  | SelectLayout l => selectLayout l st
  end.

Definition run (acts : list action) (st : State) : State := fold_left step acts st.

End PolaroidMaker.

(** ** The earlier revision, app.js *)

Module AppJs.

Definition _getMaxImagesForLayout (st : PolaroidMaker.State) : nat :=
  if String.eqb (PolaroidMaker.st_layout st) "single" then 1 else 4.

(** [while (array.length > maxImages) array.shift()]. *)
Fixpoint shift_while_longer {A} (maxImages : nat) (array : list A) : list A :=
  match array with
  | [] => []
  | _ :: rest =>
      if (maxImages <? List.length array)%nat
      then shift_while_longer maxImages rest
      else array
  end.

Definition addCapturedImage (imageData : string) (st : PolaroidMaker.State)
  : PolaroidMaker.State :=
  let maxImages := _getMaxImagesForLayout st in
  PolaroidMaker.set_capturedImages
    (shift_while_longer maxImages (PolaroidMaker.capturedImages st ++ [imageData])) st.

Definition step (st : PolaroidMaker.State) (a : PolaroidMaker.action)
  : PolaroidMaker.State :=
  match a with
  | PolaroidMaker.Add imageData => addCapturedImage imageData st
  | PolaroidMaker.SelectLayout l => PolaroidMaker.selectLayout l st
  end.

Definition run (acts : list PolaroidMaker.action) (st : PolaroidMaker.State)
  : PolaroidMaker.State := fold_left step acts st.

(** The catalog of app.js: its decorations have a size and no offset. *)
Record DecorationEntry : Type :=
  { deco_name : string; url : string; deco_w : Q; deco_h : Q }.

Record Config : Type :=
  { filters : list (string * FilterEntry);
    decorations : list (string * DecorationEntry) }.

Definition config : Config :=
  {| filters :=
       [ ("none", {| filter_name := "None"; value := "none" |});
         ("vintage", {| filter_name := "Vintage";
            value := "sepia(0.35) contrast(1.1) brightness(1.05) saturate(1.2)" |});
         ("mono", {| filter_name := "Mono"; value := "grayscale(1)" |});
         ("retro", {| filter_name := "Retro";
            value := "sepia(0.6) contrast(0.9) brightness(1.1)" |});
         ("gloomy", {| filter_name := "Gloomy";
            value := "contrast(1.2) brightness(0.9) saturate(0.8)" |});
         ("mellow", {| filter_name := "Mellow";
            value := "brightness(1.1) contrast(0.95) saturate(0.9)" |});
         ("dreamy", {| filter_name := "Dreamy";
            value := "saturate(1.4) contrast(0.9) brightness(1.1) blur(0.5px)" |});
         ("lomo", {| filter_name := "Lomo"; value := "saturate(1.5) contrast(1.2)" |}) ];
     decorations :=
       [ ("ribbon-decoration",
          {| deco_name := "Ribbon"; url := "assets/ribbon.png";
             deco_w := 200; deco_h := 100 |});
         ("heart-decoration",
          {| deco_name := "Heart"; url := "assets/heart.png";
             deco_w := 150; deco_h := 150 |}) ] |}.

Section Drawer.

Variable config : Config.
Variable world : World.

(** [_loadAssets] of app.js: a main image that fails to decode rejects the
    whole load; the decorations are handled as in the current revision, and
    the first use of a loaded decoration is the [console.log] of its id. *)
Definition _loadAssets (imageSources activeDecorations : list string)
  : result (list Image * list (string * Image)) :=
  let imagePromises := map (fun src => decode world src) imageSources in
  match
    map_throwing (fun id =>
      match lookup id (decorations config) with
      | None => Throw (TypeError "url")
      | Some d =>
          Ok (catch_console_error
                (then_ (decode world (url d)) (fun img => (id, img))))
      end) activeDecorations
  with
  | Throw e => Throw e
  | Ok decoPromises =>
      match Promise_all imagePromises,
            Promise_all (filter truthy_object decoPromises) with
      | Ok loadedImages, Ok loadedDecos =>
          match
            map_throwing (fun d : option (string * Image) =>
              match d with
              | None => Throw (TypeError "id")
              | Some d => Ok (fst d, snd d)
              end) loadedDecos
          with
          | Ok entries => Ok (loadedImages, new_Map entries)
          | Throw e => Throw e
          end
      | Throw e, _ => Throw e
      | _, Throw e => Throw e
      end
  end.

(** [_drawSinglePolaroid] of app.js, read as it is indented (the file has
    one closing brace too many after the decoration loop).  The ribbon
    and the heart are placed by id; any other decoration is not drawn.
    [_drawImageWithAspectRatio] is the same in both revisions. *)
Definition _drawSinglePolaroid (img : option Image) (text : string)
    (decoMap : list (string * Image)) (filterValue font : string) : M unit :=
  let polaroidBg := polaroid_bg world in
  set_shadowColor "rgba(60, 60, 80, 0.15)" ;;
  set_fillStyle polaroidBg ;;
  fillRect {| rx := 0; ry := 0; rw := POLAROID_WIDTH; rh := POLAROID_HEIGHT |} ;;
  set_shadowColor "transparent" ;;
  save ;;
  clip_rect {| rx := PADDING; ry := PADDING; rw := IMG_SIZE; rh := IMG_SIZE |} ;;
  set_filter filterValue ;;
  CanvasDrawer._drawImageWithAspectRatio img PADDING PADDING IMG_SIZE IMG_SIZE ;;
  set_filter "none" ;;
  restore ;;
  for_of decoMap (fun entry =>
    let d := lookup (fst entry) (decorations config) in
    if String.eqb (fst entry) "ribbon-decoration" then
      match d with
      | None => throw (TypeError "w")
      | Some d =>
          drawImage5 (snd entry)
            {| rx := 0; ry := 0; rw := deco_w d; rh := deco_h d |}
      end
    else if String.eqb (fst entry) "heart-decoration" then
      match d with
      | None => throw (TypeError "w")
      | Some d =>
          drawImage5 (snd entry)
            {| rx := POLAROID_WIDTH - deco_w d; ry := 0;
               rw := deco_w d; rh := deco_h d |}
      end
    else ret tt) ;;
  if truthy_string text then
    set_fillStyle "#444" ;;
    set_font FONT_SIZE font ;;
    fillText text (POLAROID_WIDTH / 2) (PADDING + IMG_SIZE + TEXT_AREA_HEIGHT / 2)
  else ret tt.

(** [createDownloadableCanvas] of app.js: no check of the number of images,
    no collage, the surface is sized before the filter is looked up. *)
Definition createDownloadableCanvas (options : Options) : M Canvas :=
  match _loadAssets (images options) (opt_decorations options) with
  | Throw e => throw e
  | Ok (loadedImages, decoMap) =>
      let cols := fst (CanvasDrawer.cols_rows (layout options)) in
      let rows := snd (CanvasDrawer.cols_rows (layout options)) in
      let last := (Z.of_nat (List.length loadedImages) - 1)%Z in
      set_width (inject_Z cols * POLAROID_WIDTH + (inject_Z cols - 1) * GRID_GAP) ;;
      set_height (inject_Z rows * POLAROID_HEIGHT + (inject_Z rows - 1) * GRID_GAP) ;;
      (fun cv =>
         clearRect {| rx := 0; ry := 0; rw := width cv; rh := height cv |} cv) ;;
      match lookup (opt_filter options) (filters config) with
      | None => throw (TypeError "value")
      | Some f =>
          let filterValue := value f in
          for_range 0 (List.length loadedImages) (fun i =>
            let isLastImage := (Z.of_nat i =? last)%Z in
            let currentText := if isLastImage then text options else "" in
            let currentDecos :=
              if String.eqb (layout options) "single" || (i =? 0)%nat
              then decoMap else [] in
            let row := (Z.of_nat i / cols)%Z in
            let col := (Z.of_nat i mod cols)%Z in
            let x := inject_Z col * (POLAROID_WIDTH + GRID_GAP) in
            let y := inject_Z row * (POLAROID_HEIGHT + GRID_GAP) in
            save ;;
            translate x y ;;
            _drawSinglePolaroid (nth_error loadedImages i) currentText currentDecos
              filterValue (opt_font options) ;;
            restore) ;;
          (fun cv => (Ok cv, cv))
      end
  end.

End Drawer.

End AppJs.

(** ** A concrete world for the examples *)

Definition photo (name : string) : Image :=
  {| src := name; img_width := 1920; img_height := 1080 |}.

(** Every source decodes to a 1920x1080 image, except those named
    "broken.jpg" and the heart decoration's asset. *)
Definition sample_world : World :=
  {| decode := fun s =>
       if String.eqb s "broken.jpg" || String.eqb s "assets/heart.png"
       then Rejected EncodingError else Fulfilled (photo s);
     polaroid_bg := "#ffffff" |}.

(** A world in which every source decodes. *)
Definition good_world : World :=
  {| decode := fun s => Fulfilled (photo s); polaroid_bg := "#ffffff" |}.

Definition blank : Canvas :=
  {| width := 300; height := 150; state := default_state; stack := []; pixels := [] |}.

Definition compose := CanvasDrawer.createDownloadableCanvas PolaroidMaker.config.

Definition opts (l : string) (imgs : list string) (t : string) (decos : list string) :=
  {| layout := l; images := imgs; text := t; opt_filter := "none";
     opt_font := "Caveat"; opt_decorations := decos |}.


(** ** Reading the display list *)

(** One polaroid as it appears on the surface: where it was drawn, which
    image it shows, which decoration images lie on it, and its caption (the
    empty string when no text was drawn). *)
Record Cell : Type :=
  { cell_at : Transform;
    cell_image : option Image;
    cell_decos : list Image;
    cell_caption : string }.

Fixpoint on_last {A} (f : A -> A) (l : list A) : list A :=
  match l with
  | [] => []
  | [c] => [f c]
  | c :: rest => c :: on_last f rest
  end.

(** A background fill opens a cell; the image, the decorations and the text
    drawn after it belong to that cell. *)
Definition cell_step (acc : list Cell) (op : draw_op) : list Cell :=
  match op with
  | ClearRect _ _ => acc
  | FillRect s _ =>
      acc ++ [{| cell_at := transform s; cell_image := None;
                 cell_decos := []; cell_caption := "" |}]
  | DrawImage9 _ img _ _ =>
      on_last (fun c => {| cell_at := cell_at c; cell_image := Some img;
                           cell_decos := cell_decos c;
                           cell_caption := cell_caption c |}) acc
  | DrawImage5 _ img _ =>
      on_last (fun c => {| cell_at := cell_at c; cell_image := cell_image c;
                           cell_decos := cell_decos c ++ [img];
                           cell_caption := cell_caption c |}) acc
  | FillText _ t _ _ =>
      on_last (fun c => {| cell_at := cell_at c; cell_image := cell_image c;
                           cell_decos := cell_decos c;
                           cell_caption := t |}) acc
  end.

Definition cells (log : list draw_op) : list Cell := fold_left cell_step log [].

(** The value a main image's promise settles to: the image, or [undefined]. *)
Definition decoded (world : World) (s : string) : option Image :=
  match decode world s with
  | Fulfilled img => Some img
  | Rejected _ => None
  end.

Definition positive_size (img : Image) : bool :=
  negb ((img_width img =? 0)%N || (img_height img =? 0)%N).

(** Every main image of the request decodes, to an image that has pixels. *)
Definition images_load (world : World) (imageSources : list string) : bool :=
  forallb (fun s => match decoded world s with
                    | Some img => positive_size img
                    | None => false
                    end) imageSources.

(** Every active decoration is in the catalog and its asset decodes. *)
Definition decorations_load (config : Config) (world : World)
    (activeDecorations : list string) : bool :=
  forallb (fun id => match lookup id (decorations config) with
                     | Some d => match decoded world (url d) with
                                 | Some _ => true
                                 | None => false
                                 end
                     | None => false
                     end) activeDecorations.

Definition filter_known (config : Config) (id : string) : bool :=
  match lookup id (filters config) with Some _ => true | None => false end.

(** The request can be served: it has an image, all its assets load and its
    filter is in the catalog. *)
Definition servable (config : Config) (world : World) (o : Options) : bool :=
  negb (List.length (images o) =? 0)%nat
  && images_load world (images o)
  && decorations_load config world (opt_decorations o)
  && filter_known config (opt_filter o).

(** The layouts the page offers, and how many images each takes
    ([PolaroidMaker._getMaxImagesForLayout]). *)
Definition recognized (l : string) : bool :=
  String.eqb l "single" || String.eqb l "grid-2x2"
  || String.eqb l "grid-strip" || String.eqb l "collage".

Definition capacity (l : string) : nat :=
  PolaroidMaker._getMaxImagesForLayout
    (PolaroidMaker.selectLayout l PolaroidMaker.initial).

(** *** What one call of [_drawSinglePolaroid] adds to the display list *)

Section Polaroid.

Variable config : Config.
Variable world : World.

Definition bg_state (s : DrawState) : DrawState :=
  with_fillStyle (polaroid_bg world) (with_shadowColor "rgba(60, 60, 80, 0.15)" s).

Definition body_state (s : DrawState) : DrawState :=
  with_shadowColor "transparent" (bg_state s).

(** The rectangle the cover fit would draw into, were its arithmetic exact. *)
Definition cover_exact (img : Image) (dx dy dWidth dHeight : Q) : Rect :=
  let ratio := Qmax (dWidth / N2Q (img_width img)) (dHeight / N2Q (img_height img)) in
  {| rx := dx + (dWidth - N2Q (img_width img) * ratio) / 2;
     ry := dy + (dHeight - N2Q (img_height img) * ratio) / 2;
     rw := N2Q (img_width img) * ratio;
     rh := N2Q (img_height img) * ratio |}.

(** The rectangle it draws into, in doubles. *)
Definition cover_dest (img : Image) (dx dy dWidth dHeight : Q) : Rect :=
  let ratio :=
    Qmax (fl (dWidth / N2Q (img_width img))) (fl (dHeight / N2Q (img_height img))) in
  {| rx := fl (dx + fl (fl (dWidth - fl (N2Q (img_width img) * ratio)) / 2));
     ry := fl (dy + fl (fl (dHeight - fl (N2Q (img_height img) * ratio)) / 2));
     rw := fl (N2Q (img_width img) * ratio);
     rh := fl (N2Q (img_height img) * ratio) |}.

Definition image_ops (s : DrawState) (img : Image) (filterValue : string)
  : list draw_op :=
  if (img_width img =? 0)%N || (img_height img =? 0)%N then []
  else
    [DrawImage9
       (with_filter filterValue
          (with_clip {| rx := PADDING; ry := PADDING; rw := IMG_SIZE; rh := IMG_SIZE |}
             (body_state s)))
       img
       {| rx := 0; ry := 0; rw := N2Q (img_width img); rh := N2Q (img_height img) |}
       (cover_dest img PADDING PADDING IMG_SIZE IMG_SIZE)].

Definition deco_ops (s : DrawState) (decoMap : list (string * Image)) : list draw_op :=
  flat_map (fun entry =>
    match lookup (fst entry) (decorations config) with
    | Some d =>
        [DrawImage5 (body_state s) (snd entry)
           {| rx := deco_x d; ry := deco_y d; rw := deco_w d; rh := deco_h d |}]
    | None => []
    end) decoMap.

Definition text_ops (s : DrawState) (text font : string) : list draw_op :=
  if truthy_string text then
    [FillText (with_font FONT_SIZE font (with_fillStyle "#444" (body_state s)))
       text (POLAROID_WIDTH / 2) (PADDING + IMG_SIZE + TEXT_AREA_HEIGHT / 2)]
  else [].

Definition polaroid_ops (s : DrawState) (img : Image) (text : string)
    (decoMap : list (string * Image)) (filterValue font : string) : list draw_op :=
  FillRect (bg_state s)
    {| rx := 0; ry := 0; rw := POLAROID_WIDTH; rh := POLAROID_HEIGHT |}
  :: image_ops s img filterValue ++ deco_ops s decoMap ++ text_ops s text font.

(** The drawing state [_drawSinglePolaroid] leaves behind. *)
Definition after_polaroid (s : DrawState) (text font : string) : DrawState :=
  if truthy_string text
  then with_font FONT_SIZE font (with_fillStyle "#444" (body_state s))
  else body_state s.

End Polaroid.

Definition in_catalog (config : Config) (decoMap : list (string * Image)) : Prop :=
  Forall (fun entry => lookup (fst entry) (decorations config) <> None) decoMap.

(** *** Canvas and state updates used to state what the drawer does *)

Definition add_pixels (ops : list draw_op) (cv : Canvas) : Canvas :=
  {| width := width cv; height := height cv; state := state cv;
     stack := stack cv; pixels := pixels cv ++ ops |}.

Definition put_state (s : DrawState) (cv : Canvas) : Canvas :=
  {| width := width cv; height := height cv; state := s;
     stack := stack cv; pixels := pixels cv |}.

Definition moved (dx dy : Q) (s : DrawState) : DrawState :=
  set_transform (translated dx dy (transform s)) s.

Definition shrunk (a b : Q) (s : DrawState) : DrawState :=
  set_transform (scaled a b (transform s)) s.

(** *** What a whole composition puts on the surface *)

Section Composition.

Variable config : Config.
Variable world : World.
Variable o : Options.
Variable loaded : list (option Image).
Variable decoMap : list (string * Image).
Variable filterValue : string.

Definition last_index : Z := (Z.of_nat (List.length loaded) - 1)%Z.

Definition cols : Z := fst (CanvasDrawer.cols_rows (layout o)).
Definition rows : Z := snd (CanvasDrawer.cols_rows (layout o)).

Definition grid_text (i : nat) : string :=
  if (Z.of_nat i =? last_index)%Z then text o else "".

Definition grid_decos (i : nat) : list (string * Image) :=
  if String.eqb (layout o) "single" || (i =? 0)%nat then decoMap else [].

Definition grid_x (i : nat) : Q :=
  inject_Z (Z.of_nat i mod cols) * (POLAROID_WIDTH + GRID_GAP).

Definition grid_y (i : nat) : Q :=
  inject_Z (Z.of_nat i / cols) * (POLAROID_HEIGHT + GRID_GAP).

Definition grid_ops (s : DrawState) (i : nat) : list draw_op :=
  match index loaded i with
  | Some img =>
      polaroid_ops config world (moved (grid_x i) (grid_y i) s) img
        (grid_text i) (grid_decos i) filterValue (opt_font o)
  | None => []
  end.

Definition grid_surface : Canvas :=
  {| width := inject_Z cols * POLAROID_WIDTH + (inject_Z cols - 1) * GRID_GAP;
     height := inject_Z rows * POLAROID_HEIGHT + (inject_Z rows - 1) * GRID_GAP;
     state := default_state;
     stack := [];
     pixels := flat_map (grid_ops default_state) (seq 0 (List.length loaded)) |}.

Definition large_ops (s : DrawState) : list draw_op :=
  match index loaded 0 with
  | Some img0 =>
      polaroid_ops config world s img0 "" decoMap filterValue (opt_font o)
  | None => []
  end.

Definition small_state (s : DrawState) (i : nat) : DrawState :=
  shrunk (CanvasDrawer.w_small / POLAROID_WIDTH)
    (CanvasDrawer.h_small / POLAROID_HEIGHT)
    (moved ((inject_Z (Z.of_nat i) - 1) * (CanvasDrawer.w_small + GRID_GAP))
       (CanvasDrawer.h_large + GRID_GAP) s).

Definition small_ops (s : DrawState) (i : nat) : list draw_op :=
  match index loaded i with
  | Some img =>
      polaroid_ops config world (small_state s i) img (grid_text i) []
        filterValue (opt_font o)
  | None => []
  end.

Definition collage_surface : Canvas :=
  {| width := CanvasDrawer.w_large;
     height := CanvasDrawer.h_large + CanvasDrawer.h_small + GRID_GAP;
     state := default_state;
     stack := [];
     pixels := large_ops default_state
               ++ flat_map (small_ops default_state) (seq 1 2) |}.

End Composition.

(** *** The cells a composition shows *)

(** The cell one call of [_drawSinglePolaroid] shows; an image without
    pixels leaves the image area empty. *)
Definition polaroid_cell (s : DrawState) (img : Image) (text : string)
    (decoMap : list (string * Image)) : Cell :=
  {| cell_at := transform s;
     cell_image := if positive_size img then Some img else None;
     cell_decos := map snd decoMap;
     cell_caption := text |}.

Section CompositionCells.

Variable o : Options.
Variable loaded : list (option Image).
Variable decoMap : list (string * Image).

Definition grid_cells (i : nat) : list Cell :=
  match index loaded i with
  | Some img =>
      [polaroid_cell (moved (grid_x o i) (grid_y o i) default_state) img
         (grid_text o loaded i) (grid_decos o decoMap i)]
  | None => []
  end.

Definition large_cells : list Cell :=
  match index loaded 0 with
  | Some img0 => [polaroid_cell default_state img0 "" decoMap]
  | None => []
  end.

Definition small_cells (i : nat) : list Cell :=
  match index loaded i with
  | Some img =>
      [polaroid_cell (small_state default_state i) img (grid_text o loaded i) []]
  | None => []
  end.

End CompositionCells.

(** *** The documented geometry *)

(** Cell width = image side + 2 x padding; cell height = image side +
    padding + caption-band height. *)
Definition cell_width : Q := IMG_SIZE + 2 * PADDING.
Definition cell_height : Q := IMG_SIZE + PADDING + TEXT_AREA_HEIGHT.

(** A statement that leaves the size of the surface alone, whether it
    returns or throws. *)
Definition keeps_size {A} (m : M A) : Prop :=
  forall cv, width (snd (m cv)) = width cv /\ height (snd (m cv)) = height cv.

(** The image a cell shows for an entry of [loadedImages]. *)
Definition shown (img : option Image) : option Image :=
  match img with
  | Some img => if positive_size img then Some img else None
  | None => None
  end.

(** Cell [i] of the single and grid layouts. *)
Definition grid_cell (o : Options) (loaded : list (option Image))
    (decoMap : list (string * Image)) (i : nat) : Cell :=
  {| cell_at := transform (moved (grid_x o i) (grid_y o i) default_state);
     cell_image := shown (index loaded i);
     cell_decos := map snd (grid_decos o decoMap i);
     cell_caption := grid_text o loaded i |}.

(** Every entry of [loadedImages] is an image that has pixels. *)
Definition all_shown (loaded : list (option Image)) : Prop :=
  Forall (fun img => exists i, img = Some i /\ positive_size i = true) loaded.

(** What the promise of an active decoration settles to, after its
    [catch]: the entry for the map, or [undefined]. *)
Definition settled (config : Config) (world : World) (id : string)
  : option (string * Image) :=
  match lookup id (decorations config) with
  | Some d =>
      match decode world (url d) with
      | Fulfilled img => Some (id, img)
      | Rejected _ => None
      end
  | None => None
  end.

(** *** How the drawing calls of a composition are styled *)


(** A drawing state with no clip and no filter. *)
Definition plain (s : DrawState) : Prop := clip s = [] /\ ctx_filter s = "none".

(** A statement that can only throw an error of a given kind. *)
Definition throws_only {A} (P : js_error -> Prop) (m : M A) : Prop :=
  forall cv e cv', m cv = (Throw e, cv') -> P e.

(** *** The rectangle a cell covers on the surface *)

Definition cell_rect (c : Cell) : Rect :=
  {| rx := tx (cell_at c);
     ry := ty (cell_at c);
     rw := sx (cell_at c) * POLAROID_WIDTH;
     rh := sy (cell_at c) * POLAROID_HEIGHT |}.

Definition inside (r : Rect) (cv : Canvas) : Prop :=
  0 <= rx r /\ rx r + rw r <= width cv /\ 0 <= ry r /\ ry r + rh r <= height cv.

(** Two rectangles at least [gap] apart, horizontally or vertically. *)
Definition apart (gap : Q) (r1 r2 : Rect) : Prop :=
  rx r1 + rw r1 + gap <= rx r2 \/ rx r2 + rw r2 + gap <= rx r1
  \/ ry r1 + rh r1 + gap <= ry r2 \/ ry r2 + rh r2 + gap <= ry r1.

(** ** More of class PolaroidMaker (current revision): selections, preview, download *)

Module Page.

(** A JavaScript [Set] of strings keeps its elements in insertion order. *)
Definition Set_has (x : string) (s : list string) : bool :=
  existsb (String.eqb x) s.

Definition Set_add (x : string) (s : list string) : list string :=
  if Set_has x s then s else s ++ [x].

Definition Set_delete (x : string) (s : list string) : list string :=
  filter (fun y => negb (String.eqb x y)) s.

Definition set_decorations (ds : list string) (st : PolaroidMaker.State)
  : PolaroidMaker.State :=
  {| PolaroidMaker.st_layout := PolaroidMaker.st_layout st;
     PolaroidMaker.st_filter := PolaroidMaker.st_filter st;
     PolaroidMaker.st_font := PolaroidMaker.st_font st;
     PolaroidMaker.st_decorations := ds;
     PolaroidMaker.capturedImages := PolaroidMaker.capturedImages st;
     PolaroidMaker.polaroidText := PolaroidMaker.polaroidText st |}.

(** The click handler of the decoration options:
    [decorations.has(decoId) ? decorations.delete(decoId) : decorations.add(decoId)]. *)
Definition toggleDecoration (decoId : string) (st : PolaroidMaker.State)
  : PolaroidMaker.State :=
  set_decorations
    (if Set_has decoId (PolaroidMaker.st_decorations st)
     then Set_delete decoId (PolaroidMaker.st_decorations st)
     else Set_add decoId (PolaroidMaker.st_decorations st)) st.

(** What [renderPolaroid] writes into the preview container.  The markup
    is kept as a tree: one record per [div.polaroid] with the values the
    template interpolates, and one per [div.decoration] with the lengths
    of its style, in px.  The code builds a string and assigns it to
    [innerHTML]: the tree is what that string parses to when the
    interpolated values are free of markup ([markup_free], below); a
    caption with an angle bracket or an ampersand, for one, would be
    parsed, not shown. *)
Record DecorationDiv : Type :=
  { dd_url : string; dd_width : Q; dd_height : Q; dd_top : Q; dd_left : Q }.

Record PolaroidDiv : Type :=
  { pd_decorations : list DecorationDiv;
    pd_src : string;
    pd_filterClass : string;
    pd_alt : option nat;           (* "Captured photo" or "Captured photo n" *)
    pd_font : string;
    pd_text : string }.

Inductive Preview : Type :=
| Cleared                                           (* innerHTML = '' *)
| OutputArea (p : PolaroidDiv)                      (* div.polaroid-output-area *)
| GridWrapper (layoutClass : string) (slots : list PolaroidDiv).

(** The transparent 1x1 GIF shown in a slot that has no image. *)
Definition placeholder : string :=
  "data:image/gif;base64,R0lGODlhAQABAAD/ACwAAAAAAQABAAACADs=".

Section Render.

Variable config : Config.

Definition decorationHTML (st : PolaroidMaker.State) : result (list DecorationDiv) :=
  map_throwing (fun id =>
    match lookup id (decorations config) with
    | None => Throw (TypeError "url")
    | Some deco =>
        Ok {| dd_url := url deco;
              dd_width := deco_w deco / 4;
              dd_height := deco_h deco / 4;
              dd_top := deco_y deco / 4;
              dd_left := deco_x deco / 4 |}
    end) (PolaroidMaker.st_decorations st).

Definition renderPolaroid (st : PolaroidMaker.State) : result Preview :=
  if (List.length (PolaroidMaker.capturedImages st) =? 0)%nat then Ok Cleared
  else
    let text := PolaroidMaker.polaroidText st in
    let imagesToRender :=
      PolaroidMaker.slice_last (PolaroidMaker._getMaxImagesForLayout st)
        (PolaroidMaker.capturedImages st) in
    let filterClass := String.append "filter-" (PolaroidMaker.st_filter st) in
    match decorationHTML st with
    | Throw e => Throw e
    | Ok decorationHTML =>
        if String.eqb (PolaroidMaker.st_layout st) "single" then
          Ok (OutputArea
                {| pd_decorations := decorationHTML;
                   pd_src := nth 0 imagesToRender "undefined";
                   pd_filterClass := filterClass;
                   pd_alt := None;
                   pd_font := PolaroidMaker.st_font st;
                   pd_text := text |})
        else
          let totalSlots := PolaroidMaker._getMaxImagesForLayout st in
          Ok (GridWrapper (PolaroidMaker.st_layout st)
                (map (fun i =>
                   let imgSrc :=
                     match nth_error imagesToRender i with
                     | Some s => if truthy_string s then s else placeholder
                     | None => placeholder
                     end in
                   let isTextVisible :=
                     (Z.of_nat i =? Z.of_nat (List.length imagesToRender) - 1)%Z in
                   let showDecorations := (i =? 0)%nat in
                   {| pd_decorations := if showDecorations then decorationHTML else [];
                      pd_src := imgSrc;
                      pd_filterClass := filterClass;
                      pd_alt := Some (i + 1)%nat;
                      pd_font := PolaroidMaker.st_font st;
                      pd_text := if isTextVisible then text else "" |})
                   (seq 0 totalSlots)))
    end.

End Render.

(** The polaroids of a preview, in document order. *)
Definition slots (pv : Preview) : list PolaroidDiv :=
  match pv with
  | Cleared => []
  | OutputArea p => [p]
  | GridWrapper _ ps => ps
  end.

(** What [downloadPolaroid] ends with: the file it offered, or the alert
    of its catch block; in both cases the download button is released. *)
Inductive Download : Type :=
| Saved (surface : Canvas)
| Alerted (e : js_error).

Definition downloadPolaroid (config : Config) (world : World)
    (st : PolaroidMaker.State) (cv : Canvas) : Download * Canvas :=
  match
    CanvasDrawer.createDownloadableCanvas config world
      (PolaroidMaker.download_options st) cv
  with
  | (Ok canvas, cv') => (Saved canvas, cv')
  | (Throw error, cv') => (Alerted error, cv')
  end.

(** The selections the user makes on the page, with the captures. *)
Inductive action : Type :=
| Capture (imageData : string)
| SelectLayout (l : string)
| ToggleDecoration (decoId : string).

Definition step (st : PolaroidMaker.State) (a : action) : PolaroidMaker.State :=
  match a with
  | Capture imageData => PolaroidMaker.addCapturedImage imageData st
  | SelectLayout l => PolaroidMaker.selectLayout l st
  | ToggleDecoration decoId => toggleDecoration decoId st
  end.

Definition run (acts : list action) (st : PolaroidMaker.State)
  : PolaroidMaker.State := fold_left step acts st.

(** The decoration options are built from the catalog, one per entry. *)
Definition offered (config : Config) (a : action) : Prop :=
  match a with
  | ToggleDecoration decoId => lookup decoId (decorations config) <> None
  | _ => True
  end.

End Page.

(** ** The camera, the shutter and the timer of class PolaroidMaker *)

Module Booth.

(** [this.state].  The selections and the image list are the record of
    [PolaroidMaker]; a [MediaStream] is named by a number. *)
Record State : Type :=
  { pm : PolaroidMaker.State;
    isStreaming : bool;
    isTimerActive : bool;
    facingMode : string;
    stream : option nat;
    videoDeviceCount : nat }.

(** [_initState]. *)
Definition _initState : State :=
  {| pm := PolaroidMaker.initial; isStreaming := false; isTimerActive := false;
     facingMode := "user"; stream := None; videoDeviceCount := 0 |}.

Definition with_pm (f : PolaroidMaker.State -> PolaroidMaker.State) (s : State)
  : State :=
  {| pm := f (pm s); isStreaming := isStreaming s; isTimerActive := isTimerActive s;
     facingMode := facingMode s; stream := stream s;
     videoDeviceCount := videoDeviceCount s |}.

Definition set_isStreaming (b : bool) (s : State) : State :=
  {| pm := pm s; isStreaming := b; isTimerActive := isTimerActive s;
     facingMode := facingMode s; stream := stream s;
     videoDeviceCount := videoDeviceCount s |}.

Definition set_isTimerActive (b : bool) (s : State) : State :=
  {| pm := pm s; isStreaming := isStreaming s; isTimerActive := b;
     facingMode := facingMode s; stream := stream s;
     videoDeviceCount := videoDeviceCount s |}.

Definition set_facingMode (m : string) (s : State) : State :=
  {| pm := pm s; isStreaming := isStreaming s; isTimerActive := isTimerActive s;
     facingMode := m; stream := stream s;
     videoDeviceCount := videoDeviceCount s |}.

Definition set_stream (m : option nat) (s : State) : State :=
  {| pm := pm s; isStreaming := isStreaming s; isTimerActive := isTimerActive s;
     facingMode := facingMode s; stream := m;
     videoDeviceCount := videoDeviceCount s |}.

Definition set_videoDeviceCount (n : nat) (s : State) : State :=
  {| pm := pm s; isStreaming := isStreaming s; isTimerActive := isTimerActive s;
     facingMode := facingMode s; stream := stream s;
     videoDeviceCount := n |}.

Definition set_filter (f : string) (st : PolaroidMaker.State) : PolaroidMaker.State :=
  {| PolaroidMaker.st_layout := PolaroidMaker.st_layout st;
     PolaroidMaker.st_filter := f;
     PolaroidMaker.st_font := PolaroidMaker.st_font st;
     PolaroidMaker.st_decorations := PolaroidMaker.st_decorations st;
     PolaroidMaker.capturedImages := PolaroidMaker.capturedImages st;
     PolaroidMaker.polaroidText := PolaroidMaker.polaroidText st |}.

Definition set_font (f : string) (st : PolaroidMaker.State) : PolaroidMaker.State :=
  {| PolaroidMaker.st_layout := PolaroidMaker.st_layout st;
     PolaroidMaker.st_filter := PolaroidMaker.st_filter st;
     PolaroidMaker.st_font := f;
     PolaroidMaker.st_decorations := PolaroidMaker.st_decorations st;
     PolaroidMaker.capturedImages := PolaroidMaker.capturedImages st;
     PolaroidMaker.polaroidText := PolaroidMaker.polaroidText st |}.

Definition set_polaroidText (t : string) (st : PolaroidMaker.State)
  : PolaroidMaker.State :=
  {| PolaroidMaker.st_layout := PolaroidMaker.st_layout st;
     PolaroidMaker.st_filter := PolaroidMaker.st_filter st;
     PolaroidMaker.st_font := PolaroidMaker.st_font st;
     PolaroidMaker.st_decorations := PolaroidMaker.st_decorations st;
     PolaroidMaker.capturedImages := PolaroidMaker.capturedImages st;
     PolaroidMaker.polaroidText := t |}.

(** *** The elements of the page the methods write to *)

(** The [disabled] attribute of the four buttons and the [hidden] class of
    the empty-state note; [_updateUI] sets all five. *)
Record Controls : Type :=
  { captureBtn_disabled : bool;
    startTimerBtn_disabled : bool;
    downloadBtn_disabled : bool;
    switchCameraBtn_disabled : bool;
    emptyState_hidden : bool }.

Record CameraView : Type :=
  { srcObject : option nat;           (* video.srcObject *)
    cameraOverlay_hidden : bool;
    cameraOverlay_text : string;
    startCameraBtn : string }.        (* its innerHTML *)

(** [countdownNumber.textContent]: the count, or the camera emoji. *)
Inductive countdown_text : Type :=
| Count (count : Z)
| CameraEmoji.

Record TimerView : Type :=
  { timerStatus : string;
    countdownOverlay_active : bool;   (* class is-active *)
    countdownNumber : countdown_text;
    flashEffect_active : bool }.      (* class active *)

(** The two number fields, each by what [parseInt] reads from its value
    ([None] for NaN), and the [max] attribute of the photo count. *)
Record Inputs : Type :=
  { photoCount : option Z;
    photoCount_max : nat;
    timerDelay : option Z }.

(** *** Callbacks waiting in [setTimeout] *)

(** The variables of one [startTimer] call that its callbacks close over.
    Of the callbacks of one call at most one is waiting at any time, each
    scheduled by the one before, so [photosTaken] travels with it. *)
Record Sequence : Type :=
  { photosTaken : Z; photosToTake : Z; delay : Z }.

Inductive task : Type :=
| Tick (count : Z) (env : Sequence)   (* [tick] of showCountdown *)
| CountdownDone (env : Sequence)      (* its last callback, after 800 ms *)
| NextPhoto (env : Sequence)          (* [sequence] of startTimer *)
| FlashOff.                           (* the callback of _triggerFlash *)

(** The object, the elements it holds, the running camera tracks, the
    files offered for download, the clock and the timer queue. *)
Record App : Type :=
  { app_state : State;
    controls : Controls;
    polaroidContainer : Page.Preview;
    camera_view : CameraView;
    timer_view : TimerView;
    inputs : Inputs;
    canvas : Canvas;                  (* els.canvas with this.ctx *)
    tracks : list nat;                (* streams whose tracks run *)
    downloads : list Page.Download;
    now : Z;                          (* ms *)
    timers : list (Z * task) }.       (* by due time, then by call order *)

Definition upd_state (f : State -> State) (p : App) : App :=
  {| app_state := f (app_state p); controls := controls p;
     polaroidContainer := polaroidContainer p; camera_view := camera_view p;
     timer_view := timer_view p; inputs := inputs p; canvas := canvas p;
     tracks := tracks p; downloads := downloads p; now := now p;
     timers := timers p |}.

Definition set_controls (c : Controls) (p : App) : App :=
  {| app_state := app_state p; controls := c;
     polaroidContainer := polaroidContainer p; camera_view := camera_view p;
     timer_view := timer_view p; inputs := inputs p; canvas := canvas p;
     tracks := tracks p; downloads := downloads p; now := now p;
     timers := timers p |}.

Definition set_polaroidContainer (pv : Page.Preview) (p : App) : App :=
  {| app_state := app_state p; controls := controls p;
     polaroidContainer := pv; camera_view := camera_view p;
     timer_view := timer_view p; inputs := inputs p; canvas := canvas p;
     tracks := tracks p; downloads := downloads p; now := now p;
     timers := timers p |}.

Definition upd_camera_view (f : CameraView -> CameraView) (p : App) : App :=
  {| app_state := app_state p; controls := controls p;
     polaroidContainer := polaroidContainer p; camera_view := f (camera_view p);
     timer_view := timer_view p; inputs := inputs p; canvas := canvas p;
     tracks := tracks p; downloads := downloads p; now := now p;
     timers := timers p |}.

Definition upd_timer_view (f : TimerView -> TimerView) (p : App) : App :=
  {| app_state := app_state p; controls := controls p;
     polaroidContainer := polaroidContainer p; camera_view := camera_view p;
     timer_view := f (timer_view p); inputs := inputs p; canvas := canvas p;
     tracks := tracks p; downloads := downloads p; now := now p;
     timers := timers p |}.

Definition set_inputs (i : Inputs) (p : App) : App :=
  {| app_state := app_state p; controls := controls p;
     polaroidContainer := polaroidContainer p; camera_view := camera_view p;
     timer_view := timer_view p; inputs := i; canvas := canvas p;
     tracks := tracks p; downloads := downloads p; now := now p;
     timers := timers p |}.

Definition set_canvas (cv : Canvas) (p : App) : App :=
  {| app_state := app_state p; controls := controls p;
     polaroidContainer := polaroidContainer p; camera_view := camera_view p;
     timer_view := timer_view p; inputs := inputs p; canvas := cv;
     tracks := tracks p; downloads := downloads p; now := now p;
     timers := timers p |}.

Definition set_tracks (l : list nat) (p : App) : App :=
  {| app_state := app_state p; controls := controls p;
     polaroidContainer := polaroidContainer p; camera_view := camera_view p;
     timer_view := timer_view p; inputs := inputs p; canvas := canvas p;
     tracks := l; downloads := downloads p; now := now p;
     timers := timers p |}.

Definition set_downloads (l : list Page.Download) (p : App) : App :=
  {| app_state := app_state p; controls := controls p;
     polaroidContainer := polaroidContainer p; camera_view := camera_view p;
     timer_view := timer_view p; inputs := inputs p; canvas := canvas p;
     tracks := tracks p; downloads := l; now := now p;
     timers := timers p |}.

Definition set_now (t : Z) (p : App) : App :=
  {| app_state := app_state p; controls := controls p;
     polaroidContainer := polaroidContainer p; camera_view := camera_view p;
     timer_view := timer_view p; inputs := inputs p; canvas := canvas p;
     tracks := tracks p; downloads := downloads p; now := t;
     timers := timers p |}.

Definition set_timers (q : list (Z * task)) (p : App) : App :=
  {| app_state := app_state p; controls := controls p;
     polaroidContainer := polaroidContainer p; camera_view := camera_view p;
     timer_view := timer_view p; inputs := inputs p; canvas := canvas p;
     tracks := tracks p; downloads := downloads p; now := now p;
     timers := q |}.

(** *** Methods: state passing over [App], with exceptions *)

Definition H (A : Type) : Type := App -> result A * App.

Definition hret {A} (a : A) : H A := fun p => (Ok a, p).

Definition hbind {A B} (m : H A) (k : A -> H B) : H B :=
  fun p =>
    match m p with
    | (Ok a, p') => k a p'
    | (Throw e, p') => (Throw e, p')
    end.

Declare Scope booth_scope.
Delimit Scope booth_scope with booth.
Notation "m ;; k" := (hbind m (fun _ => k)) : booth_scope.
Notation "'let*' a := m 'in' k" := (hbind m (fun a => k)) : booth_scope.
Local Open Scope booth_scope.

(** A statement that only updates the object. *)
Definition modify (f : App -> App) : H unit := fun p => (Ok tt, f p).

(** Reading [this.state]. *)
Definition get_state : H State := fun p => (Ok (app_state p), p).

(** A statement on [this.ctx]; none of those used here throws. *)
Definition on_ctx (m : M unit) : H unit :=
  fun p => (Ok tt, set_canvas (snd (m (canvas p))) p).

(** [setTimeout(callback, ms)]: callbacks run by due time, and in the order
    of the calls when due together. *)
Fixpoint enqueue (due : Z) (t : task) (q : list (Z * task)) : list (Z * task) :=
  match q with
  | [] => [(due, t)]
  | (d, t') :: rest =>
      if (due <? d)%Z then (due, t) :: q else (d, t') :: enqueue due t rest
  end.

Definition setTimeout (t : task) (ms : Z) : H unit :=
  modify (fun p => set_timers (enqueue (now p + ms)%Z t (timers p)) p).

(** [parseInt(value) || d]: NaN and 0 give [d]. *)
Definition or_default (v : option Z) (d : Z) : Z :=
  match v with
  | Some z => if (z =? 0)%Z then d else z
  | None => d
  end.

(** [stream.getTracks().forEach(track => track.stop())]. *)
Definition stop_tracks (m : nat) (live : list nat) : list nat :=
  filter (fun id => negb (id =? m)%nat) live.

Definition dquote : string := String (Ascii.ascii_of_nat 34) EmptyString.

(** What [_updateUI] sets the controls to. *)
Definition controls_for (s : State) : Controls :=
  let hasImages :=
    (0 <? List.length (PolaroidMaker.capturedImages (pm s)))%nat in
  {| captureBtn_disabled := negb (isStreaming s) || isTimerActive s;
     startTimerBtn_disabled := negb (isStreaming s) || isTimerActive s;
     downloadBtn_disabled := negb hasImages || isTimerActive s;
     switchCameraBtn_disabled :=
       negb (isStreaming s) || isTimerActive s
       || (videoDeviceCount s <=? 1)%nat;
     emptyState_hidden := hasImages |}.

Section Methods.

Variable config : Config.
Variable world : World.

(** The frame the video element shows, by its [srcObject] and the time;
    [videoWidth] and [videoHeight] are the size of the frame. *)
Variable video : option nat -> Z -> Image.

(** [canvas.toDataURL('image/jpeg', 0.95)], by the size and the content of
    the bitmap. *)
Variable toDataURL : Q -> Q -> list draw_op -> string.

Definition _updateUI : H unit :=
  modify (fun p => set_controls (controls_for (app_state p)) p).

(** [renderPolaroid]: the markup is built before the container is written,
    so an exception leaves the page as it was. *)
Definition renderPolaroid : H unit :=
  let* s := get_state in
  match Page.renderPolaroid config (pm s) with
  | Throw e => fun p => (Throw e, p)
  | Ok html => modify (set_polaroidContainer html) ;; _updateUI
  end.

Definition addCapturedImage (imageData : string) : H unit :=
  modify (upd_state (with_pm (PolaroidMaker.addCapturedImage imageData))) ;;
  renderPolaroid ;;
  _updateUI.

Definition _triggerFlash : H unit :=
  modify (upd_timer_view (fun v =>
    {| timerStatus := timerStatus v;
       countdownOverlay_active := countdownOverlay_active v;
       countdownNumber := countdownNumber v;
       flashEffect_active := true |})) ;;
  setTimeout FlashOff 300.

Definition flash_off : H unit :=
  modify (upd_timer_view (fun v =>
    {| timerStatus := timerStatus v;
       countdownOverlay_active := countdownOverlay_active v;
       countdownNumber := countdownNumber v;
       flashEffect_active := false |})).

Definition capturePhoto : H unit :=
  let* s := get_state in
  if negb (isStreaming s) then hret tt
  else
    _triggerFlash ;;
    (fun p =>
       let frame := video (srcObject (camera_view p)) (now p) in
       (on_ctx (set_width (N2Q (img_width frame))) ;;
        on_ctx (set_height (N2Q (img_height frame)))) p) ;;
    (if String.eqb (facingMode s) "user" then
       (fun p => on_ctx (translate (width (canvas p)) 0) p) ;;
       on_ctx (scale (-1) 1)
     else hret tt) ;;
    (fun p =>
       on_ctx (drawImage5 (video (srcObject (camera_view p)) (now p))
                 {| rx := 0; ry := 0;
                    rw := width (canvas p); rh := height (canvas p) |}) p) ;;
    (fun p =>
       addCapturedImage
         (toDataURL (width (canvas p)) (height (canvas p)) (pixels (canvas p))) p) ;;
    on_ctx (with_state (set_transform identity)).

Definition stopTimer : H unit :=
  modify (upd_state (set_isTimerActive false)) ;;
  modify (upd_timer_view (fun v =>
    {| timerStatus := "";
       countdownOverlay_active := countdownOverlay_active v;
       countdownNumber := countdownNumber v;
       flashEffect_active := flashEffect_active v |})) ;;
  _updateUI.

(** [tick] of [showCountdown], with [count] as it stands at the call. *)
Definition tick (count : Z) (env : Sequence) : H unit :=
  modify (upd_timer_view (fun v =>
    {| timerStatus := timerStatus v;
       countdownOverlay_active := countdownOverlay_active v;
       countdownNumber := if (0 <? count)%Z then Count count else CameraEmoji;
       flashEffect_active := flashEffect_active v |})) ;;
  if (0 <? count)%Z then setTimeout (Tick (count - 1) env) 1000
  else setTimeout (CountdownDone env) 800.

(** [showCountdown(seconds, photoNum, onComplete)]; the only caller passes
    the callback that [countdown_done] runs. *)
Definition showCountdown (seconds photoNum : Z) (env : Sequence) : H unit :=
  modify (upd_timer_view (fun v =>
    {| timerStatus := timerStatus v;
       countdownOverlay_active := true;
       countdownNumber := countdownNumber v;
       flashEffect_active := flashEffect_active v |})) ;;
  tick seconds env.

Definition countdown_done (env : Sequence) : H unit :=
  modify (upd_timer_view (fun v =>
    {| timerStatus := timerStatus v;
       countdownOverlay_active := false;
       countdownNumber := countdownNumber v;
       flashEffect_active := flashEffect_active v |})) ;;
  (* onComplete *)
  capturePhoto ;;
  setTimeout
    (NextPhoto {| photosTaken := photosTaken env + 1;
                  photosToTake := photosToTake env; delay := delay env |})
    1000.

(** [sequence] of [startTimer]. *)
Definition sequence (env : Sequence) : H unit :=
  if (photosToTake env <=? photosTaken env)%Z then stopTimer
  else showCountdown (delay env) (photosTaken env + 1) env.

Definition startTimer : H unit :=
  let* s := get_state in
  if negb (isStreaming s) || isTimerActive s then hret tt
  else
    modify (upd_state (set_isTimerActive true)) ;;
    _updateUI ;;
    modify (upd_state (with_pm (PolaroidMaker.set_capturedImages []))) ;;
    renderPolaroid ;;
    (fun p =>
       let photosToTake := or_default (photoCount (inputs p)) 4 in
       let delay := or_default (timerDelay (inputs p)) 3 in
       (modify (upd_timer_view (fun v =>
          {| timerStatus := "Sequence in progress...";
             countdownOverlay_active := countdownOverlay_active v;
             countdownNumber := countdownNumber v;
             flashEffect_active := flashEffect_active v |})) ;;
        sequence {| photosTaken := 0; photosToTake := photosToTake;
                    delay := delay |}) p).

Definition stop_stream : H unit :=
  modify (fun p =>
    match stream (app_state p) with
    | Some m => set_tracks (stop_tracks m (tracks p)) p
    | None => p
    end).

Definition stopCamera : H unit :=
  stop_stream ;;
  modify (upd_state (set_isStreaming false)) ;;
  modify (upd_state (set_stream None)) ;;
  modify (upd_camera_view (fun v =>
    {| srcObject := None;
       cameraOverlay_hidden := false;
       cameraOverlay_text :=
         "Click " ++ dquote ++ "Start Camera" ++ dquote ++ " to begin";
       startCameraBtn := "Start Camera" |})) ;;
  _updateUI.

(** The [catch] block of [startCamera]. *)
Definition camera_error : H unit :=
  modify (upd_camera_view (fun v =>
    {| srcObject := srcObject v;
       cameraOverlay_hidden := false;
       cameraOverlay_text := "Camera access denied.";
       startCameraBtn := startCameraBtn v |})).

(** [startCamera], run with its two awaits and no other handler in
    between.  [getUserMedia] gives the outcome of the request by the
    facing mode asked for, [enumerateDevices] the kinds of the devices;
    [None] is a rejection. *)
Definition startCamera (getUserMedia : string -> option nat)
    (enumerateDevices : option (list string)) : H unit :=
  let* s := get_state in
  if isStreaming s then stopCamera
  else
    stop_stream ;;
    match getUserMedia (facingMode s) with
    | None => camera_error
    | Some m =>
        modify (fun p => set_tracks (m :: tracks p) p) ;;
        modify (upd_state (set_stream (Some m))) ;;
        modify (upd_state (set_isStreaming true)) ;;
        modify (upd_camera_view (fun v =>
          {| srcObject := Some m;
             cameraOverlay_hidden := true;
             cameraOverlay_text := cameraOverlay_text v;
             startCameraBtn := "Stop Camera" |})) ;;
        match enumerateDevices with
        | None => camera_error
        | Some devices =>
            modify (upd_state (set_videoDeviceCount
              (List.length (filter (fun kind => String.eqb kind "videoinput")
                              devices))))
        end
    end ;;
    _updateUI.

Definition switchCamera (getUserMedia : string -> option nat)
    (enumerateDevices : option (list string)) : H unit :=
  modify (upd_state (fun s =>
    set_facingMode
      (if String.eqb (facingMode s) "user" then "environment" else "user") s)) ;;
  startCamera getUserMedia enumerateDevices.

(** The click handlers of the options, and the [input] handler of the
    caption. *)
Definition selectLayout (l : string) : H unit :=
  modify (upd_state (with_pm (PolaroidMaker.selectLayout l))) ;;
  (fun p =>
     let maxPhotos := PolaroidMaker._getMaxImagesForLayout (pm (app_state p)) in
     modify (set_inputs
       {| photoCount :=
            match photoCount (inputs p) with
            | Some v =>
                if (Z.of_nat maxPhotos <? v)%Z then Some (Z.of_nat maxPhotos)
                else Some v
            | None => None
            end;
          photoCount_max := maxPhotos;
          timerDelay := timerDelay (inputs p) |}) p) ;;
  renderPolaroid.

Definition selectFilter (f : string) : H unit :=
  modify (upd_state (with_pm (set_filter f))) ;;
  renderPolaroid.

Definition selectFont (f : string) : H unit :=
  modify (upd_state (with_pm (set_font f))) ;;
  renderPolaroid.

Definition toggleDecoration (decoId : string) : H unit :=
  modify (upd_state (with_pm (Page.toggleDecoration decoId))) ;;
  renderPolaroid.

Definition typeCaption (t : string) : H unit :=
  modify (upd_state (with_pm (set_polaroidText t))) ;;
  renderPolaroid.

(** [_setDownloadButtonState], as far as the [disabled] attribute goes. *)
Definition _setDownloadButtonState (isLoading : bool) : H unit :=
  modify (fun p =>
    set_controls
      {| captureBtn_disabled := captureBtn_disabled (controls p);
         startTimerBtn_disabled := startTimerBtn_disabled (controls p);
         downloadBtn_disabled := isLoading;
         switchCameraBtn_disabled := switchCameraBtn_disabled (controls p);
         emptyState_hidden := emptyState_hidden (controls p) |} p).

(** [downloadPolaroid], run with its await and no other handler in
    between; the compositor draws on a canvas of its own. *)
Definition downloadPolaroid : H unit :=
  _setDownloadButtonState true ;;
  modify (fun p =>
    set_downloads
      (downloads p
       ++ [fst (Page.downloadPolaroid config world (pm (app_state p)) blank)]) p) ;;
  _setDownloadButtonState false.

(** *** The event loop *)

Definition run_task (t : task) : H unit :=
  match t with
  | Tick count env => tick count env
  | CountdownDone env => countdown_done env
  | NextPhoto env => sequence env
  | FlashOff => flash_off
  end.

(** The callback that is due first runs, at its due time. *)
Definition timer_fires : H unit :=
  fun p =>
    match timers p with
    | [] => (Ok tt, p)
    | (due, t) :: rest =>
        run_task t (set_now (Z.max (now p) due) (set_timers rest p))
    end.

(** Time passes up to [t], with no callback due before. *)
Definition elapse (t : Z) : H unit :=
  modify (fun p =>
    if (now p <=? t)%Z
       && match timers p with
          | [] => true
          | (due, _) :: _ => (t <=? due)%Z
          end
    then set_now t p else p).

Inductive event : Type :=
| ClickStartCamera (getUserMedia : string -> option nat)
    (enumerateDevices : option (list string))
| ClickSwitchCamera (getUserMedia : string -> option nat)
    (enumerateDevices : option (list string))
| ClickCapture
| ClickStartTimer
| ClickDownload
| FileLoaded (imageData : string)     (* reader.onload of handleFileUpload *)
| SelectLayout (l : string)
| SelectFilter (f : string)
| SelectFont (f : string)
| ToggleDecoration (decoId : string)
| TypeCaption (t : string)
| TypePhotoCount (v : option Z)
| TypeTimerDelay (v : option Z)
| Elapse (t : Z)
| TimerFires.

(** A disabled button gets no click. *)
Definition unless (disabled : Controls -> bool) (h : H unit) : H unit :=
  fun p => if disabled (controls p) then (Ok tt, p) else h p.

Definition handler (e : event) : H unit :=
  match e with
  | ClickStartCamera g d => startCamera g d
  | ClickSwitchCamera g d => unless switchCameraBtn_disabled (switchCamera g d)
  | ClickCapture => unless captureBtn_disabled capturePhoto
  | ClickStartTimer => unless startTimerBtn_disabled startTimer
  | ClickDownload => unless downloadBtn_disabled downloadPolaroid
  | FileLoaded imageData => addCapturedImage imageData
  | SelectLayout l => selectLayout l
  | SelectFilter f => selectFilter f
  | SelectFont f => selectFont f
  | ToggleDecoration decoId => toggleDecoration decoId
  | TypeCaption t => typeCaption t
  | TypePhotoCount v =>
      modify (fun p =>
        set_inputs {| photoCount := v;
                      photoCount_max := photoCount_max (inputs p);
                      timerDelay := timerDelay (inputs p) |} p)
  | TypeTimerDelay v =>
      modify (fun p =>
        set_inputs {| photoCount := photoCount (inputs p);
                      photoCount_max := photoCount_max (inputs p);
                      timerDelay := v |} p)
  | Elapse t => elapse t
  | TimerFires => timer_fires
  end.

(** An exception no handler catches ends the handler; the page stays as
    the handler left it. *)
Definition dispatch (p : App) (e : event) : App := snd (handler e p).

Definition run (evs : list event) (p : App) : App := fold_left dispatch evs p.

(** A document that has just been loaded: its elements are as the markup
    has them, the video element has no stream, no track runs, nothing has
    been downloaded and no callback is waiting. *)
Definition loaded (document : App) : App :=
  upd_camera_view (fun v =>
    {| srcObject := None;
       cameraOverlay_hidden := cameraOverlay_hidden v;
       cameraOverlay_text := cameraOverlay_text v;
       startCameraBtn := startCameraBtn v |})
    (set_tracks [] (set_downloads [] (set_timers [] document))).

(** The constructor, as far as the object and these elements go:
    [_initState], then [_updateUI]. *)
Definition constructor (document : App) : App :=
  snd (_updateUI (upd_state (fun _ => _initState) (loaded document))).

(** The callbacks of a timed sequence that are waiting. *)
Definition of_sequence (t : task) : bool :=
  match t with
  | FlashOff => false
  | _ => true
  end.

Definition waiting (p : App) : list task :=
  filter of_sequence (map snd (timers p)).

(** *** One shot *)

(** The transform of a shot from the front camera: [translate(width, 0)],
    then [scale(-1, 1)]. *)
Definition mirror (w : Q) : Transform := scaled (-1) 1 (translated w 0 identity).

(** The canvas after [capturePhoto] has drawn [frame]. *)
Definition shot (facing : string) (frame : Image) : Canvas :=
  {| width := N2Q (img_width frame);
     height := N2Q (img_height frame);
     state := default_state;
     stack := [];
     pixels :=
       [DrawImage5
          (set_transform
             (if String.eqb facing "user" then mirror (N2Q (img_width frame))
              else identity) default_state)
          frame
          {| rx := 0; ry := 0;
             rw := N2Q (img_width frame); rh := N2Q (img_height frame) |}] |}.

Definition snapshot (facing : string) (frame : Image) : string :=
  toDataURL (N2Q (img_width frame)) (N2Q (img_height frame))
    (pixels (shot facing frame)).

(** The page after [capturePhoto] on a streaming camera, with the preview
    that [renderPolaroid] has written. *)
Definition captured (preview : Page.Preview) (p : App) : App :=
  let frame := video (srcObject (camera_view p)) (now p) in
  let facing := facingMode (app_state p) in
  let s :=
    with_pm (PolaroidMaker.addCapturedImage (snapshot facing frame)) (app_state p) in
  {| app_state := s;
     controls := controls_for s;
     polaroidContainer := preview;
     camera_view := camera_view p;
     timer_view :=
       {| timerStatus := timerStatus (timer_view p);
          countdownOverlay_active := countdownOverlay_active (timer_view p);
          countdownNumber := countdownNumber (timer_view p);
          flashEffect_active := true |};
     inputs := inputs p;
     canvas := shot facing frame;
     tracks := tracks p;
     downloads := downloads p;
     now := now p;
     timers := enqueue (now p + 300)%Z FlashOff (timers p) |}.

(** How long one countdown takes, in ms. *)
Definition countdown_ms (delay : Z) : Z := (1000 * Z.max delay 0 + 800)%Z.

(** The callbacks one photo of a sequence takes: the ticks, the end of the
    countdown, the end of the flash and the next call of [sequence]. *)
Definition callbacks_per_photo (delay : Z) : nat := (Z.to_nat delay + 3)%nat.

(** The shots of a sequence of [n] photos started at [t0]. *)
Definition sequence_shots (facing : string) (source : option nat) (t0 delay : Z)
    (n : nat) : list string :=
  map (fun k =>
         snapshot facing
           (video source
              (t0 + Z.of_nat k * (countdown_ms delay + 1000) + countdown_ms delay)%Z))
    (seq 0 n).

End Methods.

(** The selections a page built from the catalog offers. *)
Definition offered (config : Config) (e : event) : Prop :=
  match e with
  | ToggleDecoration decoId => lookup decoId (decorations config) <> None
  | _ => True
  end.

(** What holds of the object and its elements between any two events. *)
Record coherent (config : Config) (p : App) : Prop :=
  { controls_ok : controls p = controls_for (app_state p);
    streaming_ok :
      isStreaming (app_state p)
      = match stream (app_state p) with Some _ => true | None => false end;
    tracks_ok :
      tracks p = match stream (app_state p) with Some m => [m] | None => [] end;
    srcObject_ok : srcObject (camera_view p) = stream (app_state p);
    decorations_distinct :
      NoDup (PolaroidMaker.st_decorations (pm (app_state p)));
    decorations_ok :
      Forall (fun id => lookup id (decorations config) <> None)
        (PolaroidMaker.st_decorations (pm (app_state p))) }.

(** And of the timer queue: a callback of a sequence is waiting exactly
    while the timer is active, and then only one. *)
Definition consistent (config : Config) (p : App) : Prop :=
  coherent config p
  /\ List.length (waiting p)
     = (if isTimerActive (app_state p) then 1 else 0)%nat.

(** A bound on the callbacks that run before the queue is empty, if no
    event comes in between: for each waiting callback, itself and all the
    callbacks it leads to. *)
Definition photos_to_go (env : Sequence) : nat :=
  Z.to_nat (photosToTake env - photosTaken env).

Definition round (env : Sequence) : nat := (Z.to_nat (delay env) + 5)%nat.

Definition effort (t : task) : nat :=
  match t with
  | FlashOff => 1
  | NextPhoto env => 1 + photos_to_go env * round env
  | CountdownDone env => 5 + (photos_to_go env - 1) * round env
  | Tick count env => Z.to_nat count + 6 + (photos_to_go env - 1) * round env
  end.

Definition backlog (p : App) : nat :=
  list_sum (map (fun entry => effort (snd entry)) (timers p)).

(** What a timed sequence leaves alone. *)
Record undisturbed (p p' : App) : Prop :=
  { same_camera_view : camera_view p' = camera_view p;
    same_inputs : inputs p' = inputs p;
    same_tracks : tracks p' = tracks p;
    same_downloads : downloads p' = downloads p;
    same_isStreaming :
      isStreaming (app_state p') = isStreaming (app_state p);
    same_facingMode : facingMode (app_state p') = facingMode (app_state p);
    same_stream : stream (app_state p') = stream (app_state p);
    same_videoDeviceCount :
      videoDeviceCount (app_state p') = videoDeviceCount (app_state p);
    same_layout :
      PolaroidMaker.st_layout (pm (app_state p'))
      = PolaroidMaker.st_layout (pm (app_state p));
    same_filter :
      PolaroidMaker.st_filter (pm (app_state p'))
      = PolaroidMaker.st_filter (pm (app_state p));
    same_font :
      PolaroidMaker.st_font (pm (app_state p'))
      = PolaroidMaker.st_font (pm (app_state p));
    same_decorations :
      PolaroidMaker.st_decorations (pm (app_state p'))
      = PolaroidMaker.st_decorations (pm (app_state p));
    same_polaroidText :
      PolaroidMaker.polaroidText (pm (app_state p'))
      = PolaroidMaker.polaroidText (pm (app_state p)) }.

End Booth.

(** A camera that shows the same full-HD frame at all times, an encoder
    that gives every bitmap the same data URL, and a document. *)
Definition sample_video (source : option nat) (t : Z) : Image :=
  {| src := "frame"; img_width := 1920; img_height := 1080 |}.

Definition sample_toDataURL (w h : Q) (bitmap : list draw_op) : string :=
  "data:image/jpeg;base64,/9j/4AAQ".

Definition sample_document : Booth.App :=
  {| Booth.app_state := Booth._initState;
     Booth.controls :=
       {| Booth.captureBtn_disabled := false;
          Booth.startTimerBtn_disabled := false;
          Booth.downloadBtn_disabled := false;
          Booth.switchCameraBtn_disabled := false;
          Booth.emptyState_hidden := false |};
     Booth.polaroidContainer := Page.Cleared;
     Booth.camera_view :=
       {| Booth.srcObject := None;
          Booth.cameraOverlay_hidden := false;
          Booth.cameraOverlay_text := "";
          Booth.startCameraBtn := "Start Camera" |};
     Booth.timer_view :=
       {| Booth.timerStatus := "";
          Booth.countdownOverlay_active := false;
          Booth.countdownNumber := Booth.Count 3;
          Booth.flashEffect_active := false |};
     Booth.inputs :=
       {| Booth.photoCount := Some 4%Z;
          Booth.photoCount_max := 4;
          Booth.timerDelay := Some 3%Z |};
     Booth.canvas := blank;
     Booth.tracks := [];
     Booth.downloads := [];
     Booth.now := 0%Z;
     Booth.timers := [] |}.

(** The page after the camera has been started on that document. *)
Definition sample_streaming_page : Booth.App :=
  Booth.dispatch PolaroidMaker.config good_world sample_video sample_toDataURL
    (Booth.constructor sample_document)
    (Booth.ClickStartCamera (fun _ => Some 1%nat) (Some ["videoinput"])).

(** A portrait photograph whose cover fit is not exact in doubles. *)
Definition tall_photo : Image :=
  {| src := "tall.jpg"; img_width := 1216; img_height := 2160 |}.

(** ** Keys of object literals, placed images and the primary cell *)

(** The names every object literal inherits from [Object.prototype]:
    [obj[key]] finds a function (or the prototype) under them even when the
    object has no such entry of its own. *)
Definition Object_prototype : list string :=
  ["constructor"; "__defineGetter__"; "__defineSetter__"; "hasOwnProperty";
   "__lookupGetter__"; "__lookupSetter__"; "isPrototypeOf";
   "propertyIsEnumerable"; "toString"; "valueOf"; "__proto__";
   "toLocaleString"].

(** A key under which an object literal holds nothing but its own entries;
    for such a key [lookup] is [obj[key]]. *)
Definition plain_key (key : string) : bool :=
  negb (existsb (String.eqb key) Object_prototype).

(** The images of the cells drawn for a list of load results by a loop
    that skips the entries that are [undefined]. *)
Definition placed (loaded : list (option Image)) : list (option Image) :=
  flat_map (fun v => match v with Some _ => [shown v] | None => [] end) loaded.


(** *** Interpolated values and markup

    [renderPolaroid] builds its markup as a string and assigns it to
    [innerHTML]; the records of [Page.Preview] are the elements that string
    parses to as long as no interpolated value contains a character that
    markup gives a meaning to: a quote, an ampersand or an angle bracket. *)
Definition markup_free (s : string) : bool :=
  forallb (fun c =>
             negb (existsb (Ascii.eqb c)
                     (map Ascii.ascii_of_nat [34; 38; 39; 60; 62]%nat)))
    (list_ascii_of_string s).

(** The values [renderPolaroid] interpolates into its markup. *)
Definition interpolated (config : Config) (st : PolaroidMaker.State) : list string :=
  PolaroidMaker.polaroidText st :: PolaroidMaker.st_font st
  :: PolaroidMaker.st_filter st :: PolaroidMaker.st_layout st
  :: PolaroidMaker.capturedImages st
  ++ flat_map (fun id => match lookup id (decorations config) with
                         | Some d => [url d]
                         | None => []
                         end) (PolaroidMaker.st_decorations st).

(** * Properties *)

(** ** The monad *)

Lemma bind_Ok {A B} (m : M A) (k : A -> M B) cv a cv' :
  m cv = (Ok a, cv') -> bind m k cv = k a cv'.
Proof. intros H. unfold bind. now rewrite H. Qed.

Lemma bind_Throw {A B} (m : M A) (k : A -> M B) cv e cv' :
  m cv = (Throw e, cv') -> bind m k cv = (Throw e, cv').
Proof. intros H. unfold bind. now rewrite H. Qed.

Lemma add_pixels_nil cv : add_pixels [] cv = cv.
Proof. destruct cv. unfold add_pixels. simpl. now rewrite app_nil_r. Qed.

Lemma add_pixels_app ops1 ops2 cv :
  add_pixels ops2 (add_pixels ops1 cv) = add_pixels (ops1 ++ ops2) cv.
Proof. unfold add_pixels. simpl. now rewrite app_assoc. Qed.

(** ** The frame renderer *)

Lemma for_of_decorations config decoMap cv :
  in_catalog config decoMap ->
  for_of decoMap (fun entry =>
    match lookup (fst entry) (decorations config) with
    | None => throw (TypeError "x")
    | Some d =>
        drawImage5 (snd entry)
          {| rx := deco_x d; ry := deco_y d; rw := deco_w d; rh := deco_h d |}
    end) cv
  = (Ok tt, add_pixels
              (flat_map (fun entry =>
                 match lookup (fst entry) (decorations config) with
                 | Some d =>
                     [DrawImage5 (state cv) (snd entry)
                        {| rx := deco_x d; ry := deco_y d;
                           rw := deco_w d; rh := deco_h d |}]
                 | None => []
                 end) decoMap) cv).
Proof.
  intros Hcat. revert cv.
  induction Hcat as [| entry rest Hentry _ IH]; intros cv.
  - simpl. unfold ret. now rewrite add_pixels_nil.
  - simpl for_of. simpl flat_map.
    destruct (lookup (fst entry) (decorations config)) as [d |]; [| congruence].
    erewrite bind_Ok by reflexivity.
    rewrite IH. unfold add_pixels, drawImage5, emit. simpl.
    now rewrite <- app_assoc.
Qed.

(** One statement of a sequence ran without throwing. *)
Ltac run_step :=
  erewrite bind_Ok by reflexivity;
  cbn [width height state stack pixels].

Lemma drawSinglePolaroid_loaded config world img text decoMap filterValue font cv :
  in_catalog config decoMap ->
  CanvasDrawer._drawSinglePolaroid config world (Some img) text decoMap
    filterValue font cv
  = (Ok tt,
     put_state (after_polaroid world (state cv) text font)
       (add_pixels
          (polaroid_ops config world (state cv) img text decoMap filterValue font)
          cv)).
Proof.
  intros Hcat. destruct cv as [cw ch s st px].
  unfold CanvasDrawer._drawSinglePolaroid.
  do 7 run_step.
  unfold polaroid_ops, image_ops, after_polaroid, text_ops, put_state, add_pixels.
  cbn [width height state stack pixels].
  unfold CanvasDrawer._drawImageWithAspectRatio.
  destruct ((img_width img =? 0)%N || (img_height img =? 0)%N).
  - do 3 run_step.
    erewrite bind_Ok by (apply for_of_decorations; exact Hcat).
    unfold add_pixels. cbn [width height state stack pixels].
    destruct (truthy_string text).
    + do 2 run_step. unfold fillText, emit. cbn [width height state stack pixels].
      rewrite <- !app_assoc. reflexivity.
    + unfold ret. rewrite app_nil_r, <- !app_assoc. reflexivity.
  - do 3 run_step.
    erewrite bind_Ok by (apply for_of_decorations; exact Hcat).
    unfold add_pixels. cbn [width height state stack pixels].
    destruct (truthy_string text).
    + do 2 run_step. unfold fillText, emit. cbn [width height state stack pixels].
      rewrite <- !app_assoc. reflexivity.
    + unfold ret. rewrite app_nil_r, <- !app_assoc. reflexivity.
Qed.

(** ** One cell of the composition: save, move, draw, restore *)

Lemma translated_cell config world img text decoMap filterValue font dx dy cv :
  in_catalog config decoMap ->
  (save ;;
   translate dx dy ;;
   CanvasDrawer._drawSinglePolaroid config world (Some img) text decoMap
     filterValue font ;;
   restore) cv
  = (Ok tt,
     add_pixels
       (polaroid_ops config world (moved dx dy (state cv)) img text decoMap
          filterValue font) cv).
Proof.
  intros Hcat. destruct cv as [cw ch s st px].
  do 2 run_step.
  erewrite bind_Ok by (apply drawSinglePolaroid_loaded; exact Hcat).
  reflexivity.
Qed.

Lemma scaled_cell config world img text decoMap filterValue font dx dy a b cv :
  in_catalog config decoMap ->
  (save ;;
   translate dx dy ;;
   scale a b ;;
   CanvasDrawer._drawSinglePolaroid config world (Some img) text decoMap
     filterValue font ;;
   restore) cv
  = (Ok tt,
     add_pixels
       (polaroid_ops config world (shrunk a b (moved dx dy (state cv))) img text
          decoMap filterValue font) cv).
Proof.
  intros Hcat. destruct cv as [cw ch s st px].
  do 3 run_step.
  erewrite bind_Ok by (apply drawSinglePolaroid_loaded; exact Hcat).
  reflexivity.
Qed.

Lemma plain_cell config world img text decoMap filterValue font cv :
  in_catalog config decoMap ->
  (save ;;
   CanvasDrawer._drawSinglePolaroid config world (Some img) text decoMap
     filterValue font ;;
   restore) cv
  = (Ok tt,
     add_pixels
       (polaroid_ops config world (state cv) img text decoMap filterValue font) cv).
Proof.
  intros Hcat. destruct cv as [cw ch s st px].
  run_step.
  erewrite bind_Ok by (apply drawSinglePolaroid_loaded; exact Hcat).
  reflexivity.
Qed.

(** A loop whose every round only adds drawing calls adds their
    concatenation. *)
Lemma for_range_adds (body : nat -> M unit) (ops : DrawState -> nat -> list draw_op)
    count : forall start cv,
  (forall i cv', (start <= i < start + count)%nat ->
     state cv' = state cv ->
     body i cv' = (Ok tt, add_pixels (ops (state cv) i) cv')) ->
  for_range start count body cv
  = (Ok tt, add_pixels (flat_map (ops (state cv)) (seq start count)) cv).
Proof.
  induction count as [| count IH]; intros start cv Hbody.
  - simpl. unfold ret. now rewrite add_pixels_nil.
  - simpl for_range. simpl seq. simpl flat_map.
    erewrite bind_Ok by (apply Hbody; [lia | reflexivity]).
    rewrite IH.
    + simpl state. now rewrite add_pixels_app.
    + intros i cv' Hi Hs. simpl state in *. apply Hbody; [lia | exact Hs].
Qed.

(** ** Loading the assets *)

Lemma Promise_all_caught {A} (ps : list (Promise A)) :
  Promise_all (filter truthy_object (map catch_console_error ps))
  = Ok (map (fun p => match p with Fulfilled v => Some v | Rejected _ => None end) ps).
Proof.
  induction ps as [| p ps IH]; [reflexivity |].
  simpl. destruct p; simpl; now rewrite IH.
Qed.

Lemma loadedImages_spec config world imageSources activeDecorations loaded decoMap :
  CanvasDrawer._loadAssets config world imageSources activeDecorations
  = Ok (loaded, decoMap) ->
  loaded = map (decoded world) imageSources.
Proof.
  unfold CanvasDrawer._loadAssets. intros H.
  destruct (map_throwing _ activeDecorations) as [decoPromises | e]; [| discriminate].
  rewrite <- map_map with (f := decode world) (g := catch_console_error) in H.
  rewrite Promise_all_caught in H.
  destruct (Promise_all _) as [loadedDecos | e]; [| discriminate].
  destruct (map_throwing _ loadedDecos) as [entries | e]; [| discriminate].
  inversion H. rewrite map_map. reflexivity.
Qed.

Lemma Map_set_in_catalog config key (img : Image) m :
  lookup key (decorations config) <> None ->
  in_catalog config m -> in_catalog config (Map_set key img m).
Proof.
  intros Hkey Hm. induction Hm as [| [k v] rest Hk Hrest IH]; simpl.
  - repeat constructor. exact Hkey.
  - destruct (String.eqb key k); constructor; simpl in *; auto.
Qed.

Lemma new_Map_in_catalog config (entries : list (string * Image)) :
  in_catalog config entries -> in_catalog config (new_Map entries).
Proof.
  unfold new_Map. intros H.
  assert (Hacc : in_catalog config []) by constructor.
  revert Hacc. generalize (@nil (string * Image)).
  induction H as [| e rest He _ IH]; intros acc Hacc; simpl.
  - exact Hacc.
  - apply IH. apply Map_set_in_catalog; assumption.
Qed.

Lemma decoMap_in_catalog config world imageSources activeDecorations loaded decoMap :
  CanvasDrawer._loadAssets config world imageSources activeDecorations
  = Ok (loaded, decoMap) ->
  in_catalog config decoMap.
Proof.
  unfold CanvasDrawer._loadAssets. intros H.
  destruct (map_throwing _ activeDecorations) as [decoPromises |] eqn:Hps;
    [| discriminate].
  destruct (Promise_all (filter truthy_object (map _ imageSources)));
    [| discriminate].
  destruct (Promise_all (filter truthy_object decoPromises))
    as [loadedDecos |] eqn:Hall; [| discriminate].
  destruct (map_throwing _ loadedDecos) as [entries |] eqn:Hes; [| discriminate].
  inversion H; subst. apply new_Map_in_catalog.
  clear H. revert decoPromises loadedDecos entries Hps Hall Hes.
  induction activeDecorations as [| id ids IH];
    intros decoPromises loadedDecos entries Hps Hall Hes.
  - simpl in Hps. inversion Hps; subst. simpl in Hall. inversion Hall; subst.
    simpl in Hes. inversion Hes. constructor.
  - simpl in Hps.
    destruct (lookup id (decorations config)) as [d |] eqn:Hd; [| discriminate].
    destruct (map_throwing _ ids) as [ps |] eqn:Hps'; [| discriminate].
    inversion Hps; subst. clear Hps.
    simpl in Hall.
    destruct (decode world (url d)) as [img | e]; simpl in Hall;
      destruct (Promise_all (filter truthy_object ps)) as [lds |] eqn:Hall';
      try discriminate; inversion Hall; subst; clear Hall; simpl in Hes;
      try discriminate.
    destruct (map_throwing _ lds) as [es |] eqn:Hes'; [| discriminate].
    inversion Hes; subst. constructor.
    + simpl. congruence.
    + eapply IH; eauto.
Qed.

Lemma loadAssets_succeeds config world imageSources activeDecorations :
  decorations_load config world activeDecorations = true ->
  exists decoMap,
    CanvasDrawer._loadAssets config world imageSources activeDecorations
    = Ok (map (decoded world) imageSources, decoMap).
Proof.
  intros Hload. unfold CanvasDrawer._loadAssets.
  rewrite <- map_map with (f := decode world) (g := catch_console_error).
  rewrite Promise_all_caught, map_map. fold (decoded world).
  enough (exists ps lds entries,
    map_throwing (fun id =>
      match lookup id (decorations config) with
      | None => Throw (TypeError "url")
      | Some d =>
          Ok (catch_console_error
                (then_ (decode world (url d)) (fun img => (id, img))))
      end) activeDecorations = Ok ps
    /\ Promise_all (filter truthy_object ps) = Ok lds
    /\ map_throwing (fun d : option (string * Image) =>
         match d with
         | None => Throw (TypeError "id")
         | Some d => Ok (fst d, snd d)
         end) lds = Ok entries) as (ps & lds & entries & Hps & Hall & Hes).
  { rewrite Hps, Hall, Hes. eexists. reflexivity. }
  induction activeDecorations as [| id ids IH].
  - exists [], [], []. repeat split.
  - simpl in Hload. apply andb_true_iff in Hload as [Hid Hids].
    destruct (IH Hids) as (ps & lds & entries & Hps & Hall & Hes).
    destruct (lookup id (decorations config)) as [d |] eqn:Hd; [| discriminate].
    unfold decoded in Hid.
    destruct (decode world (url d)) as [img | e] eqn:Hdec; [| discriminate].
    exists (Fulfilled (Some (id, img)) :: ps), (Some (id, img) :: lds),
      ((id, img) :: entries).
    simpl. rewrite Hd, Hps, Hdec. simpl. rewrite Hall. simpl. rewrite Hes.
    repeat split.
Qed.

(** ** The compositor, branch by branch *)

Lemma in_catalog_nil config : in_catalog config [].
Proof. constructor. Qed.

Lemma grid_decos_in_catalog config o decoMap i :
  in_catalog config decoMap -> in_catalog config (grid_decos o decoMap i).
Proof.
  intros H. unfold grid_decos.
  destruct (_ || _); [exact H | apply in_catalog_nil].
Qed.

Lemma collage_loop config world o loaded filterValue cv :
  for_range 1 2 (fun i =>
    match index loaded i with
    | None => ret tt
    | Some img =>
        let x := (inject_Z (Z.of_nat i) - 1) * (CanvasDrawer.w_small + GRID_GAP) in
        let y := CanvasDrawer.h_large + GRID_GAP in
        save ;;
        translate x y ;;
        scale (CanvasDrawer.w_small / POLAROID_WIDTH)
          (CanvasDrawer.h_small / POLAROID_HEIGHT) ;;
        CanvasDrawer._drawSinglePolaroid config world (Some img)
          (if (Z.of_nat i =? Z.of_nat (List.length loaded) - 1)%Z
           then text o else "")
          [] filterValue (opt_font o) ;;
        restore
    end) cv
  = (Ok tt,
     add_pixels
       (flat_map (small_ops config world o loaded filterValue (state cv)) (seq 1 2))
       cv).
Proof.
  apply for_range_adds with
    (ops := small_ops config world o loaded filterValue).
  intros i cv' _ Hs. unfold small_ops.
  destruct (index loaded i) as [img |].
  - cbv zeta. rewrite scaled_cell by apply in_catalog_nil.
    rewrite Hs. reflexivity.
  - unfold ret. now rewrite add_pixels_nil.
Qed.

Lemma grid_loop config world o loaded decoMap filterValue cv :
  in_catalog config decoMap ->
  Forall (fun img => img <> None) loaded ->
  for_range 0 (List.length loaded) (fun i =>
    let isLastImage := (Z.of_nat i =? Z.of_nat (List.length loaded) - 1)%Z in
    let currentText := if isLastImage then text o else "" in
    let currentDecos :=
      if String.eqb (layout o) "single" || (i =? 0)%nat then decoMap else [] in
    let row := (Z.of_nat i / fst (CanvasDrawer.cols_rows (layout o)))%Z in
    let col := (Z.of_nat i mod fst (CanvasDrawer.cols_rows (layout o)))%Z in
    let x := inject_Z col * (POLAROID_WIDTH + GRID_GAP) in
    let y := inject_Z row * (POLAROID_HEIGHT + GRID_GAP) in
    save ;;
    translate x y ;;
    CanvasDrawer._drawSinglePolaroid config world (index loaded i) currentText
      currentDecos filterValue (opt_font o) ;;
    restore) cv
  = (Ok tt,
     add_pixels
       (flat_map (grid_ops config world o loaded decoMap filterValue (state cv))
          (seq 0 (List.length loaded)))
       cv).
Proof.
  intros Hcat Hall.
  apply for_range_adds with
    (ops := grid_ops config world o loaded decoMap filterValue).
  intros i cv' Hi Hs. unfold grid_ops. cbv zeta.
  destruct (index loaded i) as [img |] eqn:Himg.
  - rewrite translated_cell.
    + rewrite Hs. reflexivity.
    + apply grid_decos_in_catalog with (o := o) (i := i) in Hcat. exact Hcat.
  - exfalso. unfold index in Himg.
    destruct (nth_error loaded i) as [v |] eqn:Hnth.
    + subst v. apply nth_error_In in Hnth.
      rewrite Forall_forall in Hall. now apply (Hall None).
    + apply nth_error_None in Hnth. lia.
Qed.

Lemma length_eqb_0 {A} (l : list A) : l <> [] -> (List.length l =? 0)%nat = false.
Proof. destruct l; [congruence | reflexivity]. Qed.

Lemma compose_collage config world o loaded decoMap f cv0 :
  CanvasDrawer._loadAssets config world (images o) (opt_decorations o)
  = Ok (loaded, decoMap) ->
  loaded <> [] ->
  lookup (opt_filter o) (filters config) = Some f ->
  layout o = "collage" ->
  CanvasDrawer.createDownloadableCanvas config world o cv0
  = (Ok (collage_surface config world o loaded decoMap (value f)),
     collage_surface config world o loaded decoMap (value f)).
Proof.
  intros Hload Hne Hf Hl.
  pose proof (decoMap_in_catalog _ _ _ _ _ _ Hload) as Hcat.
  unfold CanvasDrawer.createDownloadableCanvas.
  rewrite Hload, (length_eqb_0 _ Hne), Hf, Hl.
  change (String.eqb "collage" "collage") with true. cbv iota.
  destruct cv0 as [cw ch s st px].
  run_step.
  erewrite bind_Ok; [reflexivity |].
  do 2 run_step.
  unfold collage_surface, large_ops.
  destruct (index loaded 0) as [img0 |].
  - erewrite bind_Ok by (apply plain_cell; exact Hcat).
    rewrite collage_loop. reflexivity.
  - run_step. rewrite collage_loop. reflexivity.
Qed.

Lemma compose_grid config world o loaded decoMap f cv0 :
  CanvasDrawer._loadAssets config world (images o) (opt_decorations o)
  = Ok (loaded, decoMap) ->
  loaded <> [] ->
  Forall (fun img => img <> None) loaded ->
  lookup (opt_filter o) (filters config) = Some f ->
  String.eqb (layout o) "collage" = false ->
  CanvasDrawer.createDownloadableCanvas config world o cv0
  = (Ok (grid_surface config world o loaded decoMap (value f)),
     grid_surface config world o loaded decoMap (value f)).
Proof.
  intros Hload Hne Hall Hf Hl.
  pose proof (decoMap_in_catalog _ _ _ _ _ _ Hload) as Hcat.
  unfold CanvasDrawer.createDownloadableCanvas.
  rewrite Hload, (length_eqb_0 _ Hne), Hf, Hl.
  destruct cv0 as [cw ch s st px].
  run_step.
  erewrite bind_Ok; [reflexivity |].
  do 2 run_step.
  rewrite grid_loop by assumption. reflexivity.
Qed.

(** ** From the display list to the cells *)

Lemma on_last_app {A} (f : A -> A) l c : on_last f (l ++ [c]) = l ++ [f c].
Proof.
  induction l as [| a l IH]; [reflexivity |].
  simpl. rewrite IH. destruct (l ++ [c]) eqn:E; [| reflexivity].
  destruct l; discriminate.
Qed.

Lemma cells_deco_ops config world s decoMap acc c :
  in_catalog config decoMap ->
  fold_left cell_step (deco_ops config world s decoMap) (acc ++ [c])
  = acc ++ [{| cell_at := cell_at c; cell_image := cell_image c;
               cell_decos := cell_decos c ++ map snd decoMap;
               cell_caption := cell_caption c |}].
Proof.
  intros Hcat. revert c.
  induction Hcat as [| entry rest Hentry _ IH]; intros c.
  - simpl. rewrite app_nil_r. now destruct c.
  - unfold deco_ops in *. simpl flat_map.
    destruct (lookup (fst entry) (decorations config)) as [d |]; [| congruence].
    simpl. rewrite on_last_app, IH. simpl. now rewrite <- app_assoc.
Qed.

Lemma truthy_string_false t : truthy_string t = false -> t = "".
Proof.
  unfold truthy_string. intros H. apply negb_false_iff in H.
  now apply String.eqb_eq.
Qed.

Lemma cells_polaroid config world s img text decoMap filterValue font acc :
  in_catalog config decoMap ->
  fold_left cell_step
    (polaroid_ops config world s img text decoMap filterValue font) acc
  = acc ++ [polaroid_cell s img text decoMap].
Proof.
  intros Hcat. unfold polaroid_ops, polaroid_cell, image_ops, text_ops, positive_size.
  simpl fold_left. rewrite !fold_left_app.
  destruct ((img_width img =? 0)%N || (img_height img =? 0)%N); simpl fold_left;
    try rewrite on_last_app;
    rewrite cells_deco_ops by exact Hcat;
    destruct (truthy_string text) eqn:Ht; simpl;
    try rewrite on_last_app; simpl;
    try (apply truthy_string_false in Ht; subst text); reflexivity.
Qed.

Lemma cells_flat_map {A} (g : A -> list draw_op) (v : A -> list Cell) l :
  (forall a acc, fold_left cell_step (g a) acc = acc ++ v a) ->
  forall acc, fold_left cell_step (flat_map g l) acc = acc ++ flat_map v l.
Proof.
  intros Hg. induction l as [| a l IH]; intros acc; simpl.
  - now rewrite app_nil_r.
  - now rewrite fold_left_app, Hg, IH, app_assoc.
Qed.

Lemma cells_grid_surface config world o loaded decoMap filterValue :
  in_catalog config decoMap ->
  cells (pixels (grid_surface config world o loaded decoMap filterValue))
  = flat_map (grid_cells o loaded decoMap) (seq 0 (List.length loaded)).
Proof.
  intros Hcat. unfold cells, grid_surface. cbn [pixels].
  apply cells_flat_map with (acc := @nil Cell). intros i acc.
  unfold grid_ops, grid_cells. destruct (index loaded i).
  - apply cells_polaroid. now apply grid_decos_in_catalog.
  - simpl. now rewrite app_nil_r.
Qed.

Lemma cells_collage_surface config world o loaded decoMap filterValue :
  in_catalog config decoMap ->
  cells (pixels (collage_surface config world o loaded decoMap filterValue))
  = large_cells loaded decoMap ++ flat_map (small_cells o loaded) (seq 1 2).
Proof.
  intros Hcat. unfold cells, collage_surface. cbn [pixels].
  rewrite fold_left_app.
  assert (Hlarge : fold_left cell_step
            (large_ops config world o loaded decoMap filterValue default_state) []
          = large_cells loaded decoMap).
  { unfold large_ops, large_cells. destruct (index loaded 0); [| reflexivity].
    now rewrite cells_polaroid. }
  rewrite Hlarge.
  apply cells_flat_map. intros i acc.
  unfold small_ops, small_cells. destruct (index loaded i).
  - apply cells_polaroid. apply in_catalog_nil.
  - simpl. now rewrite app_nil_r.
Qed.

(** ** Cover fit *)

Lemma N2Q_pos n : (0 < n)%N -> 0 < N2Q n.
Proof.
  intros H. unfold N2Q, Qlt. simpl. lia.
Qed.

Lemma cover_reaches (a b c : Q) : 0 < a -> c <= a * Qmax (c / a) b.
Proof.
  intros Ha.
  assert (Hc : c == a * (c / a)) by (field; lra).
  rewrite Hc at 1.
  apply Qmult_le_l; [exact Ha | apply Q.le_max_l].
Qed.

Lemma cover_reaches_r (a b c : Q) : 0 < a -> c <= a * Qmax b (c / a).
Proof.
  intros Ha. rewrite Q.max_comm. now apply cover_reaches.
Qed.

(** *** Rounding to a double *)

Lemma round_half_even_error (q : Q) :
  q - (1 # 2) <= inject_Z (round_half_even q)
  /\ inject_Z (round_half_even q) <= q + (1 # 2).
Proof.
  unfold round_half_even.
  pose proof (Qfloor_le q) as Hlo. pose proof (Qlt_floor q) as Hhi.
  rewrite inject_Z_plus in Hhi. change (inject_Z 1) with 1 in Hhi.
  destruct (Qcompare_spec (q - inject_Z (Qfloor q)) (1 # 2)) as [E | L | G].
  - destruct (Z.even (Qfloor q)).
    + split; lra.
    + rewrite inject_Z_plus. change (inject_Z 1) with 1. split; lra.
  - split; lra.
  - rewrite inject_Z_plus. change (inject_Z 1) with 1. split; lra.
Qed.

Lemma pow2_pos (k : Z) : 0 < 2 ^ k.
Proof. apply Qpower_0_lt. reflexivity. Qed.

Lemma pow2_frac (a b : Z) :
  (0 <= a)%Z -> (0 <= b)%Z -> 2 ^ (a - b) == (2 ^ a)%Z # Z.to_pos (2 ^ b).
Proof.
  intros Ha Hb.
  rewrite Qpower_minus by discriminate.
  rewrite (Qmake_Qdiv (2 ^ a) (Z.to_pos (2 ^ b))), Z2Pos.id
    by (apply Z.pow_pos_nonneg; lia).
  rewrite !Zpower_Qpower by assumption. reflexivity.
Qed.

(** [ilog2] is the binary exponent: the significand [q / 2 ^ (ilog2 q - 52)]
    that [round53] rounds lies between 2^52 and 2^53. *)
Lemma ilog2_spec (q : Q) : 0 < q -> 2 ^ ilog2 q <= q /\ q < 2 ^ (ilog2 q + 1).
Proof.
  intros Hq. destruct q as [n d]. unfold ilog2. cbn [Qnum Qden].
  assert (Hn : (0 < n)%Z) by (unfold Qlt in Hq; simpl in Hq; lia).
  set (a := Z.log2 n). set (b := Z.log2 (Z.pos d)).
  assert (Ha : (0 <= a)%Z) by apply Z.log2_nonneg.
  assert (Hb : (0 <= b)%Z) by apply Z.log2_nonneg.
  destruct (Z.log2_spec n Hn) as [Hn1 Hn2]. fold a in Hn1, Hn2.
  destruct (Z.log2_spec (Z.pos d) eq_refl) as [Hd1 Hd2]. fold b in Hd1, Hd2.
  assert (Hpa : (0 < 2 ^ a)%Z) by (apply Z.pow_pos_nonneg; lia).
  assert (Hpb : (0 < 2 ^ b)%Z) by (apply Z.pow_pos_nonneg; lia).
  assert (Hlow : 2 ^ (a - b - 1) <= n # d).
  { replace (a - b - 1)%Z with (a - (b + 1))%Z by lia.
    rewrite pow2_frac by lia. unfold Qle. cbn [Qnum Qden].
    rewrite Z2Pos.id by (apply Z.pow_pos_nonneg; lia).
    apply Z.le_trans with (2 ^ a * 2 ^ (b + 1))%Z; [| nia].
    apply Z.mul_le_mono_nonneg_l; lia. }
  assert (Hupp : n # d < 2 ^ (a - b + 1)).
  { replace (a - b + 1)%Z with (a + 1 - b)%Z by lia.
    rewrite pow2_frac by lia. unfold Qlt. cbn [Qnum Qden].
    rewrite Z2Pos.id by assumption.
    apply Z.lt_le_trans with (2 ^ (a + 1) * 2 ^ b)%Z; [nia |].
    apply Z.mul_le_mono_nonneg_l; [apply Z.pow_nonneg |]; lia. }
  destruct (Qle_bool (2 ^ (a - b)) (n # d)) eqn:E.
  - apply Qle_bool_iff in E. now split.
  - split; [exact Hlow |].
    replace (a - b - 1 + 1)%Z with (a - b)%Z by lia.
    apply Qnot_le_lt. intros Hle. apply Qle_bool_iff in Hle. congruence.
Qed.

Lemma round53_error (q : Q) :
  0 < q -> q - q * u53 <= round53 q /\ round53 q <= q + q * u53.
Proof.
  intros Hq. unfold round53.
  destruct (ilog2_spec q Hq) as [Hlo _].
  set (e := (ilog2 q - 52)%Z).
  pose proof (pow2_pos e) as He.
  destruct (round_half_even_error (q / 2 ^ e)) as [H1 H2].
  set (m := inject_Z (round_half_even (q / 2 ^ e))) in *.
  assert (Hk : 2 ^ ilog2 q == 2 ^ e * 4503599627370496).
  { replace (ilog2 q) with (e + 52)%Z by (unfold e; lia).
    rewrite Qpower_plus by discriminate. reflexivity. }
  rewrite Hk in Hlo.
  apply Qmult_le_compat_r with (z := 2 ^ e) in H1; [| lra].
  apply Qmult_le_compat_r with (z := 2 ^ e) in H2; [| lra].
  assert (E1 : (q / 2 ^ e - (1 # 2)) * 2 ^ e == q - 2 ^ e * (1 # 2)) by (field; lra).
  assert (E2 : (q / 2 ^ e + (1 # 2)) * 2 ^ e == q + 2 ^ e * (1 # 2)) by (field; lra).
  rewrite E1 in H1. rewrite E2 in H2.
  revert H1 H2 Hlo He. generalize (m * 2 ^ e) (2 ^ e). intros x p H1 H2 Hlo He.
  unfold u53. change (2 ^ 53)%positive with 9007199254740992%positive.
  split; lra.
Qed.

(** The result of an operation is within [u53] times its magnitude of the
    exact result. *)
Lemma fl_bounds (q B : Q) :
  - B <= q -> q <= B -> q - B * u53 <= fl q /\ fl q <= q + B * u53.
Proof.
  intros Hlo Hhi. unfold fl.
  assert (Hu : 0 < u53) by reflexivity.
  destruct (Qcompare_spec q 0) as [E | L | G].
  - assert (HB : 0 <= B * u53) by (apply Qmult_le_0_compat; lra).
    split; lra.
  - rewrite Qred_correct.
    assert (Hq : 0 < - q) by lra.
    destruct (round53_error (- q) Hq) as [H1 H2].
    assert (HB : (- q) * u53 <= B * u53) by (apply Qmult_le_compat_r; lra).
    revert H1 H2 HB. generalize (round53 (- q)) ((- q) * u53) (B * u53).
    intros x y z H1 H2 HB. split; lra.
  - rewrite Qred_correct.
    destruct (round53_error q G) as [H1 H2].
    assert (HB : q * u53 <= B * u53) by (apply Qmult_le_compat_r; lra).
    revert H1 H2 HB. generalize (round53 q) (q * u53) (B * u53).
    intros x y z H1 H2 HB. split; lra.
Qed.

Lemma fl_error (q : Q) : Qabs (fl q - q) <= Qabs q * u53.
Proof.
  apply Qabs_Qle_condition.
  destruct (fl_bounds q (Qabs q)) as [H1 H2].
  - pose proof (Qle_Qabs (- q)) as H. rewrite Qabs_opp in H. lra.
  - apply Qle_Qabs.
  - revert H1 H2. generalize (Qabs q * u53) (fl q). intros. split; lra.
Qed.

(** The numbers of the examples are doubles as they are, and 1/10 is not. *)
Example fl_examples :
  fl 60 == 60 /\ fl 1000 == 1000 /\ fl (1000 / 8) == 125
  /\ fl (1 # 10) == 3602879701896397 # 36028797018963968.
Proof. repeat split; vm_compute; reflexivity. Qed.

(** *** The ratio and the rectangle, within rounding *)

Lemma ratio_error (a b : Q) :
  0 < a -> 0 < b ->
  Qmax a b - Qmax a b * u53 <= Qmax (fl a) (fl b)
  /\ Qmax (fl a) (fl b) <= Qmax a b + Qmax a b * u53.
Proof.
  intros Ha Hb.
  destruct (fl_bounds a a) as [A1 A2]; [lra | lra |].
  destruct (fl_bounds b b) as [B1 B2]; [lra | lra |].
  pose proof (Q.le_max_l a b) as L1. pose proof (Q.le_max_r a b) as L2.
  pose proof (Q.le_max_l (fl a) (fl b)) as L3.
  pose proof (Q.le_max_r (fl a) (fl b)) as L4.
  assert (Hs : Qmax a b == a \/ Qmax a b == b)
    by (destruct (Q.max_spec a b) as [[_ E] | [_ E]]; auto).
  assert (Hr : Qmax (fl a) (fl b) == fl a \/ Qmax (fl a) (fl b) == fl b)
    by (destruct (Q.max_spec (fl a) (fl b)) as [[_ E] | [_ E]]; auto).
  revert A1 A2 B1 B2 L1 L2 L3 L4 Hs Hr.
  unfold u53. change (2 ^ 53)%positive with 9007199254740992%positive.
  generalize (Qmax (fl a) (fl b)) (Qmax a b) (fl a) (fl b).
  intros r rs fa fb A1 A2 B1 B2 L1 L2 L3 L4 [Hs | Hs] [Hr | Hr]; split; lra.
Qed.

(** One axis of the cover fit: [w] the size of the image, [W] the size of
    the target, [rs] the exact ratio and [r] the ratio in doubles. *)
Lemma cover_axis (w W rs r d : Q) :
  0 < w -> 0 < W -> W <= w * rs ->
  rs - rs * u53 <= r -> r <= rs + rs * u53 ->
  Qabs (fl (w * r) - w * rs) <= (1 # 2 ^ 50) * (w * rs)
  /\ Qabs (fl (d + fl (fl (W - fl (w * r)) / 2)) - (d + (W - w * rs) / 2))
     <= (1 # 2 ^ 50) * (Qabs d + w * rs).
Proof.
  intros Hw HW Hcover Hr1 Hr2.
  assert (Hwr1 : w * rs - w * rs * u53 <= w * r).
  { apply Qmult_le_l with (z := w) in Hr1; [| exact Hw].
    assert (E : w * (rs - rs * u53) == w * rs - w * rs * u53) by ring.
    now rewrite E in Hr1. }
  assert (Hwr2 : w * r <= w * rs + w * rs * u53).
  { apply Qmult_le_l with (z := w) in Hr2; [| exact Hw].
    assert (E : w * (rs + rs * u53) == w * rs + w * rs * u53) by ring.
    now rewrite E in Hr2. }
  revert Hcover Hwr1 Hwr2. generalize (w * rs) (w * r). intros E wr Hcover Hwr1 Hwr2.
  unfold u53 in *. change (2 ^ 53)%positive with 9007199254740992%positive in *.
  change (2 ^ 50)%positive with 1125899906842624%positive.
  destruct (fl_bounds wr (2 * E)) as [N1 N2]; [lra | lra |].
  set (nW := fl wr) in *.
  destruct (fl_bounds (W - nW) (2 * E)) as [D1 D2];
    unfold u53 in *; change (2 ^ 53)%positive with 9007199254740992%positive in *;
    [lra | lra |].
  set (dd := fl (W - nW)) in *.
  assert (Hhalf : dd / 2 == dd * (1 # 2)) by field.
  set (hd := dd / 2) in *.
  destruct (fl_bounds hd (2 * E)) as [C1 C2];
    unfold u53 in *; change (2 ^ 53)%positive with 9007199254740992%positive in *;
    [lra | lra |].
  set (c := fl hd) in *.
  pose proof (Qabs_nonneg d) as HA0.
  pose proof (Qle_Qabs d) as HA1.
  pose proof (Qle_Qabs (- d)) as HA2. rewrite Qabs_opp in HA2.
  set (A := Qabs d) in *.
  destruct (fl_bounds (d + c) (A + 3 * E)) as [X1 X2];
    unfold u53 in *; change (2 ^ 53)%positive with 9007199254740992%positive in *;
    [lra | lra |].
  set (X := fl (d + c)) in *.
  assert (Hhalf' : (W - E) / 2 == (W - E) * (1 # 2)) by field.
  split; apply Qabs_Qle_condition; [| rewrite Hhalf']; split; lra.
Qed.

(** C6 as the specification states it: an image of 1216x2160 fitted into the
    square of a polaroid.  The width the code passes to [drawImage] is
    999.9999999999999 (1000 - 2^-43), not w * r = 1000, and the left edge of
    the destination is at 60.00000000000006 (60 + 2^-44), to the right of
    the left edge of the target: the target is not fully covered. *)
Lemma cover_fit_leaves_a_gap :
  exists dest : Rect,
    CanvasDrawer._drawImageWithAspectRatio (Some tall_photo)
      PADDING PADDING IMG_SIZE IMG_SIZE blank
    = (Ok tt,
       add_pixels
         [DrawImage9 (state blank) tall_photo
            {| rx := 0; ry := 0; rw := N2Q 1216; rh := N2Q 2160 |} dest]
         blank)
    /\ N2Q 1216 * Qmax (IMG_SIZE / N2Q 1216) (IMG_SIZE / N2Q 2160) == 1000
    /\ rw dest == 1000 - (1 # 2 ^ 43)
    /\ rx dest == 60 + (1 # 2 ^ 44)
    /\ ~ rw dest == N2Q 1216 * Qmax (IMG_SIZE / N2Q 1216) (IMG_SIZE / N2Q 2160)
    /\ ~ rx dest <= PADDING
    /\ ~ PADDING + IMG_SIZE <= rx dest + rw dest.
Proof.
  exists (cover_dest tall_photo PADDING PADDING IMG_SIZE IMG_SIZE).
  split; [reflexivity |].
  repeat split; try (vm_compute; reflexivity); vm_compute; intros H; (discriminate H || now apply H).
Qed.

(** C6: for a source image of size (w,h) with w,h > 0 and a target
    rectangle of size (W,H) at (dx,dy), the cover-fit routine issues one
    drawImage of the whole source.  With r = max(W/w, H/h), the destination
    is the rectangle of extent (w*r, h*r) at (dx + (W - w*r)/2,
    dy + (H - h*r)/2) with every operation rounded to a double: its extent
    is within 2^-50 of (w*r, h*r), relatively, and its origin within
    2^-50 * (|dx| + w*r), resp. 2^-50 * (|dy| + h*r), of that point.  The
    exact rectangle contains the target and overflows it by (w*r - W)/2,
    resp. (h*r - H)/2, on both sides of each axis; the destination does so
    up to these roundings. *)
Theorem cover_fit (img : Image) (dx dy dWidth dHeight : Q) (cv : Canvas) :
  (0 < img_width img < 2 ^ 32)%N -> (0 < img_height img < 2 ^ 32)%N ->
  in_double_range dx -> in_double_range dy ->
  in_double_range dWidth -> in_double_range dHeight ->
  0 < dWidth -> 0 < dHeight ->
  let w := N2Q (img_width img) in
  let h := N2Q (img_height img) in
  let r := Qmax (dWidth / w) (dHeight / h) in
  let eps := 1 # 2 ^ 50 in
  exists dest : Rect,
    CanvasDrawer._drawImageWithAspectRatio (Some img) dx dy dWidth dHeight cv
    = (Ok tt,
       add_pixels
         [DrawImage9 (state cv) img {| rx := 0; ry := 0; rw := w; rh := h |} dest]
         cv)
    /\ rw dest = fl (w * Qmax (fl (dWidth / w)) (fl (dHeight / h)))
    /\ rh dest = fl (h * Qmax (fl (dWidth / w)) (fl (dHeight / h)))
    /\ rx dest = fl (dx + fl (fl (dWidth - rw dest) / 2))
    /\ ry dest = fl (dy + fl (fl (dHeight - rh dest) / 2))
    /\ Qabs (rw dest - w * r) <= eps * (w * r)
    /\ Qabs (rh dest - h * r) <= eps * (h * r)
    /\ Qabs (rx dest - (dx + (dWidth - w * r) / 2)) <= eps * (Qabs dx + w * r)
    /\ Qabs (ry dest - (dy + (dHeight - h * r) / 2)) <= eps * (Qabs dy + h * r)
    /\ dWidth <= w * r /\ dHeight <= h * r
    /\ Qabs ((dx - rx dest) - (w * r - dWidth) / 2) <= eps * (Qabs dx + w * r)
    /\ Qabs ((rx dest + rw dest - (dx + dWidth)) - (w * r - dWidth) / 2)
       <= 2 * eps * (Qabs dx + w * r)
    /\ Qabs ((dy - ry dest) - (h * r - dHeight) / 2) <= eps * (Qabs dy + h * r)
    /\ Qabs ((ry dest + rh dest - (dy + dHeight)) - (h * r - dHeight) / 2)
       <= 2 * eps * (Qabs dy + h * r)
    /\ rx dest <= dx + eps * (Qabs dx + w * r)
    /\ dx + dWidth - 2 * eps * (Qabs dx + w * r) <= rx dest + rw dest
    /\ ry dest <= dy + eps * (Qabs dy + h * r)
    /\ dy + dHeight - 2 * eps * (Qabs dy + h * r) <= ry dest + rh dest.
Proof.
  intros [Hw _] [Hh _] _ _ _ _ HW HH w h r eps.
  exists (cover_dest img dx dy dWidth dHeight).
  assert (Hwq : 0 < w) by now apply N2Q_pos.
  assert (Hhq : 0 < h) by now apply N2Q_pos.
  assert (Hcw : dWidth <= w * r) by now apply cover_reaches.
  assert (Hch : dHeight <= h * r) by now apply cover_reaches_r.
  assert (Ha : 0 < dWidth / w) by (apply Qlt_shift_div_l; lra).
  assert (Hb : 0 < dHeight / h) by (apply Qlt_shift_div_l; lra).
  destruct (ratio_error (dWidth / w) (dHeight / h) Ha Hb) as [Hr1 Hr2].
  fold r in Hr1, Hr2.
  destruct (cover_axis w dWidth r _ dx Hwq HW Hcw Hr1 Hr2) as [Ew Ex].
  destruct (cover_axis h dHeight r _ dy Hhq HH Hch Hr1 Hr2) as [Eh Ey].
  split.
  - unfold CanvasDrawer._drawImageWithAspectRatio.
    replace ((img_width img =? 0)%N) with false by (symmetry; apply N.eqb_neq; lia).
    replace ((img_height img =? 0)%N) with false by (symmetry; apply N.eqb_neq; lia).
    reflexivity.
  - unfold cover_dest. cbn [rx ry rw rh]. fold w h.
    set (nW := fl (w * Qmax (fl (dWidth / w)) (fl (dHeight / h)))) in *.
    set (nH := fl (h * Qmax (fl (dWidth / w)) (fl (dHeight / h)))) in *.
    set (X := fl (dx + fl (fl (dWidth - nW) / 2))) in *.
    set (Y := fl (dy + fl (fl (dHeight - nH) / 2))) in *.
    do 4 (split; [reflexivity |]).
    do 4 (split; [assumption |]).
    do 2 (split; [assumption |]).
    apply Qabs_Qle_condition in Ew, Eh, Ex, Ey.
    assert (Hhalf : forall q : Q, q / 2 == q * (1 # 2)) by (intros q; field).
    rewrite Hhalf in Ex, Ey.
    pose proof (Qabs_nonneg dx) as HAx. pose proof (Qabs_nonneg dy) as HAy.
    revert Ew Eh Ex Ey Hcw Hch HAx HAy.
    unfold eps. change (2 ^ 50)%positive with 1125899906842624%positive.
    generalize (w * r) (h * r) (Qabs dx) (Qabs dy) nW nH X Y.
    intros Ew' Eh' Ax Ay nW' nH' X' Y' Ew Eh Ex Ey Hcw Hch HAx HAy.
    repeat match goal with
           | |- _ /\ _ => split
           | |- Qabs _ <= _ => apply Qabs_Qle_condition; rewrite Hhalf
           end; lra.
Qed.

Lemma cover_fit_witness :
  exists dest : Rect,
    CanvasDrawer._drawImageWithAspectRatio (Some (photo "a.jpg"))
      PADDING PADDING IMG_SIZE IMG_SIZE blank
    = (Ok tt,
       add_pixels
         [DrawImage9 (state blank) (photo "a.jpg")
            {| rx := 0; ry := 0; rw := N2Q 1920; rh := N2Q 1080 |} dest]
         blank)
    /\ Qabs (rw dest - N2Q 1920 * Qmax (IMG_SIZE / N2Q 1920) (IMG_SIZE / N2Q 1080))
       <= (1 # 2 ^ 50) * (N2Q 1920 * Qmax (IMG_SIZE / N2Q 1920) (IMG_SIZE / N2Q 1080))
    /\ rx dest
       <= PADDING
          + (1 # 2 ^ 50)
            * (Qabs PADDING
               + N2Q 1920 * Qmax (IMG_SIZE / N2Q 1920) (IMG_SIZE / N2Q 1080)).
Proof.
  assert (Hd : forall q : Q,
             fl q == q -> 1 # 2 ^ 256 <= Qabs q -> Qabs q <= inject_Z (2 ^ 256) ->
             in_double_range q).
  { intros q H1 H2 H3. split; [exact H1 | right; now split]. }
  destruct (cover_fit (photo "a.jpg") PADDING PADDING IMG_SIZE IMG_SIZE blank)
    as (dest & Hrun & _ & _ & _ & _ & Hw & _ & _ & _ & _ & _ & _ & _ & _ & _
        & Hl & _);
    try (apply Hd; vm_compute; (reflexivity || discriminate));
    try (split; reflexivity); try reflexivity.
  exists dest. repeat split; assumption.
Defined.

(** ** The size of the surface *)

Lemma keeps_size_ret {A} (a : A) : keeps_size (ret a).
Proof. intros cv. now split. Qed.

Lemma keeps_size_throw {A} e : keeps_size (@throw A e).
Proof. intros cv. now split. Qed.

Lemma keeps_size_bind {A B} (m : M A) (k : A -> M B) :
  keeps_size m -> (forall a, keeps_size (k a)) -> keeps_size (bind m k).
Proof.
  intros Hm Hk cv. unfold bind. specialize (Hm cv).
  destruct (m cv) as [[a | e] cv1]; simpl in Hm; destruct Hm as [Hw Hh].
  - destruct (Hk a cv1) as [H1 H2]. split; congruence.
  - now split.
Qed.

Lemma keeps_size_with_state f : keeps_size (with_state f).
Proof. intros cv. now split. Qed.

Lemma keeps_size_emit op : keeps_size (emit op).
Proof. intros cv. now split. Qed.

Lemma keeps_size_save : keeps_size save.
Proof. intros cv. now split. Qed.

Lemma keeps_size_restore : keeps_size restore.
Proof. intros cv. unfold restore. destruct (stack cv); now split. Qed.

Lemma keeps_size_for_range body count :
  (forall i, keeps_size (body i)) -> forall start, keeps_size (for_range start count body).
Proof.
  intros Hbody. induction count as [| count IH]; intros start; simpl.
  - apply keeps_size_ret.
  - apply keeps_size_bind; [apply Hbody | intros _; apply IH].
Qed.

Lemma keeps_size_for_of {A} (entries : list A) body :
  (forall e, keeps_size (body e)) -> keeps_size (for_of entries body).
Proof.
  intros Hbody. induction entries as [| e rest IH]; simpl.
  - apply keeps_size_ret.
  - apply keeps_size_bind; [apply Hbody | intros _; exact IH].
Qed.

Create HintDb keeps.
#[local] Hint Resolve keeps_size_ret keeps_size_throw keeps_size_with_state
  keeps_size_emit keeps_size_save keeps_size_restore : keeps.

Ltac keeps_size_tac :=
  repeat first
    [ solve [ auto with keeps ]
    | apply keeps_size_bind; [| intros ? ]
    | apply keeps_size_for_of; intros ?
    | apply keeps_size_for_range; intros ?
    | solve [ unfold translate, scale, set_shadowColor, set_fillStyle, set_filter,
                set_font, clip_rect, clearRect, fillRect, fillText, drawImage5,
                drawImage9; auto with keeps ]
    | match goal with
      | |- keeps_size (match ?x with _ => _ end) => destruct x
      | |- keeps_size (if ?b then _ else _) => destruct b
      end ].

Lemma keeps_size_drawImageWithAspectRatio img dx dy dWidth dHeight :
  keeps_size (CanvasDrawer._drawImageWithAspectRatio img dx dy dWidth dHeight).
Proof. unfold CanvasDrawer._drawImageWithAspectRatio. keeps_size_tac. Qed.

#[local] Hint Resolve keeps_size_drawImageWithAspectRatio : keeps.

Lemma keeps_size_drawSinglePolaroid config world img text decoMap filterValue font :
  keeps_size
    (CanvasDrawer._drawSinglePolaroid config world img text decoMap filterValue font).
Proof.
  unfold CanvasDrawer._drawSinglePolaroid. keeps_size_tac.
Qed.

#[local] Hint Resolve keeps_size_drawSinglePolaroid : keeps.

Lemma resized {A} (rest : M A) (W H : Q) cv :
  keeps_size rest ->
  width (snd ((set_width W ;; set_height H ;; rest) cv)) = W
  /\ height (snd ((set_width W ;; set_height H ;; rest) cv)) = H.
Proof.
  intros Hrest. unfold bind, set_width, set_height.
  exact (Hrest _).
Qed.

Lemma compose_size config world o cv0 cv cv' :
  CanvasDrawer.createDownloadableCanvas config world o cv0 = (Ok cv, cv') ->
  cv' = cv
  /\ (if String.eqb (layout o) "collage"
      then width cv = CanvasDrawer.w_large
           /\ height cv = CanvasDrawer.h_large + CanvasDrawer.h_small + GRID_GAP
      else width cv = inject_Z (cols o) * POLAROID_WIDTH
                      + (inject_Z (cols o) - 1) * GRID_GAP
           /\ height cv = inject_Z (rows o) * POLAROID_HEIGHT
                          + (inject_Z (rows o) - 1) * GRID_GAP).
Proof.
  unfold CanvasDrawer.createDownloadableCanvas.
  destruct (CanvasDrawer._loadAssets _ _ _ _) as [[loaded decoMap] | e];
    [| discriminate].
  destruct (List.length loaded =? 0)%nat; [discriminate |].
  destruct (lookup (opt_filter o) (filters config)) as [f |]; [| discriminate].
  destruct cv0 as [cw ch s st px]. run_step.
  unfold bind at 1.
  match goal with
  | |- context [match ?branch ?c with _ => _ end] =>
      destruct (branch c) as [[[] | e] cv2] eqn:Hbranch
  end; [| discriminate].
  intros H. injection H as H1 H2. subst cv cv'. split; [reflexivity |].
  replace cv2 with (snd (@Ok unit tt, cv2)) by reflexivity. rewrite <- Hbranch.
  destruct (String.eqb (layout o) "collage"); apply resized; keeps_size_tac.
Qed.

(** ** Requests that can be served *)

Lemma images_load_all_shown world imageSources :
  images_load world imageSources = true ->
  all_shown (map (decoded world) imageSources).
Proof.
  unfold images_load, all_shown. intros H.
  induction imageSources as [| s rest IH]; simpl in *; constructor.
  - apply andb_true_iff in H as [H _].
    destruct (decoded world s) as [img |]; [| discriminate]. now exists img.
  - apply IH. now apply andb_true_iff in H as [_ H].
Qed.

Lemma all_shown_loaded loaded :
  all_shown loaded -> Forall (fun img => img <> None) loaded.
Proof.
  apply Forall_impl. intros img (i & -> & _). discriminate.
Qed.

Lemma all_shown_index loaded i :
  all_shown loaded -> (i < List.length loaded)%nat ->
  exists img, index loaded i = Some img /\ positive_size img = true.
Proof.
  intros Hall Hi. unfold index.
  destruct (nth_error loaded i) as [v |] eqn:Hnth.
  - unfold all_shown in Hall. rewrite Forall_forall in Hall.
    destruct (Hall v (nth_error_In _ _ Hnth)) as (img & -> & Hpos). now exists img.
  - apply nth_error_None in Hnth. lia.
Qed.

Lemma all_shown_map_shown loaded : all_shown loaded -> map shown loaded = loaded.
Proof.
  induction 1 as [| img rest (i & -> & Hpos) _ IH]; simpl; [reflexivity |].
  now rewrite Hpos, IH.
Qed.

Lemma servable_loads config world o :
  servable config world o = true ->
  exists decoMap f,
    CanvasDrawer._loadAssets config world (images o) (opt_decorations o)
    = Ok (map (decoded world) (images o), decoMap)
    /\ in_catalog config decoMap
    /\ map (decoded world) (images o) <> []
    /\ all_shown (map (decoded world) (images o))
    /\ lookup (opt_filter o) (filters config) = Some f.
Proof.
  unfold servable. intros H.
  apply andb_true_iff in H as [H Hfilter].
  apply andb_true_iff in H as [H Hdecos].
  apply andb_true_iff in H as [Hne Himgs].
  destruct (loadAssets_succeeds config world (images o) _ Hdecos) as [decoMap Hload].
  unfold filter_known in Hfilter.
  destruct (lookup (opt_filter o) (filters config)) as [f |] eqn:Hf; [| discriminate].
  exists decoMap, f. repeat split.
  - exact Hload.
  - eapply decoMap_in_catalog; exact Hload.
  - destruct (images o); [discriminate | discriminate].
  - now apply images_load_all_shown.
Qed.

Lemma flat_map_singletons {A B} (g : A -> list B) (h : A -> B) l :
  (forall a, In a l -> g a = [h a]) -> flat_map g l = map h l.
Proof.
  induction l as [| a l IH]; intros H; simpl; [reflexivity |].
  rewrite H by now left. simpl. f_equal. apply IH. intros b Hb. apply H. now right.
Qed.

Lemma grid_cells_of_loaded o loaded decoMap :
  all_shown loaded ->
  flat_map (grid_cells o loaded decoMap) (seq 0 (List.length loaded))
  = map (grid_cell o loaded decoMap) (seq 0 (List.length loaded)).
Proof.
  intros Hall. apply flat_map_singletons. intros i Hi.
  apply in_seq in Hi.
  destruct (all_shown_index loaded i Hall) as (img & Himg & Hpos); [lia |].
  unfold grid_cells, grid_cell, polaroid_cell, shown. now rewrite Himg, Hpos.
Qed.

(** A servable request in the single or a grid layout: compose returns, and
    the surface shows one cell per loaded image, in order. *)
Lemma compose_grid_cells config world o cv0 :
  servable config world o = true ->
  String.eqb (layout o) "collage" = false ->
  exists cv decoMap,
    CanvasDrawer._loadAssets config world (images o) (opt_decorations o)
    = Ok (map (decoded world) (images o), decoMap)
    /\ CanvasDrawer.createDownloadableCanvas config world o cv0 = (Ok cv, cv)
    /\ width cv = inject_Z (cols o) * POLAROID_WIDTH + (inject_Z (cols o) - 1) * GRID_GAP
    /\ height cv = inject_Z (rows o) * POLAROID_HEIGHT + (inject_Z (rows o) - 1) * GRID_GAP
    /\ cells (pixels cv)
       = map (grid_cell o (map (decoded world) (images o)) decoMap)
           (seq 0 (List.length (images o))).
Proof.
  intros Hs Hl.
  destruct (servable_loads _ _ _ Hs) as (decoMap & f & Hload & Hcat & Hne & Hall & Hf).
  eexists. exists decoMap. split; [exact Hload |]. split.
  - apply compose_grid; try eassumption. now apply all_shown_loaded.
  - split; [reflexivity |]. split; [reflexivity |].
    rewrite cells_grid_surface by exact Hcat.
    rewrite grid_cells_of_loaded by exact Hall.
    now rewrite length_map.
Qed.

Lemma nth_error_grid_cell o loaded decoMap n i c :
  nth_error (map (grid_cell o loaded decoMap) (seq 0 n)) i = Some c ->
  (i < n)%nat /\ c = grid_cell o loaded decoMap i.
Proof.
  rewrite nth_error_map, nth_error_seq.
  destruct (i <? n)%nat eqn:Hi; simpl; [| discriminate].
  intros H. inversion H. split; [now apply Nat.ltb_lt | reflexivity].
Qed.

(** ** Where the cells of the single and grid layouts lie *)

Lemma recognized_cases l :
  recognized l = true ->
  l = "single" \/ l = "grid-2x2" \/ l = "grid-strip" \/ l = "collage".
Proof.
  unfold recognized. rewrite !orb_true_iff, !String.eqb_eq. tauto.
Qed.

Lemma grid_cell_origin o loaded decoMap i :
  tx (cell_at (grid_cell o loaded decoMap i)) == grid_x o i
  /\ ty (cell_at (grid_cell o loaded decoMap i)) == grid_y o i
  /\ sx (cell_at (grid_cell o loaded decoMap i)) == 1
  /\ sy (cell_at (grid_cell o loaded decoMap i)) == 1.
Proof.
  unfold grid_cell, moved, translated. cbn [cell_at transform set_transform
    default_state identity tx ty sx sy].
  repeat split; try reflexivity; ring.
Qed.

Lemma grid_geometry o :
  layout o = "single" \/ layout o = "grid-2x2" \/ layout o = "grid-strip" ->
  (0 < cols o)%Z /\ (0 < rows o)%Z
  /\ Z.of_nat (capacity (layout o)) = (cols o * rows o)%Z.
Proof.
  unfold cols, rows, capacity.
  intros [H | [H | H]]; rewrite H; cbn; repeat split; reflexivity.
Qed.

Lemma inject_Z_le a b : (a <= b)%Z -> inject_Z a <= inject_Z b.
Proof. intros H. now rewrite <- Zle_Qle. Qed.

(** A cell of index below the capacity lies within the surface. *)
Lemma grid_cell_inside o i :
  layout o = "single" \/ layout o = "grid-2x2" \/ layout o = "grid-strip" ->
  (i < capacity (layout o))%nat ->
  0 <= grid_x o i
  /\ grid_x o i + POLAROID_WIDTH
     <= inject_Z (cols o) * POLAROID_WIDTH + (inject_Z (cols o) - 1) * GRID_GAP
  /\ 0 <= grid_y o i
  /\ grid_y o i + POLAROID_HEIGHT
     <= inject_Z (rows o) * POLAROID_HEIGHT + (inject_Z (rows o) - 1) * GRID_GAP.
Proof.
  intros Hl Hi. destruct (grid_geometry o Hl) as (Hc & Hr & Hcap).
  assert (Hi' : (Z.of_nat i < cols o * rows o)%Z) by lia.
  pose proof (Z.mod_pos_bound (Z.of_nat i) (cols o) Hc) as Hmod.
  assert (Hdiv0 : (0 <= Z.of_nat i / cols o)%Z) by (apply Z.div_pos; lia).
  assert (Hdiv : (Z.of_nat i / cols o < rows o)%Z)
    by (apply Z.div_lt_upper_bound; lia).
  unfold grid_x, grid_y.
  assert (H1 : inject_Z 0 <= inject_Z (Z.of_nat i mod cols o))
    by (apply inject_Z_le; lia).
  assert (H2 : inject_Z (Z.of_nat i mod cols o) <= inject_Z (cols o - 1))
    by (apply inject_Z_le; lia).
  assert (H3 : inject_Z 0 <= inject_Z (Z.of_nat i / cols o))
    by (apply inject_Z_le; lia).
  assert (H4 : inject_Z (Z.of_nat i / cols o) <= inject_Z (rows o - 1))
    by (apply inject_Z_le; lia).
  unfold Z.sub in H2, H4. rewrite inject_Z_plus in H2, H4.
  change (inject_Z (- (1))) with (- (1)) in H2, H4.
  change (inject_Z 0) with 0 in H1, H3.
  revert H1 H2 H3 H4.
  generalize (inject_Z (Z.of_nat i mod cols o)) (inject_Z (Z.of_nat i / cols o))
    (inject_Z (cols o)) (inject_Z (rows o)).
  intros c r C R H1 H2 H3 H4.
  unfold POLAROID_WIDTH, POLAROID_HEIGHT, IMG_SIZE, PADDING, TEXT_AREA_HEIGHT, GRID_GAP.
  repeat split; lra.
Qed.

(** A cell of index at or beyond the capacity lies below the surface. *)
Lemma grid_cell_below o i :
  layout o = "single" \/ layout o = "grid-2x2" \/ layout o = "grid-strip" ->
  (capacity (layout o) <= i)%nat ->
  inject_Z (rows o) * POLAROID_HEIGHT + (inject_Z (rows o) - 1) * GRID_GAP
  <= grid_y o i.
Proof.
  intros Hl Hi. destruct (grid_geometry o Hl) as (Hc & Hr & Hcap).
  assert (Hi' : (cols o * rows o <= Z.of_nat i)%Z) by lia.
  assert (Hdiv : (rows o <= Z.of_nat i / cols o)%Z)
    by (apply Z.div_le_lower_bound; lia).
  apply inject_Z_le in Hdiv. unfold grid_y.
  revert Hdiv. generalize (inject_Z (Z.of_nat i / cols o)) (inject_Z (rows o)).
  intros r R Hdiv.
  unfold POLAROID_HEIGHT, IMG_SIZE, PADDING, TEXT_AREA_HEIGHT, GRID_GAP.
  lra.
Qed.

Lemma map_index_seq {A B} (f : option A -> B) (l : list (option A)) :
  map (fun i => f (index l i)) (seq 0 (List.length l)) = map f l.
Proof.
  induction l as [| a l IH]; [reflexivity |].
  simpl List.length. simpl seq. simpl map. f_equal.
  rewrite <- seq_shift, map_map. exact IH.
Qed.

Lemma grid_cell_images o loaded decoMap :
  all_shown loaded ->
  map cell_image (map (grid_cell o loaded decoMap) (seq 0 (List.length loaded)))
  = loaded.
Proof.
  intros Hall. rewrite map_map. unfold grid_cell. cbn [cell_image].
  rewrite (map_index_seq shown). now apply all_shown_map_shown.
Qed.

(** A servable collage request: compose returns, and the surface shows the
    large cell and then the small cells that have an image. *)
Lemma compose_collage_cells config world o cv0 :
  servable config world o = true ->
  layout o = "collage" ->
  exists cv decoMap,
    CanvasDrawer._loadAssets config world (images o) (opt_decorations o)
    = Ok (map (decoded world) (images o), decoMap)
    /\ CanvasDrawer.createDownloadableCanvas config world o cv0 = (Ok cv, cv)
    /\ cells (pixels cv)
       = large_cells (map (decoded world) (images o)) decoMap
         ++ flat_map (small_cells o (map (decoded world) (images o))) (seq 1 2).
Proof.
  intros Hs Hl.
  destruct (servable_loads _ _ _ Hs) as (decoMap & f & Hload & Hcat & Hne & Hall & Hf).
  eexists. exists decoMap. split; [exact Hload |]. split.
  - apply compose_collage; eassumption.
  - now apply cells_collage_surface.
Qed.

Lemma collage_cell_images o loaded decoMap :
  all_shown loaded ->
  map cell_image
    (large_cells loaded decoMap ++ flat_map (small_cells o loaded) (seq 1 2))
  = firstn 3 loaded.
Proof.
  intros Hall. unfold large_cells, small_cells, index, polaroid_cell.
  destruct Hall as [| a l1 (ia & -> & Ha) Hall]; [reflexivity |].
  destruct Hall as [| b l2 (ib & -> & Hb) Hall]; simpl; rewrite ?Ha; [reflexivity |].
  destruct Hall as [| c l3 (ic & -> & Hc) Hall]; simpl; rewrite ?Hb; [reflexivity |].
  now rewrite Hc.
Qed.

(** C4 does not hold as stated: with layout single and three images all
    three are drawn, not only images[0]. *)
Lemma extra_images_are_drawn :
  (capacity "single" < 3)%nat
  /\ exists cv,
       compose good_world (opts "single" ["a.jpg"; "b.jpg"; "c.jpg"] "hi" []) blank
       = (Ok cv, cv)
       /\ map cell_image (cells (pixels cv))
          = [Some (photo "a.jpg"); Some (photo "b.jpg"); Some (photo "c.jpg")].
Proof.
  split; [apply Nat.ltb_lt; reflexivity |].
  eexists. split; vm_compute; reflexivity.
Qed.

(** ** Which cells carry the decorations *)

Lemma grid_cell_decos o loaded decoMap i :
  cell_decos (grid_cell o loaded decoMap i)
  = if (i =? 0)%nat || String.eqb (layout o) "single" then map snd decoMap else [].
Proof.
  unfold grid_cell, grid_decos. cbn [cell_decos]. rewrite orb_comm.
  now destruct (_ || _).
Qed.


Lemma collage_cell_decos o loaded decoMap i c :
  all_shown loaded ->
  nth_error
    (large_cells loaded decoMap ++ flat_map (small_cells o loaded) (seq 1 2)) i
  = Some c ->
  cell_decos c = (if (i =? 0)%nat then map snd decoMap else [])
  /\ (i = 0%nat -> cell_at c = identity).
Proof.
  intros Hall. unfold large_cells, small_cells, index, polaroid_cell.
  destruct Hall as [| a l1 (ia & -> & Ha) Hall]; simpl.
  { destruct i; discriminate. }
  destruct Hall as [| b l2 (ib & -> & Hb) Hall]; simpl.
  { destruct i as [| [| i]]; simpl; try discriminate.
    intros H; inversion H; subst. split; reflexivity. }
  destruct Hall as [| d l3 (ic & -> & Hc) Hall]; simpl.
  - destruct i as [| [| [| i]]]; simpl; try discriminate;
      intros H; inversion H; subst; split; try reflexivity; discriminate.
  - destruct i as [| [| [| [| i]]]]; simpl; try discriminate;
      intros H; inversion H; subst; split; try reflexivity; discriminate.
Qed.


(** ** Layout ids the page does not offer *)

Lemma unrecognized_geometry l :
  recognized l = false ->
  String.eqb l "collage" = false
  /\ CanvasDrawer.cols_rows l
     = (1%Z, if String.eqb l "grid-4x1" then 4%Z else 1%Z).
Proof.
  unfold recognized, CanvasDrawer.cols_rows. intros H.
  apply orb_false_iff in H as [H Hcollage].
  apply orb_false_iff in H as [H Hstrip].
  apply orb_false_iff in H as [Hsingle H22].
  rewrite H22, Hstrip. split; [exact Hcollage |].
  now destruct (String.eqb l "grid-4x1").
Qed.

(** C8, as the code has it: a layout id that is not one of the recognized
    layouts raises no error of its own.  It is laid out as one column of
    standard cells (four rows for the alias grid-4x1, one row, the size of
    single, for any other id), and every servable request returns that
    surface with a cell drawn for each of its images. *)
Theorem unrecognized_layout_is_drawn config world o cv0 :
  recognized (layout o) = false ->
  servable config world o = true ->
  exists cv,
    CanvasDrawer.createDownloadableCanvas config world o cv0 = (Ok cv, cv)
    /\ width cv == POLAROID_WIDTH
    /\ height cv == (if String.eqb (layout o) "grid-4x1"
                     then 4 * POLAROID_HEIGHT + 3 * GRID_GAP
                     else POLAROID_HEIGHT)
    /\ map cell_image (cells (pixels cv)) = map (decoded world) (images o).
Proof.
  intros Hrec Hs.
  destruct (unrecognized_geometry _ Hrec) as [Hl Hgeo].
  pose proof (servable_loads _ _ _ Hs) as (_ & _ & _ & _ & _ & Hall & _).
  destruct (compose_grid_cells config world o cv0 Hs Hl)
    as (cv & decoMap & _ & Hrun & Hw & Hh & Hcells).
  exists cv. split; [exact Hrun |].
  unfold cols, rows in Hw, Hh. rewrite Hgeo in Hw, Hh. cbn [fst snd] in Hw, Hh.
  rewrite Hw, Hh, Hcells. split; [| split].
  - reflexivity.
  - destruct (String.eqb (layout o) "grid-4x1"); reflexivity.
  - rewrite <- (length_map (decoded world)). now apply grid_cell_images.
Qed.

Lemma unrecognized_layout_is_drawn_witness :
  exists cv,
    compose good_world (opts "grid-4x1" ["a.jpg"; "b.jpg"] "hi" []) blank = (Ok cv, cv)
    /\ width cv == POLAROID_WIDTH
    /\ height cv == 4 * POLAROID_HEIGHT + 3 * GRID_GAP.
Proof.
  destruct (unrecognized_layout_is_drawn PolaroidMaker.config good_world
              (opts "grid-4x1" ["a.jpg"; "b.jpg"] "hi" []) blank)
    as (cv & Hrun & Hw & Hh & _); [reflexivity | reflexivity |].
  exists cv. repeat split; assumption.
Defined.

(** C8 does not hold as stated: the layout id "hexagon" is not recognized,
    and compose returns a surface, 1120 by 1280, with the image drawn. *)
Lemma unknown_layout_returns_a_surface :
  recognized "hexagon" = false
  /\ exists cv,
       compose good_world (opts "hexagon" ["a.jpg"] "hi" []) blank = (Ok cv, cv)
       /\ width cv == 1120 /\ height cv == 1280
       /\ map cell_image (cells (pixels cv)) = [Some (photo "a.jpg")].
Proof.
  split; [reflexivity |].
  eexists. split; [vm_compute; reflexivity |].
  repeat split; reflexivity.
Qed.

(** ** The collage *)




(** ** Assets that fail to load *)

Lemma decoration_promises_settle config world activeDecorations :
  Forall (fun id => lookup id (decorations config) <> None) activeDecorations ->
  exists ps,
    map_throwing (fun id =>
      match lookup id (decorations config) with
      | None => Throw (TypeError "url")
      | Some d =>
          Ok (catch_console_error
                (then_ (decode world (url d)) (fun img => (id, img))))
      end) activeDecorations = Ok ps
    /\ Promise_all (filter truthy_object ps)
       = Ok (map (settled config world) activeDecorations).
Proof.
  induction 1 as [| id ids Hid _ (ps & Hps & Hall)].
  - exists []. now split.
  - simpl. unfold settled at 1.
    destruct (lookup id (decorations config)) as [d |] eqn:Hd; [| congruence].
    rewrite Hps. eexists. split; [reflexivity |].
    simpl. destruct (decode world (url d)); simpl; now rewrite Hall.
Qed.

(** Any active decoration whose asset is rejected makes [_loadAssets]
    throw: its promise settles to [undefined], the filter keeps it, and
    reading [d.id] fails. *)
Lemma rejected_decoration_throws config world imageSources activeDecorations :
  Forall (fun id => lookup id (decorations config) <> None) activeDecorations ->
  Exists (fun id => exists d e, lookup id (decorations config) = Some d
                                /\ decode world (url d) = Rejected e)
    activeDecorations ->
  CanvasDrawer._loadAssets config world imageSources activeDecorations
  = Throw (TypeError "id").
Proof.
  intros Hcat Hrej. unfold CanvasDrawer._loadAssets.
  rewrite <- map_map with (f := decode world) (g := catch_console_error).
  rewrite Promise_all_caught.
  destruct (decoration_promises_settle config world _ Hcat) as (ps & Hps & Hall).
  rewrite Hps, Hall. clear ps Hps Hall Hcat.
  induction Hrej as [id ids (d & e & Hd & He) | id ids _ IH]; simpl.
  - unfold settled. now rewrite Hd, He.
  - destruct (settled config world id); [| reflexivity].
    destruct (map_throwing _ (map (settled config world) ids)); [discriminate |].
    inversion IH. reflexivity.
Qed.

(** C1 at its failing input: the ribbon's asset decodes, the heart's does
    not; [_loadAssets] throws a TypeError in both revisions, and compose
    passes it to the caller without having touched the surface. *)
Theorem failed_decoration_aborts_composition :
  decode sample_world "assets/ribbon.png" = Fulfilled (photo "assets/ribbon.png")
  /\ decode sample_world "assets/heart.png" = Rejected EncodingError
  /\ CanvasDrawer._loadAssets PolaroidMaker.config sample_world ["a.jpg"]
       ["ribbon-decoration"; "heart-decoration"]
     = Throw (TypeError "id")
  /\ AppJs._loadAssets AppJs.config sample_world ["a.jpg"]
       ["ribbon-decoration"; "heart-decoration"]
     = Throw (TypeError "id")
  /\ compose sample_world
       (opts "single" ["a.jpg"] "hi" ["ribbon-decoration"; "heart-decoration"]) blank
     = (Throw (TypeError "id"), blank).
Proof. repeat split; vm_compute; reflexivity. Qed.

(** With no image at all compose throws the no-images error before it
    draws or resizes anything. *)
Lemma no_images_no_drawing config world o cv0 :
  images o = [] ->
  decorations_load config world (opt_decorations o) = true ->
  CanvasDrawer.createDownloadableCanvas config world o cv0
  = (Throw NoImagesToDraw, cv0).
Proof.
  intros Himgs Hdecos.
  destruct (loadAssets_succeeds config world (images o) _ Hdecos) as [decoMap Hload].
  unfold CanvasDrawer.createDownloadableCanvas. rewrite Hload, Himgs. reflexivity.
Qed.

Lemma drawSinglePolaroid_undefined config world text decoMap filterValue font cv :
  CanvasDrawer._drawSinglePolaroid config world None text decoMap filterValue font cv
  = (Throw (TypeError "width"),
     {| width := width cv;
        height := height cv;
        state :=
          with_filter filterValue
            (with_clip {| rx := PADDING; ry := PADDING; rw := IMG_SIZE; rh := IMG_SIZE |}
               (body_state world (state cv)));
        stack := body_state world (state cv) :: stack cv;
        pixels :=
          pixels cv
          ++ [FillRect (bg_state world (state cv))
                {| rx := 0; ry := 0; rw := POLAROID_WIDTH; rh := POLAROID_HEIGHT |}] |}).
Proof.
  destruct cv as [cw ch s st px].
  unfold CanvasDrawer._drawSinglePolaroid.
  do 7 run_step. reflexivity.
Qed.

(** When the first main image fails to load, the single and grid layouts
    fill the background of the first cell and then throw a TypeError. *)
Lemma failed_first_image_throws_after_drawing config world o cv0 s rest :
  images o = s :: rest ->
  decoded world s = None ->
  decorations_load config world (opt_decorations o) = true ->
  filter_known config (opt_filter o) = true ->
  String.eqb (layout o) "collage" = false ->
  exists cv op,
    CanvasDrawer.createDownloadableCanvas config world o cv0
    = (Throw (TypeError "width"), cv)
    /\ pixels cv
       = [FillRect op
            {| rx := 0; ry := 0; rw := POLAROID_WIDTH; rh := POLAROID_HEIGHT |}].
Proof.
  intros Himgs Hs Hdecos Hfilter Hl.
  destruct (loadAssets_succeeds config world (images o) _ Hdecos) as [decoMap Hload].
  unfold filter_known in Hfilter.
  destruct (lookup (opt_filter o) (filters config)) as [f |] eqn:Hf; [| discriminate].
  assert (Hloaded : map (decoded world) (images o)
                    = None :: map (decoded world) rest).
  { rewrite Himgs. cbn [map]. now rewrite Hs. }
  rewrite Hloaded in Hload.
  unfold CanvasDrawer.createDownloadableCanvas.
  rewrite Hload, Hf, Hl. cbn [List.length Nat.eqb].
  destruct cv0 as [cw ch st0 stk px].
  run_step.
  eexists. eexists. split.
  - erewrite bind_Throw; [reflexivity |].
    do 2 run_step.
    simpl for_range.
    erewrite bind_Throw; [reflexivity |].
    do 2 run_step.
    erewrite bind_Throw; [reflexivity |].
    unfold index. simpl nth_error.
    rewrite drawSinglePolaroid_undefined. reflexivity.
  - reflexivity.
Qed.

(** When every main image fails to load, the collage layout returns a
    surface with nothing drawn on it. *)
Lemma failed_images_collage_returns_empty config world o cv0 :
  images o <> [] ->
  Forall (fun s => decoded world s = None) (images o) ->
  decorations_load config world (opt_decorations o) = true ->
  filter_known config (opt_filter o) = true ->
  layout o = "collage" ->
  exists cv,
    CanvasDrawer.createDownloadableCanvas config world o cv0 = (Ok cv, cv)
    /\ pixels cv = [].
Proof.
  intros Hne Hfail Hdecos Hfilter Hl.
  destruct (loadAssets_succeeds config world (images o) _ Hdecos) as [decoMap Hload].
  unfold filter_known in Hfilter.
  destruct (lookup (opt_filter o) (filters config)) as [f |] eqn:Hf; [| discriminate].
  eexists. split.
  - eapply compose_collage; try eassumption.
    destruct (images o); [congruence | discriminate].
  - unfold collage_surface, large_ops, small_ops. cbn [pixels].
    assert (Hnone : forall i, index (map (decoded world) (images o)) i = None).
    { intros i. unfold index.
      destruct (nth_error (map (decoded world) (images o)) i) as [v |] eqn:Hnth;
        [| reflexivity].
      apply nth_error_In, in_map_iff in Hnth as (s & <- & Hin).
      rewrite Forall_forall in Hfail. now apply Hfail. }
    simpl. now rewrite !Hnone.
Qed.

(** C2 at its failing inputs: the only main image fails to decode.  In the
    collage layout compose returns a surface, with nothing on it; in the
    single layout it throws a TypeError, not the no-images error, after
    the background of the first cell has been filled. *)
Theorem failed_images_are_not_rejected :
  decode sample_world "broken.jpg" = Rejected EncodingError
  /\ (exists cv,
        compose sample_world (opts "collage" ["broken.jpg"] "hi" []) blank
        = (Ok cv, cv)
        /\ pixels cv = [])
  /\ (exists cv op,
        compose sample_world (opts "single" ["broken.jpg"] "hi" []) blank
        = (Throw (TypeError "width"), cv)
        /\ pixels cv
           = [FillRect op {| rx := 0; ry := 0; rw := 1120; rh := 1280 |}]).
Proof.
  split; [reflexivity |]. split.
  - eexists. split; vm_compute; reflexivity.
  - eexists. eexists. split; vm_compute; reflexivity.
Qed.

(** ** Which cell carries the caption *)

(** In the single and grid layouts the caption goes to the cell of the
    last image, and the other cells have an empty caption area. *)
Lemma caption_on_last_cell_grid config world o cv0 :
  servable config world o = true ->
  String.eqb (layout o) "collage" = false ->
  exists cv,
    CanvasDrawer.createDownloadableCanvas config world o cv0 = (Ok cv, cv)
    /\ List.length (cells (pixels cv)) = List.length (images o)
    /\ forall i c,
         nth_error (cells (pixels cv)) i = Some c ->
         cell_caption c
         = if (S i =? List.length (images o))%nat then text o else "".
Proof.
  intros Hs Hl.
  destruct (compose_grid_cells config world o cv0 Hs Hl)
    as (cv & decoMap & _ & Hrun & _ & _ & Hcells).
  exists cv. split; [exact Hrun |]. rewrite Hcells. split.
  - now rewrite length_map, length_seq.
  - intros i c Hnth. apply nth_error_grid_cell in Hnth as [_ ->].
    unfold grid_cell, grid_text, last_index. cbn [cell_caption].
    rewrite length_map.
    destruct (S i =? List.length (images o))%nat eqn:E.
    + apply Nat.eqb_eq in E. replace (_ =? _)%Z with true; [reflexivity |].
      symmetry. apply Z.eqb_eq. lia.
    + apply Nat.eqb_neq in E. replace (_ =? _)%Z with false; [reflexivity |].
      symmetry. apply Z.eqb_neq. lia.
Qed.

(** In the collage the caption goes to the last image when that image is
    in a small cell, that is, with two or three images. *)
Lemma caption_on_last_cell_collage config world o cv0 :
  servable config world o = true ->
  layout o = "collage" ->
  (List.length (images o) = 2 \/ List.length (images o) = 3)%nat ->
  exists cv,
    CanvasDrawer.createDownloadableCanvas config world o cv0 = (Ok cv, cv)
    /\ map cell_caption (cells (pixels cv))
       = repeat "" (List.length (images o) - 1) ++ [text o].
Proof.
  intros Hs Hl Hn.
  pose proof (servable_loads _ _ _ Hs) as (_ & _ & _ & _ & _ & Hall & _).
  destruct (compose_collage_cells config world o cv0 Hs Hl)
    as (cv & decoMap & _ & Hrun & Hcells).
  exists cv. split; [exact Hrun |]. rewrite Hcells.
  unfold large_cells, small_cells, index, polaroid_cell, grid_text, last_index.
  rewrite length_map.
  destruct (images o) as [| a [| b [| c [| d rest]]]]; simpl in Hn, Hall |- *;
    try (destruct Hn; discriminate).
  - inversion Hall as [| ? ? (ia & -> & _) Hall1]; subst.
    inversion Hall1 as [| ? ? (ib & -> & _) _]; subst. reflexivity.
  - inversion Hall as [| ? ? (ia & -> & _) Hall1]; subst.
    inversion Hall1 as [| ? ? (ib & -> & _) Hall2]; subst.
    inversion Hall2 as [| ? ? (ic & -> & _) _]; subst. reflexivity.
Qed.

(** C3 at its failing input: a collage of one image.  The image is drawn
    in the large cell, whose caption is always empty, so no cell receives
    the caption "hi". *)
Theorem collage_of_one_image_has_no_caption :
  exists cv,
    compose good_world (opts "collage" ["a.jpg"] "hi" []) blank = (Ok cv, cv)
    /\ map cell_image (cells (pixels cv)) = [Some (photo "a.jpg")]
    /\ map cell_caption (cells (pixels cv)) = [""].
Proof.
  eexists. split; [vm_compute; reflexivity |]. split; reflexivity.
Qed.

(** ** The list of captured images *)

Lemma shift_while_longer_bound {A} maxImages (array : list A) :
  (List.length (AppJs.shift_while_longer maxImages array) <= maxImages)%nat.
Proof.
  induction array as [| a rest IH]; simpl; [lia |].
  destruct (maxImages <? S (List.length rest))%nat eqn:E; [exact IH |].
  apply Nat.ltb_ge in E. simpl. exact E.
Qed.

(** The earlier revision keeps the list within the capacity after every
    call, whatever the list was before. *)
Lemma AppJs_addCapturedImage_bound imageData st :
  (List.length (PolaroidMaker.capturedImages (AppJs.addCapturedImage imageData st))
   <= AppJs._getMaxImagesForLayout (AppJs.addCapturedImage imageData st))%nat.
Proof.
  unfold AppJs.addCapturedImage, AppJs._getMaxImagesForLayout.
  cbn [PolaroidMaker.capturedImages PolaroidMaker.set_capturedImages
       PolaroidMaker.st_layout].
  apply shift_while_longer_bound.
Qed.

Lemma getMaxImagesForLayout_pos st :
  (1 <= PolaroidMaker._getMaxImagesForLayout st)%nat.
Proof.
  unfold PolaroidMaker._getMaxImagesForLayout.
  repeat match goal with |- context [if ?b then _ else _] => destruct b end; lia.
Qed.

(** The current revision keeps the list within the capacity when it was
    within the capacity before the call, and then evicts the oldest image
    exactly when the list is full. *)
Lemma addCapturedImage_keeps_bound imageData st :
  (List.length (PolaroidMaker.capturedImages st)
   <= PolaroidMaker._getMaxImagesForLayout st)%nat ->
  (List.length
     (PolaroidMaker.capturedImages (PolaroidMaker.addCapturedImage imageData st))
   <= PolaroidMaker._getMaxImagesForLayout
        (PolaroidMaker.addCapturedImage imageData st))%nat
  /\ PolaroidMaker.capturedImages (PolaroidMaker.addCapturedImage imageData st)
     = (if (List.length (PolaroidMaker.capturedImages st)
            =? PolaroidMaker._getMaxImagesForLayout st)%nat
        then tl (PolaroidMaker.capturedImages st)
        else PolaroidMaker.capturedImages st) ++ [imageData].
Proof.
  intros Hb. pose proof (getMaxImagesForLayout_pos st) as Hpos.
  unfold PolaroidMaker.addCapturedImage.
  change (PolaroidMaker._getMaxImagesForLayout
            (PolaroidMaker.set_capturedImages ?l st))
    with (PolaroidMaker._getMaxImagesForLayout st).
  cbn [PolaroidMaker.capturedImages PolaroidMaker.set_capturedImages].
  unfold PolaroidMaker.shift.
  destruct (PolaroidMaker._getMaxImagesForLayout st
            <=? List.length (PolaroidMaker.capturedImages st))%nat eqn:E.
  - apply Nat.leb_le in E.
    replace (_ =? _)%nat with true by (symmetry; apply Nat.eqb_eq; lia).
    split; [| reflexivity].
    rewrite length_app. simpl.
    destruct (PolaroidMaker.capturedImages st); simpl in *; lia.
  - apply Nat.leb_gt in E.
    replace (_ =? _)%nat with false by (symmetry; apply Nat.eqb_neq; lia).
    split; [| reflexivity].
    rewrite length_app. simpl. lia.
Qed.

(** What [downloadPolaroid] hands to the compositor is within the
    capacity whatever the list holds. *)
Lemma download_options_within_capacity st :
  (List.length (images (PolaroidMaker.download_options st))
   <= PolaroidMaker._getMaxImagesForLayout st)%nat.
Proof.
  pose proof (getMaxImagesForLayout_pos st) as Hpos.
  unfold PolaroidMaker.download_options, PolaroidMaker.slice_last. cbn [images].
  destruct (PolaroidMaker._getMaxImagesForLayout st =? 0)%nat eqn:E.
  - apply Nat.eqb_eq in E. lia.
  - rewrite length_skipn. lia.
Qed.

(** C10 at its failing input: four images are captured in the grid-2x2
    layout, the layout is changed to single, and a fifth image is added.
    The current revision shifts once and keeps four images where the
    capacity is one; the earlier revision shifts until one is left. *)
Theorem list_exceeds_lowered_capacity :
  let acts :=
    [PolaroidMaker.SelectLayout "grid-2x2";
     PolaroidMaker.Add "a"; PolaroidMaker.Add "b";
     PolaroidMaker.Add "c"; PolaroidMaker.Add "d";
     PolaroidMaker.SelectLayout "single";
     PolaroidMaker.Add "e"] in
  PolaroidMaker.capturedImages (PolaroidMaker.run acts PolaroidMaker.initial)
  = ["b"; "c"; "d"; "e"]
  /\ PolaroidMaker._getMaxImagesForLayout
       (PolaroidMaker.run acts PolaroidMaker.initial) = 1%nat
  /\ PolaroidMaker.capturedImages (AppJs.run acts PolaroidMaker.initial) = ["e"].
Proof. repeat split. Qed.

(** ** The earlier revision on the same requests *)

(** app.js draws every image of an over-long list too. *)
Lemma AppJs_draws_every_image :
  exists cv,
    AppJs.createDownloadableCanvas AppJs.config good_world
      (opts "single" ["a.jpg"; "b.jpg"; "c.jpg"] "hi" []) blank
    = (Ok cv, cv)
    /\ map cell_image (cells (pixels cv))
       = [Some (photo "a.jpg"); Some (photo "b.jpg"); Some (photo "c.jpg")].
Proof. eexists. split; vm_compute; reflexivity. Qed.

(** app.js has no check of the layout id either, and draws a collage
    request as a single cell per image in one column. *)
Lemma AppJs_has_no_layout_check :
  (exists cv,
     AppJs.createDownloadableCanvas AppJs.config good_world
       (opts "hexagon" ["a.jpg"] "hi" []) blank
     = (Ok cv, cv)
     /\ width cv == 1120 /\ height cv == 1280)
  /\ (exists cv,
        AppJs.createDownloadableCanvas AppJs.config good_world
          (opts "collage" ["a.jpg"; "b.jpg"] "hi" []) blank
        = (Ok cv, cv)
        /\ width cv == 1120 /\ height cv == 1280
        /\ List.length (cells (pixels cv)) = 2%nat).
Proof.
  split; eexists; (split; [vm_compute; reflexivity |]); repeat split; reflexivity.
Qed.

(** app.js has no check of the number of images: an empty request returns
    an empty surface, and a main image that fails to decode rejects the
    whole composition before the surface is touched. *)
Lemma AppJs_without_images :
  (exists cv,
     AppJs.createDownloadableCanvas AppJs.config good_world
       (opts "single" [] "hi" []) blank
     = (Ok cv, cv)
     /\ cells (pixels cv) = [])
  /\ AppJs.createDownloadableCanvas AppJs.config sample_world
       (opts "single" ["a.jpg"; "broken.jpg"] "hi" []) blank
     = (Throw EncodingError, blank).
Proof.
  split; [eexists; split; vm_compute; reflexivity | vm_compute; reflexivity].
Qed.

(** A run of captures with no change of layout stays within the capacity
    in the current revision. *)
Lemma captures_keep_bound (imgs : list string) : forall st,
  (List.length (PolaroidMaker.capturedImages st)
   <= PolaroidMaker._getMaxImagesForLayout st)%nat ->
  (List.length
     (PolaroidMaker.capturedImages
        (PolaroidMaker.run (map PolaroidMaker.Add imgs) st))
   <= PolaroidMaker._getMaxImagesForLayout
        (PolaroidMaker.run (map PolaroidMaker.Add imgs) st))%nat.
Proof.
  induction imgs as [| img imgs IH]; intros st Hb; [exact Hb |].
  simpl. apply IH. now apply addCapturedImage_keeps_bound.
Qed.

(** * Further properties of the code *)

(** ** When the compositor returns *)

Lemma for_range_throws (body : nat -> M unit) count : forall start cv,
  (exists i, (start <= i < start + count)%nat
             /\ forall cv', exists e cv'', body i cv' = (Throw e, cv'')) ->
  exists e cv', for_range start count body cv = (Throw e, cv').
Proof.
  induction count as [| count IH]; intros start cv (i & Hi & Hthrow); [lia |].
  simpl for_range.
  destruct (body start cv) as [[[] | e] cv1] eqn:Hstart.
  - erewrite bind_Ok by exact Hstart.
    apply IH. exists i. split; [| exact Hthrow].
    destruct (Nat.eq_dec i start) as [-> | Hne]; [| lia].
    destruct (Hthrow cv) as (e & cv2 & H). congruence.
  - exists e, cv1. now apply bind_Throw.
Qed.

Lemma grid_cell_undefined_throws config world text decoMap filterValue font dx dy cv :
  exists e cv',
    (save ;;
     translate dx dy ;;
     CanvasDrawer._drawSinglePolaroid config world None text decoMap
       filterValue font ;;
     restore) cv = (Throw e, cv').
Proof.
  destruct cv as [cw ch s st px].
  do 2 run_step.
  eexists. eexists. erewrite bind_Throw; [reflexivity |].
  apply drawSinglePolaroid_undefined.
Qed.

(** A surface returned for the single or a grid layout: every main image
    had loaded, and the surface is the one the cells describe. *)
Lemma compose_grid_returns config world o cv0 cv cv' :
  String.eqb (layout o) "collage" = false ->
  CanvasDrawer.createDownloadableCanvas config world o cv0 = (Ok cv, cv') ->
  exists loaded decoMap f,
    CanvasDrawer._loadAssets config world (images o) (opt_decorations o)
    = Ok (loaded, decoMap)
    /\ lookup (opt_filter o) (filters config) = Some f
    /\ loaded <> []
    /\ Forall (fun img => img <> None) loaded
    /\ cv' = cv
    /\ cv = grid_surface config world o loaded decoMap (value f).
Proof.
  intros Hl H.
  destruct (CanvasDrawer._loadAssets config world (images o) (opt_decorations o))
    as [[loaded decoMap] | e] eqn:Hload.
  2: { unfold CanvasDrawer.createDownloadableCanvas in H. rewrite Hload in H.
       discriminate. }
  destruct loaded as [| img0 rest] eqn:Hloaded.
  { unfold CanvasDrawer.createDownloadableCanvas in H. rewrite Hload in H.
    discriminate. }
  rewrite <- Hloaded in *.
  assert (Hne : loaded <> []) by (rewrite Hloaded; discriminate).
  clear Hloaded img0 rest.
  destruct (lookup (opt_filter o) (filters config)) as [f |] eqn:Hf.
  2: { unfold CanvasDrawer.createDownloadableCanvas in H.
       rewrite Hload, Hf, (length_eqb_0 _ Hne) in H. discriminate. }
  assert (Hall : Forall (fun img => img <> None) loaded).
  { apply Forall_forall. intros img Hin ->.
    apply In_nth_error in Hin as [k Hk].
    assert (Hklt : (k < List.length loaded)%nat)
      by (apply nth_error_Some; congruence).
    exfalso.
    unfold CanvasDrawer.createDownloadableCanvas in H.
    rewrite Hload, Hf, Hl, (length_eqb_0 _ Hne) in H.
    destruct cv0 as [cw ch s st px]. revert H. run_step.
    match goal with
    | |- bind ?branch _ ?c = _ -> _ =>
        assert (Hb : exists e cv2, branch c = (Throw e, cv2))
    end.
    { do 2 run_step. apply for_range_throws.
      exists k. split; [lia |]. intros cv3. cbv zeta.
      unfold index. rewrite Hk. apply grid_cell_undefined_throws. }
    destruct Hb as (e & cv2 & Hb).
    rewrite (bind_Throw _ _ _ _ _ Hb). discriminate. }
  exists loaded, decoMap, f.
  erewrite compose_grid in H; try eassumption.
  inversion H; subst. repeat split; assumption.
Qed.

Lemma compose_returns_surface config world o cv0 cv cv' :
  CanvasDrawer.createDownloadableCanvas config world o cv0 = (Ok cv, cv') ->
  exists loaded decoMap f,
    CanvasDrawer._loadAssets config world (images o) (opt_decorations o)
    = Ok (loaded, decoMap)
    /\ lookup (opt_filter o) (filters config) = Some f
    /\ loaded <> []
    /\ cv' = cv
    /\ cv = (if String.eqb (layout o) "collage"
             then collage_surface config world o loaded decoMap (value f)
             else grid_surface config world o loaded decoMap (value f)).
Proof.
  intros H. destruct (String.eqb (layout o) "collage") eqn:Hl.
  - apply String.eqb_eq in Hl.
    destruct (CanvasDrawer._loadAssets config world (images o) (opt_decorations o))
      as [[loaded decoMap] | e] eqn:Hload.
    2: { unfold CanvasDrawer.createDownloadableCanvas in H. rewrite Hload in H.
         discriminate. }
    destruct loaded as [| img0 rest] eqn:Hloaded.
    { unfold CanvasDrawer.createDownloadableCanvas in H. rewrite Hload in H.
      discriminate. }
    destruct (lookup (opt_filter o) (filters config)) as [f |] eqn:Hf.
    2: { unfold CanvasDrawer.createDownloadableCanvas in H.
         rewrite Hload, Hf in H. discriminate. }
    erewrite compose_collage in H; try eassumption; [| discriminate].
    inversion H; subst cv'. exists (img0 :: rest), decoMap, f.
    repeat split; try reflexivity; try assumption; discriminate.
  - destruct (compose_grid_returns _ _ _ _ _ _ Hl H)
      as (loaded & decoMap & f & Hload & Hf & Hne & _ & Hcv' & Hcv).
    exists loaded, decoMap, f. repeat split; assumption.
Qed.

(** ** The surface and its cells, for every call that returns *)

Lemma servable_returns config world o cv0 :
  servable config world o = true ->
  exists cv, CanvasDrawer.createDownloadableCanvas config world o cv0 = (Ok cv, cv).
Proof.
  intros Hs. destruct (String.eqb (layout o) "collage") eqn:Hl.
  - apply String.eqb_eq in Hl.
    destruct (compose_collage_cells config world o cv0 Hs Hl)
      as (cv & _ & _ & Hrun & _).
    now exists cv.
  - destruct (compose_grid_cells config world o cv0 Hs Hl)
      as (cv & _ & _ & Hrun & _).
    now exists cv.
Qed.

Lemma grid_cells_of_defined o loaded decoMap :
  Forall (fun img => img <> None) loaded ->
  flat_map (grid_cells o loaded decoMap) (seq 0 (List.length loaded))
  = map (grid_cell o loaded decoMap) (seq 0 (List.length loaded)).
Proof.
  intros Hall. apply flat_map_singletons. intros i Hi. apply in_seq in Hi.
  unfold grid_cells, grid_cell, polaroid_cell, shown, index.
  destruct (nth_error loaded i) as [v |] eqn:Hnth.
  - rewrite Forall_forall in Hall.
    pose proof (Hall v (nth_error_In _ _ Hnth)) as Hv.
    destruct v as [img |]; [reflexivity | congruence].
  - apply nth_error_None in Hnth. lia.
Qed.

(** The cells of a returned surface, layout by layout. *)
Lemma returned_cells config world o cv0 cv cv' :
  CanvasDrawer.createDownloadableCanvas config world o cv0 = (Ok cv, cv') ->
  exists decoMap,
    CanvasDrawer._loadAssets config world (images o) (opt_decorations o)
    = Ok (map (decoded world) (images o), decoMap)
    /\ cv' = cv
    /\ images o <> []
    /\ (layout o = "collage" ->
        cells (pixels cv)
        = large_cells (map (decoded world) (images o)) decoMap
          ++ flat_map (small_cells o (map (decoded world) (images o))) (seq 1 2))
    /\ (layout o <> "collage" ->
        Forall (fun img => img <> None) (map (decoded world) (images o))
        /\ width cv
           = inject_Z (cols o) * POLAROID_WIDTH + (inject_Z (cols o) - 1) * GRID_GAP
        /\ height cv
           = inject_Z (rows o) * POLAROID_HEIGHT + (inject_Z (rows o) - 1) * GRID_GAP
        /\ cells (pixels cv)
           = map (grid_cell o (map (decoded world) (images o)) decoMap)
               (seq 0 (List.length (images o)))).
Proof.
  intros H.
  destruct (String.eqb (layout o) "collage") eqn:Hl.
  - destruct (compose_returns_surface _ _ _ _ _ _ H)
      as (loaded & decoMap & f & Hload & _ & Hne & Hcv' & Hcv).
    rewrite Hl in Hcv.
    pose proof (loadedImages_spec _ _ _ _ _ _ Hload) as Hloaded. subst loaded.
    pose proof (decoMap_in_catalog _ _ _ _ _ _ Hload) as Hcat.
    exists decoMap. split; [exact Hload |]. split; [exact Hcv' |].
    split; [intros Himgs; rewrite Himgs in Hne; now apply Hne |].
    split.
    + intros _. rewrite Hcv. now apply cells_collage_surface.
    + intros Hn. apply String.eqb_eq in Hl. contradiction.
  - destruct (compose_grid_returns _ _ _ _ _ _ Hl H)
      as (loaded & decoMap & f & Hload & _ & Hne & Hall & Hcv' & Hcv).
    pose proof (loadedImages_spec _ _ _ _ _ _ Hload) as Hloaded. subst loaded.
    pose proof (decoMap_in_catalog _ _ _ _ _ _ Hload) as Hcat.
    exists decoMap. split; [exact Hload |]. split; [exact Hcv' |].
    split; [intros Himgs; rewrite Himgs in Hne; now apply Hne |].
    split.
    + intros Hc. rewrite Hc in Hl. discriminate.
    + intros _. split; [exact Hall |]. rewrite Hcv.
      split; [reflexivity |]. split; [reflexivity |].
      rewrite cells_grid_surface by exact Hcat.
      rewrite grid_cells_of_defined by exact Hall.
      now rewrite length_map.
Qed.

(** C5: for each of the layouts single, grid-2x2, grid-strip and collage,
    compose returns a surface whenever the request can be served, and
    every surface it returns has the documented size: width =
    cols*cellWidth + (cols-1)*gap and height = rows*cellHeight +
    (rows-1)*gap with (cols,rows) = (1,1), (2,2), (1,4) for single,
    grid-2x2 and grid-strip; width = largeCellWidth and height =
    largeCellHeight + smallCellHeight + gap for collage; where cellWidth =
    imageSide + 2*padding and cellHeight = imageSide + padding +
    captionBandHeight are the sizes of the standard, the large and (before
    scaling) the small cell. *)
Theorem surface_dimensions config world o cv0 :
  POLAROID_WIDTH == cell_width /\ POLAROID_HEIGHT == cell_height
  /\ CanvasDrawer.w_large == cell_width /\ CanvasDrawer.h_large == cell_height
  /\ CanvasDrawer.h_small == cell_height
  /\ (servable config world o = true ->
      exists cv,
        CanvasDrawer.createDownloadableCanvas config world o cv0 = (Ok cv, cv))
  /\ forall cv cv',
       CanvasDrawer.createDownloadableCanvas config world o cv0 = (Ok cv, cv') ->
       (layout o = "single" ->
        width cv == 1 * cell_width + (1 - 1) * GRID_GAP
        /\ height cv == 1 * cell_height + (1 - 1) * GRID_GAP)
       /\ (layout o = "grid-2x2" ->
           width cv == 2 * cell_width + (2 - 1) * GRID_GAP
           /\ height cv == 2 * cell_height + (2 - 1) * GRID_GAP)
       /\ (layout o = "grid-strip" ->
           width cv == 1 * cell_width + (1 - 1) * GRID_GAP
           /\ height cv == 4 * cell_height + (4 - 1) * GRID_GAP)
       /\ (layout o = "collage" ->
           width cv == CanvasDrawer.w_large
           /\ height cv == CanvasDrawer.h_large + CanvasDrawer.h_small + GRID_GAP).
Proof.
  do 5 (split; [reflexivity |]).
  split; [apply servable_returns |].
  intros cv cv' H. apply compose_size in H as [_ H].
  split; [| split; [| split]]; intros Hl; rewrite Hl in H;
    unfold cols, rows in H; rewrite ?Hl in H; cbn in H; destruct H as [Hw Hh];
    rewrite Hw, Hh; repeat split; reflexivity.
Qed.

Lemma surface_dimensions_witness :
  (exists cv,
     compose good_world (opts "single" ["a.jpg"] "hi" []) blank = (Ok cv, cv)
     /\ width cv == 1 * cell_width + (1 - 1) * GRID_GAP
     /\ height cv == 1 * cell_height + (1 - 1) * GRID_GAP)
  /\ (exists cv,
        compose good_world (opts "grid-2x2" ["a.jpg"; "b.jpg"] "hi" []) blank
        = (Ok cv, cv)
        /\ width cv == 2 * cell_width + (2 - 1) * GRID_GAP
        /\ height cv == 2 * cell_height + (2 - 1) * GRID_GAP)
  /\ (exists cv,
        compose good_world (opts "grid-strip" ["a.jpg"; "b.jpg"; "c.jpg"] "hi" [])
          blank
        = (Ok cv, cv)
        /\ width cv == 1 * cell_width + (1 - 1) * GRID_GAP
        /\ height cv == 4 * cell_height + (4 - 1) * GRID_GAP)
  /\ (exists cv,
        compose good_world (opts "collage" ["a.jpg"; "b.jpg"; "c.jpg"] "hi" [])
          blank
        = (Ok cv, cv)
        /\ width cv == CanvasDrawer.w_large
        /\ height cv == CanvasDrawer.h_large + CanvasDrawer.h_small + GRID_GAP).
Proof.
  assert (Huse : forall o,
            servable PolaroidMaker.config good_world o = true ->
            exists cv,
              compose good_world o blank = (Ok cv, cv)
              /\ (layout o = "single" ->
                  width cv == 1 * cell_width + (1 - 1) * GRID_GAP
                  /\ height cv == 1 * cell_height + (1 - 1) * GRID_GAP)
              /\ (layout o = "grid-2x2" ->
                  width cv == 2 * cell_width + (2 - 1) * GRID_GAP
                  /\ height cv == 2 * cell_height + (2 - 1) * GRID_GAP)
              /\ (layout o = "grid-strip" ->
                  width cv == 1 * cell_width + (1 - 1) * GRID_GAP
                  /\ height cv == 4 * cell_height + (4 - 1) * GRID_GAP)
              /\ (layout o = "collage" ->
                  width cv == CanvasDrawer.w_large
                  /\ height cv
                     == CanvasDrawer.h_large + CanvasDrawer.h_small + GRID_GAP)).
  { intros o Hs.
    destruct (surface_dimensions PolaroidMaker.config good_world o blank)
      as (_ & _ & _ & _ & _ & Hret & Hdim).
    destruct (Hret Hs) as [cv Hrun]. exists cv. split; [exact Hrun |].
    exact (Hdim cv cv Hrun). }
  split; [| split; [| split]].
  - destruct (Huse (opts "single" ["a.jpg"] "hi" []) eq_refl)
      as (cv & Hrun & H & _).
    exists cv. split; [exact Hrun | exact (H eq_refl)].
  - destruct (Huse (opts "grid-2x2" ["a.jpg"; "b.jpg"] "hi" []) eq_refl)
      as (cv & Hrun & _ & H & _).
    exists cv. split; [exact Hrun | exact (H eq_refl)].
  - destruct (Huse (opts "grid-strip" ["a.jpg"; "b.jpg"; "c.jpg"] "hi" []) eq_refl)
      as (cv & Hrun & _ & _ & H & _).
    exists cv. split; [exact Hrun | exact (H eq_refl)].
  - destruct (Huse (opts "collage" ["a.jpg"; "b.jpg"; "c.jpg"] "hi" []) eq_refl)
      as (cv & Hrun & _ & _ & _ & H).
    exists cv. split; [exact Hrun | exact (H eq_refl)].
Defined.

(** *** Images beyond the capacity *)

Lemma placed_all_shown loaded : all_shown loaded -> placed loaded = loaded.
Proof.
  induction 1 as [| img rest (i & -> & Hpos) _ IH]; [reflexivity |].
  unfold placed in *. simpl. now rewrite Hpos, IH.
Qed.

Lemma placed_defined loaded :
  Forall (fun img => img <> None) loaded -> placed loaded = map shown loaded.
Proof.
  induction 1 as [| [img |] rest Himg _ IH]; [reflexivity | | congruence].
  unfold placed in *. simpl in *. now rewrite IH.
Qed.

Lemma collage_cells_placed o loaded decoMap :
  map cell_image
    (large_cells loaded decoMap ++ flat_map (small_cells o loaded) (seq 1 2))
  = placed (firstn 3 loaded).
Proof.
  unfold large_cells, small_cells, index, polaroid_cell, placed.
  destruct loaded as [| [a |] [| [b |] [| [c |] rest]]]; reflexivity.
Qed.

Lemma all_shown_firstn n loaded : all_shown loaded -> all_shown (firstn n loaded).
Proof.
  unfold all_shown. intros H. revert n.
  induction H as [| v rest Hv _ IH]; intros [| n]; simpl; constructor; auto.
Qed.

(** C4, as the code has it: compose has no notion of capacity.  For every
    call whose image list is longer than the capacity of its layout and
    that returns a surface (as every such call that can be served does):
    in the collage layout cells are drawn for the first three images
    only, one for each of them that loaded, in input order, and none for
    an image beyond the third; in the single, grid-2x2 and grid-strip
    layouts every image had loaded and a cell is drawn for every image, in
    input order, the cells of index below the capacity lying within the
    surface and every cell of index at or beyond the capacity being placed
    at or below its bottom edge.  [placed] lists the images of the cells a
    loop draws that skips what did not load; an image without pixels leaves
    the image area of its cell empty ([shown]). *)
Theorem images_beyond_capacity config world o cv0 :
  recognized (layout o) = true ->
  (capacity (layout o) < List.length (images o))%nat ->
  (servable config world o = true ->
   exists cv,
     CanvasDrawer.createDownloadableCanvas config world o cv0 = (Ok cv, cv)
     /\ (layout o = "collage" ->
         map cell_image (cells (pixels cv))
         = map (decoded world) (firstn (capacity (layout o)) (images o)))
     /\ (layout o <> "collage" ->
         map cell_image (cells (pixels cv)) = map (decoded world) (images o)))
  /\ forall cv cv',
       CanvasDrawer.createDownloadableCanvas config world o cv0 = (Ok cv, cv') ->
       (layout o = "collage" ->
        map cell_image (cells (pixels cv))
        = placed (map (decoded world) (firstn (capacity (layout o)) (images o))))
       /\ (layout o <> "collage" ->
           Forall (fun s => decoded world s <> None) (images o)
           /\ map cell_image (cells (pixels cv))
              = map (fun s => shown (decoded world s)) (images o)
           /\ forall i c,
                nth_error (cells (pixels cv)) i = Some c ->
                ((i < capacity (layout o))%nat ->
                 0 <= tx (cell_at c)
                 /\ tx (cell_at c) + POLAROID_WIDTH <= width cv
                 /\ 0 <= ty (cell_at c)
                 /\ ty (cell_at c) + POLAROID_HEIGHT <= height cv)
                /\ ((capacity (layout o) <= i)%nat -> height cv <= ty (cell_at c))).
Proof.
  intros Hrec Hcap.
  assert (Hgen : forall cv cv',
    CanvasDrawer.createDownloadableCanvas config world o cv0 = (Ok cv, cv') ->
    (layout o = "collage" ->
     map cell_image (cells (pixels cv))
     = placed (map (decoded world) (firstn (capacity (layout o)) (images o))))
    /\ (layout o <> "collage" ->
        Forall (fun s => decoded world s <> None) (images o)
        /\ map cell_image (cells (pixels cv))
           = map (fun s => shown (decoded world s)) (images o)
        /\ forall i c,
             nth_error (cells (pixels cv)) i = Some c ->
             ((i < capacity (layout o))%nat ->
              0 <= tx (cell_at c)
              /\ tx (cell_at c) + POLAROID_WIDTH <= width cv
              /\ 0 <= ty (cell_at c)
              /\ ty (cell_at c) + POLAROID_HEIGHT <= height cv)
             /\ ((capacity (layout o) <= i)%nat -> height cv <= ty (cell_at c)))).
  { intros cv cv' H.
    destruct (returned_cells _ _ _ _ _ _ H)
      as (decoMap & _ & _ & _ & Hcollage & Hgrid).
    split.
    - intros Hl. rewrite (Hcollage Hl), collage_cells_placed, Hl.
      change (capacity "collage") with 3%nat. now rewrite firstn_map.
    - intros Hl. destruct (Hgrid Hl) as (Hall & Hw & Hh & Hcells).
      split; [rewrite Forall_map in Hall; exact Hall |].
      split.
      + rewrite Hcells, map_map. unfold grid_cell. cbn [cell_image].
        rewrite <- (length_map (decoded world)), (map_index_seq shown).
        now rewrite map_map.
      + assert (Hgeo : layout o = "single" \/ layout o = "grid-2x2"
                       \/ layout o = "grid-strip").
        { destruct (recognized_cases _ Hrec) as [E | [E | [E | E]]]; auto.
          contradiction. }
        intros i c Hnth. rewrite Hcells in Hnth.
        apply nth_error_grid_cell in Hnth as [_ ->].
        destruct (grid_cell_origin o (map (decoded world) (images o)) decoMap i)
          as (Hx & Hy & _).
        rewrite Hw, Hh, Hx, Hy. split.
        * now apply grid_cell_inside.
        * now apply grid_cell_below. }
  split; [| exact Hgen].
  intros Hs.
  destruct (servable_returns config world o cv0 Hs) as [cv Hrun].
  pose proof (servable_loads _ _ _ Hs) as (_ & _ & _ & _ & _ & Hall & _).
  destruct (Hgen cv cv Hrun) as [Hcollage Hgrid].
  exists cv. split; [exact Hrun |]. split.
  - intros Hl. rewrite (Hcollage Hl), <- firstn_map.
    apply placed_all_shown. now apply all_shown_firstn.
  - intros Hl. destruct (Hgrid Hl) as (_ & Himgs & _).
    rewrite Himgs, <- map_map. now apply all_shown_map_shown.
Qed.

Lemma images_beyond_capacity_witness :
  (exists cv,
     compose good_world (opts "single" ["a.jpg"; "b.jpg"; "c.jpg"] "hi" []) blank
     = (Ok cv, cv)
     /\ map cell_image (cells (pixels cv))
        = map (decoded good_world) ["a.jpg"; "b.jpg"; "c.jpg"]
     /\ forall i c,
          nth_error (cells (pixels cv)) i = Some c ->
          (1 <= i)%nat -> height cv <= ty (cell_at c))
  /\ (exists cv,
        compose sample_world
          (opts "collage" ["a.jpg"; "broken.jpg"; "c.jpg"; "d.jpg"] "hi" []) blank
        = (Ok cv, cv)
        /\ map cell_image (cells (pixels cv))
           = [Some (photo "a.jpg"); Some (photo "c.jpg")]).
Proof.
  split.
  - destruct (images_beyond_capacity PolaroidMaker.config good_world
                (opts "single" ["a.jpg"; "b.jpg"; "c.jpg"] "hi" []) blank)
      as [Hserved Hgen]; [reflexivity | apply Nat.ltb_lt; reflexivity |].
    destruct (Hserved eq_refl) as (cv & Hrun & _ & Himgs).
    exists cv. split; [exact Hrun |].
    split; [apply Himgs; discriminate |].
    intros i c Hnth Hi.
    destruct (Hgen cv cv Hrun) as [_ Hgrid].
    destruct Hgrid as (_ & _ & Hpos); [discriminate |].
    now apply (Hpos i c Hnth).
  - assert (Hrun : exists cv,
              CanvasDrawer.createDownloadableCanvas PolaroidMaker.config sample_world
                (opts "collage" ["a.jpg"; "broken.jpg"; "c.jpg"; "d.jpg"] "hi" [])
                blank = (Ok cv, cv)).
    { eexists. vm_compute. reflexivity. }
    destruct Hrun as [cv Hrun]. exists cv. split; [exact Hrun |].
    destruct (images_beyond_capacity PolaroidMaker.config sample_world
                (opts "collage" ["a.jpg"; "broken.jpg"; "c.jpg"; "d.jpg"] "hi" [])
                blank)
      as [_ Hgen]; [reflexivity | apply Nat.ltb_lt; reflexivity |].
    destruct (Hgen cv cv Hrun) as [Hcollage _].
    exact (Hcollage eq_refl).
Defined.

(** *** Which cells carry the decorations *)











(** ** Styles never leak from one drawing call to the next *)


Lemma plain_moved dx dy s : plain s -> plain (moved dx dy s).
Proof. intros H. exact H. Qed.

Lemma plain_shrunk a b s : plain s -> plain (shrunk a b s).
Proof. intros H. exact H. Qed.




(** ** The shared canvas *)

(** X2: what compose returns or throws does not depend on the size, the
    drawing state or the content the shared canvas had before the call;
    in particular composing the same request twice in a row gives the
    same surface. *)
Theorem compose_ignores_previous_canvas config world o cv0 cv1 :
  fst (CanvasDrawer.createDownloadableCanvas config world o cv0)
  = fst (CanvasDrawer.createDownloadableCanvas config world o cv1)
  /\ fst (CanvasDrawer.createDownloadableCanvas config world o
            (snd (CanvasDrawer.createDownloadableCanvas config world o cv0)))
     = fst (CanvasDrawer.createDownloadableCanvas config world o cv0).
Proof.
  assert (Hany : forall cva cvb,
            fst (CanvasDrawer.createDownloadableCanvas config world o cva)
            = fst (CanvasDrawer.createDownloadableCanvas config world o cvb)).
  { intros cva cvb. unfold CanvasDrawer.createDownloadableCanvas.
    destruct (CanvasDrawer._loadAssets config world (images o) (opt_decorations o))
      as [[loaded decoMap] | e]; [| reflexivity].
    destruct (List.length loaded =? 0)%nat; [reflexivity |].
    destruct (lookup (opt_filter o) (filters config)) as [f |]; [| reflexivity].
    destruct cva, cvb.
    destruct (String.eqb (layout o) "collage"); reflexivity. }
  split; apply Hany.
Qed.

(** ** What compose can throw, and when *)

Lemma throws_only_ret {A} P (a : A) : throws_only P (ret a).
Proof. intros cv e cv' H. discriminate. Qed.

Lemma throws_only_throw {A} (P : js_error -> Prop) e : P e -> throws_only P (@throw A e).
Proof. intros HP cv e' cv' H. inversion H. now subst. Qed.

Lemma throws_only_bind {A B} P (m : M A) (k : A -> M B) :
  throws_only P m -> (forall a, throws_only P (k a)) -> throws_only P (bind m k).
Proof.
  intros Hm Hk cv e cv' H. unfold bind in H.
  destruct (m cv) as [[a | e1] cv1] eqn:Hrun.
  - exact (Hk a _ _ _ H).
  - inversion H; subst. exact (Hm _ _ _ Hrun).
Qed.

Lemma throws_only_with_state P f : throws_only P (with_state f).
Proof. intros cv e cv' H. discriminate. Qed.

Lemma throws_only_emit P op : throws_only P (emit op).
Proof. intros cv e cv' H. discriminate. Qed.

Lemma throws_only_save P : throws_only P save.
Proof. intros cv e cv' H. discriminate. Qed.

Lemma throws_only_restore P : throws_only P restore.
Proof. intros cv e cv' H. unfold restore in H. destruct (stack cv); discriminate. Qed.

Lemma throws_only_for_range P body count :
  (forall i, throws_only P (body i)) ->
  forall start, throws_only P (for_range start count body).
Proof.
  intros Hbody. induction count as [| count IH]; intros start; simpl.
  - apply throws_only_ret.
  - apply throws_only_bind; [apply Hbody | intros _; apply IH].
Qed.

Lemma throws_only_for_of {A} P (entries : list A) body :
  Forall (fun e => throws_only P (body e)) entries ->
  throws_only P (for_of entries body).
Proof.
  induction 1 as [| e rest He _ IH]; simpl.
  - apply throws_only_ret.
  - apply throws_only_bind; [exact He | intros _; exact IH].
Qed.

Create HintDb throwing.
#[local] Hint Resolve throws_only_ret throws_only_with_state throws_only_emit
  throws_only_save throws_only_restore : throwing.

Ltac throws_only_tac :=
  repeat first
    [ solve [ auto with throwing ]
    | apply throws_only_bind; [| intros ? ]
    | apply throws_only_for_range; intros ?
    | solve [ unfold translate, scale, set_shadowColor, set_fillStyle, set_filter,
                set_font, clip_rect, clearRect, fillRect, fillText, drawImage5,
                drawImage9; auto with throwing ]
    | solve [ apply throws_only_throw; reflexivity ]
    | match goal with
      | |- throws_only _ (match ?x with _ => _ end) => destruct x
      | |- throws_only _ (if ?b then _ else _) => destruct b
      end ].

Lemma throws_only_drawImageWithAspectRatio img dx dy dWidth dHeight :
  throws_only (eq (TypeError "width"))
    (CanvasDrawer._drawImageWithAspectRatio img dx dy dWidth dHeight).
Proof. unfold CanvasDrawer._drawImageWithAspectRatio. throws_only_tac. Qed.

#[local] Hint Resolve throws_only_drawImageWithAspectRatio : throwing.

Lemma throws_only_drawSinglePolaroid config world img text decoMap filterValue family :
  in_catalog config decoMap ->
  throws_only (eq (TypeError "width"))
    (CanvasDrawer._drawSinglePolaroid config world img text decoMap
       filterValue family).
Proof.
  intros Hcat. unfold CanvasDrawer._drawSinglePolaroid.
  do 10 (apply throws_only_bind; [solve [throws_only_tac] | intros _]).
  apply throws_only_bind; [| intros _; throws_only_tac].
  apply throws_only_for_of. unfold in_catalog in Hcat.
  eapply Forall_impl; [| exact Hcat]. intros entry Hentry. cbv beta in *.
  destruct (lookup (fst entry) (decorations config)); [| congruence].
  throws_only_tac.
Qed.

Lemma map_throwing_throws {A B} (P : js_error -> Prop) (f : A -> result B) l e :
  (forall a e', f a = Throw e' -> P e') ->
  map_throwing f l = Throw e -> P e.
Proof.
  intros Hf. induction l as [| a l IH]; simpl; [discriminate |].
  destruct (f a) as [b | e'] eqn:Ha.
  - destruct (map_throwing f l); [discriminate |].
    intros H. inversion H; subst. now apply IH.
  - intros H. inversion H; subst. now apply (Hf a).
Qed.

Lemma Promise_all_caught_fulfils {A} (ps : list (Promise A)) :
  exists vs, Promise_all (filter truthy_object (map catch_console_error ps)) = Ok vs.
Proof. rewrite Promise_all_caught. eexists. reflexivity. Qed.

Lemma map_throwing_throws_at {A B} (f : A -> result B) l e :
  map_throwing f l = Throw e -> exists a, In a l /\ f a = Throw e.
Proof.
  induction l as [| a l IH]; simpl; [discriminate |].
  destruct (f a) as [b | e'] eqn:Ha.
  - destruct (map_throwing f l); [discriminate |].
    intros H. destruct (IH H) as (a' & Hin & Ha'). exists a'. split; [now right | exact Ha'].
  - intros H. inversion H; subst. exists a. split; [now left | exact Ha].
Qed.

Lemma map_throwing_returns_all {A B} (f : A -> result B) l bs :
  map_throwing f l = Ok bs -> Forall (fun a => exists b, f a = Ok b) l.
Proof.
  revert bs. induction l as [| a l IH]; intros bs; simpl; [constructor |].
  destruct (f a) as [b | e'] eqn:Ha; [| discriminate].
  destruct (map_throwing f l) as [bs' |] eqn:Hl; [| discriminate].
  intros _. constructor; [now exists b | now apply (IH bs')].
Qed.

Lemma loadAssets_throws config world imageSources activeDecorations e :
  CanvasDrawer._loadAssets config world imageSources activeDecorations = Throw e ->
  (e = TypeError "url"
   /\ exists id, In id activeDecorations /\ lookup id (decorations config) = None)
  \/ (e = TypeError "id"
      /\ exists id d e', In id activeDecorations
                         /\ lookup id (decorations config) = Some d
                         /\ decode world (url d) = Rejected e').
Proof.
  unfold CanvasDrawer._loadAssets.
  rewrite <- map_map with (f := decode world) (g := catch_console_error).
  rewrite Promise_all_caught.
  destruct (map_throwing _ activeDecorations) as [ps | e0] eqn:Hps.
  - assert (Hcat : Forall (fun id => lookup id (decorations config) <> None)
                     activeDecorations).
    { apply map_throwing_returns_all in Hps.
      eapply Forall_impl; [| exact Hps]. intros id [b Hb]. cbv beta in Hb.
      destruct (lookup id (decorations config)); [discriminate | discriminate]. }
    destruct (decoration_promises_settle config world _ Hcat) as (ps' & Hps' & Hall).
    rewrite Hps in Hps'. inversion Hps'; subst ps'. rewrite Hall.
    destruct (map_throwing _ (map (settled config world) activeDecorations))
      as [entries | e1] eqn:Hes; [discriminate |].
    intros H. inversion H; subst e1. right.
    apply map_throwing_throws_at in Hes as (sd & Hin & Hsd).
    apply in_map_iff in Hin as (id & <- & Hin).
    unfold settled in Hsd.
    rewrite Forall_forall in Hcat. specialize (Hcat id Hin).
    destruct (lookup id (decorations config)) as [d |] eqn:Hd; [| congruence].
    destruct (decode world (url d)) as [img | e'] eqn:Hdec; [discriminate |].
    inversion Hsd; subst. split; [reflexivity |]. now exists id, d, e'.
  - intros H. inversion H; subst e0. left.
    apply map_throwing_throws_at in Hps as (id & Hin & Hid).
    destruct (lookup id (decorations config)) eqn:Hd; [discriminate |].
    inversion Hid; subst. split; [reflexivity |]. now exists id.
Qed.

Lemma compose_branch_throws_width config world o loaded decoMap filterValue :
  in_catalog config decoMap ->
  throws_only (eq (TypeError "width"))
    (if String.eqb (layout o) "collage" then
       set_width CanvasDrawer.w_large ;;
       set_height (CanvasDrawer.h_large + CanvasDrawer.h_small + GRID_GAP) ;;
       match index loaded 0 with
       | Some img0 =>
           save ;;
           CanvasDrawer._drawSinglePolaroid config world (Some img0) "" decoMap
             filterValue (opt_font o) ;;
           restore
       | None => ret tt
       end ;;
       for_range 1 2 (fun i =>
         match index loaded i with
         | None => ret tt
         | Some img =>
             let x := (inject_Z (Z.of_nat i) - 1) * (CanvasDrawer.w_small + GRID_GAP) in
             let y := CanvasDrawer.h_large + GRID_GAP in
             save ;;
             translate x y ;;
             scale (CanvasDrawer.w_small / POLAROID_WIDTH)
               (CanvasDrawer.h_small / POLAROID_HEIGHT) ;;
             CanvasDrawer._drawSinglePolaroid config world (Some img)
               (if (Z.of_nat i =? Z.of_nat (List.length loaded) - 1)%Z
                then text o else "")
               [] filterValue (opt_font o) ;;
             restore
         end)
     else
       let cols := fst (CanvasDrawer.cols_rows (layout o)) in
       let rows := snd (CanvasDrawer.cols_rows (layout o)) in
       set_width (inject_Z cols * POLAROID_WIDTH + (inject_Z cols - 1) * GRID_GAP) ;;
       set_height (inject_Z rows * POLAROID_HEIGHT + (inject_Z rows - 1) * GRID_GAP) ;;
       for_range 0 (List.length loaded) (fun i =>
         let isLastImage := (Z.of_nat i =? Z.of_nat (List.length loaded) - 1)%Z in
         let currentText := if isLastImage then text o else "" in
         let currentDecos :=
           if String.eqb (layout o) "single" || (i =? 0)%nat then decoMap else [] in
         let row := (Z.of_nat i / cols)%Z in
         let col := (Z.of_nat i mod cols)%Z in
         let x := inject_Z col * (POLAROID_WIDTH + GRID_GAP) in
         let y := inject_Z row * (POLAROID_HEIGHT + GRID_GAP) in
         save ;;
         translate x y ;;
         CanvasDrawer._drawSinglePolaroid config world (index loaded i) currentText
           currentDecos filterValue (opt_font o) ;;
         restore)).
Proof.
  intros Hcat.
  pose proof (throws_only_drawSinglePolaroid config world) as Hdraw.
  pose proof (in_catalog_nil config) as Hnil.
  assert (Hset : forall v, throws_only (eq (TypeError "width")) (set_width v))
    by (intros v cv e cv' H; discriminate).
  assert (Hseth : forall v, throws_only (eq (TypeError "width")) (set_height v))
    by (intros v cv e cv' H; discriminate).
  destruct (String.eqb (layout o) "collage"); cbv zeta.
  - apply throws_only_bind; [apply Hset | intros _].
    apply throws_only_bind; [apply Hseth | intros _].
    apply throws_only_bind; [| intros _].
    + destruct (index loaded 0); [| apply throws_only_ret].
      apply throws_only_bind; [apply throws_only_save | intros _].
      apply throws_only_bind; [now apply Hdraw | intros _; apply throws_only_restore].
    + apply throws_only_for_range. intros i.
      destruct (index loaded i); [| apply throws_only_ret].
      do 3 (apply throws_only_bind; [solve [throws_only_tac] | intros _]).
      apply throws_only_bind; [now apply Hdraw | intros _; apply throws_only_restore].
  - apply throws_only_bind; [apply Hset | intros _].
    apply throws_only_bind; [apply Hseth | intros _].
    apply throws_only_for_range. intros i.
    do 2 (apply throws_only_bind; [solve [throws_only_tac] | intros _]).
    apply throws_only_bind; [| intros _; apply throws_only_restore].
    apply Hdraw. now apply grid_decos_in_catalog.
Qed.

Lemma loaded_or_undefined {A} (l : list (option A)) :
  Forall (fun img => img <> None) l \/ In None l.
Proof.
  induction l as [| [a |] l [IH | IH]].
  - left. constructor.
  - left. constructor; [discriminate | exact IH].
  - right. now right.
  - right. now left.
  - right. now left.
Qed.

Lemma compose_failures config world o cv0 e cv' :
  CanvasDrawer.createDownloadableCanvas config world o cv0 = (Throw e, cv') ->
  (cv' = cv0
   /\ ((e = TypeError "url"
        /\ exists id, In id (opt_decorations o)
                      /\ lookup id (decorations config) = None)
       \/ (e = TypeError "id"
           /\ exists id d e', In id (opt_decorations o)
                              /\ lookup id (decorations config) = Some d
                              /\ decode world (url d) = Rejected e')
       \/ (e = NoImagesToDraw /\ images o = [])
       \/ (e = TypeError "value" /\ images o <> []
           /\ lookup (opt_filter o) (filters config) = None)))
  \/ (e = TypeError "width"
      /\ String.eqb (layout o) "collage" = false
      /\ exists s, In s (images o) /\ decoded world s = None).
Proof.
  intros H.
  destruct (CanvasDrawer._loadAssets config world (images o) (opt_decorations o))
    as [[loaded decoMap] | e0] eqn:Hload.
  2: { unfold CanvasDrawer.createDownloadableCanvas in H. rewrite Hload in H.
       inversion H; subst. left. split; [reflexivity |].
       destruct (loadAssets_throws _ _ _ _ _ Hload) as [Hurl | Hid]; tauto. }
  pose proof (loadedImages_spec _ _ _ _ _ _ Hload) as Hloaded.
  pose proof (decoMap_in_catalog _ _ _ _ _ _ Hload) as Hcat.
  assert (Hcase : images o = [] \/ images o <> [])
    by (destruct (images o); [now left | right; discriminate]).
  destruct Hcase as [Himgs | Himgs].
  { unfold CanvasDrawer.createDownloadableCanvas in H.
    rewrite Hload, Hloaded, Himgs in H.
    inversion H; subst. left. split; [reflexivity |]. tauto. }
  assert (Hne : loaded <> []).
  { rewrite Hloaded. destruct (images o); [congruence | discriminate]. }
  destruct (lookup (opt_filter o) (filters config)) as [f |] eqn:Hf.
  2: { unfold CanvasDrawer.createDownloadableCanvas in H.
       rewrite Hload, Hf, (length_eqb_0 _ Hne) in H.
       inversion H; subst. left. split; [reflexivity |].
       right. right. right. now repeat split. }
  right.
  destruct (String.eqb (layout o) "collage") eqn:Hl.
  { apply String.eqb_eq in Hl.
    erewrite compose_collage in H; try eassumption. discriminate. }
  assert (He : e = TypeError "width").
  { unfold CanvasDrawer.createDownloadableCanvas in H.
    rewrite Hload, Hf, (length_eqb_0 _ Hne) in H.
    destruct cv0 as [cw ch s st px]. revert H. run_step.
    unfold bind at 1.
    pose proof (compose_branch_throws_width config world o loaded decoMap (value f)
                  Hcat) as Hbranch.
    match goal with
    | |- context [match ?branch ?c with _ => _ end] =>
        destruct (branch c) as [[[] | e1] cv2] eqn:Hrun
    end; [discriminate |].
    intros H. inversion H; subst e1 cv2. symmetry. exact (Hbranch _ _ _ Hrun). }
  split; [exact He |]. split; [reflexivity |].
  destruct (loaded_or_undefined loaded) as [Hall | Hin].
  - exfalso. erewrite compose_grid in H; try eassumption. discriminate.
  - rewrite Hloaded in Hin. apply in_map_iff in Hin as (s & Hs & Hin).
    now exists s.
Qed.

(** A failure on the width of a main image comes after the canvas has been
    given the size of the layout. *)
Lemma compose_width_failure_resized config world o cv0 cv' :
  CanvasDrawer.createDownloadableCanvas config world o cv0
  = (Throw (TypeError "width"), cv') ->
  if String.eqb (layout o) "collage"
  then width cv' = CanvasDrawer.w_large
       /\ height cv' = CanvasDrawer.h_large + CanvasDrawer.h_small + GRID_GAP
  else width cv' = inject_Z (cols o) * POLAROID_WIDTH
                   + (inject_Z (cols o) - 1) * GRID_GAP
       /\ height cv' = inject_Z (rows o) * POLAROID_HEIGHT
                       + (inject_Z (rows o) - 1) * GRID_GAP.
Proof.
  unfold CanvasDrawer.createDownloadableCanvas.
  destruct (CanvasDrawer._loadAssets _ _ _ _) as [[loaded decoMap] | e0] eqn:Hload.
  2: { intros H. inversion H; subst.
       destruct (loadAssets_throws _ _ _ _ _ Hload) as [[E _] | [E _]];
         discriminate E. }
  destruct (List.length loaded =? 0)%nat; [discriminate |].
  destruct (lookup (opt_filter o) (filters config)) as [f |]; [| discriminate].
  destruct cv0 as [cw ch s st px]. run_step.
  unfold bind at 1.
  match goal with
  | |- context [match ?branch ?c with _ => _ end] =>
      destruct (branch c) as [[[] | e] cv2] eqn:Hbranch
  end; [discriminate |].
  intros H. inversion H; subst e cv2.
  replace cv' with (snd (@Throw unit (TypeError "width"), cv')) by reflexivity.
  rewrite <- Hbranch.
  destruct (String.eqb (layout o) "collage"); apply resized; keeps_size_tac.
Qed.

(** X3: the failures of compose, for a filter id and decoration ids that
    are not names of members of [Object.prototype].  Four are detected
    before anything is drawn and leave the shared canvas exactly as it
    was: a decoration id missing from the catalog (TypeError on url), a
    decoration that failed to load (TypeError on id), an empty image list
    (the no-images error) and a filter id missing from the catalog
    (TypeError on value).  The only other failure is the TypeError on the
    width of a main image that did not load, in the single and grid
    layouts; it is detected while the cells are drawn, and the canvas is
    then left with the size of the requested layout. *)
Theorem failures_before_drawing_leave_canvas config world o cv0 e cv' :
  plain_key (opt_filter o) = true ->
  forallb plain_key (opt_decorations o) = true ->
  CanvasDrawer.createDownloadableCanvas config world o cv0 = (Throw e, cv') ->
  (cv' = cv0
   /\ ((e = TypeError "url"
        /\ exists id, In id (opt_decorations o)
                      /\ lookup id (decorations config) = None)
       \/ (e = TypeError "id"
           /\ exists id d e', In id (opt_decorations o)
                              /\ lookup id (decorations config) = Some d
                              /\ decode world (url d) = Rejected e')
       \/ (e = NoImagesToDraw /\ images o = [])
       \/ (e = TypeError "value" /\ images o <> []
           /\ lookup (opt_filter o) (filters config) = None)))
  \/ (e = TypeError "width"
      /\ layout o <> "collage"
      /\ (exists s, In s (images o) /\ decoded world s = None)
      /\ width cv' = inject_Z (cols o) * POLAROID_WIDTH
                     + (inject_Z (cols o) - 1) * GRID_GAP
      /\ height cv' = inject_Z (rows o) * POLAROID_HEIGHT
                      + (inject_Z (rows o) - 1) * GRID_GAP).
Proof.
  intros _ _ H.
  destruct (compose_failures _ _ _ _ _ _ H) as [Hbefore | (He & Hl & Hs)];
    [left; exact Hbefore | right].
  subst e. pose proof (compose_width_failure_resized _ _ _ _ _ H) as Hsize.
  rewrite Hl in Hsize.
  split; [reflexivity |].
  split; [intros E; rewrite E in Hl; discriminate |].
  split; [exact Hs | exact Hsize].
Qed.

Lemma failures_before_drawing_leave_canvas_witness :
  (compose good_world (opts "single" ["a.jpg"] "hi" ["unicorn-decoration"]) blank
   = (Throw (TypeError "url"), blank)
   /\ exists id, In id ["unicorn-decoration"]
                 /\ lookup id (decorations PolaroidMaker.config) = None)
  /\ exists cv',
       compose sample_world (opts "grid-2x2" ["a.jpg"; "broken.jpg"] "hi" []) blank
       = (Throw (TypeError "width"), cv')
       /\ width cv' = inject_Z 2 * POLAROID_WIDTH + (inject_Z 2 - 1) * GRID_GAP.
Proof.
  split.
  - assert (Hrun : CanvasDrawer.createDownloadableCanvas PolaroidMaker.config
                     good_world
                     (opts "single" ["a.jpg"] "hi" ["unicorn-decoration"]) blank
                   = (Throw (TypeError "url"), blank)) by (vm_compute; reflexivity).
    split; [exact Hrun |].
    destruct (failures_before_drawing_leave_canvas PolaroidMaker.config good_world
                (opts "single" ["a.jpg"] "hi" ["unicorn-decoration"]) blank _ _
                eq_refl eq_refl Hrun)
      as [(_ & [(_ & Hid) | [(He & _) | [(He & _) | (He & _)]]]) | (He & _)];
      try discriminate He.
    exact Hid.
  - assert (Hrun : exists cv',
              CanvasDrawer.createDownloadableCanvas PolaroidMaker.config sample_world
                (opts "grid-2x2" ["a.jpg"; "broken.jpg"] "hi" []) blank
              = (Throw (TypeError "width"), cv')).
    { eexists. vm_compute. reflexivity. }
    destruct Hrun as [cv' Hrun]. exists cv'. split; [exact Hrun |].
    destruct (failures_before_drawing_leave_canvas PolaroidMaker.config sample_world
                (opts "grid-2x2" ["a.jpg"; "broken.jpg"] "hi" []) blank _ _
                eq_refl eq_refl Hrun)
      as [(_ & [(He & _) | [(He & _) | [(He & _) | (He & _)]]])
         | (_ & _ & _ & Hw & _)];
      try discriminate He.
    exact Hw.
Defined.

(** ** The cells of a request within the capacity *)

Lemma grid_cell_rect o loaded decoMap i :
  rx (cell_rect (grid_cell o loaded decoMap i)) == grid_x o i
  /\ ry (cell_rect (grid_cell o loaded decoMap i)) == grid_y o i
  /\ rw (cell_rect (grid_cell o loaded decoMap i)) == POLAROID_WIDTH
  /\ rh (cell_rect (grid_cell o loaded decoMap i)) == POLAROID_HEIGHT.
Proof.
  unfold cell_rect, grid_cell, moved, translated.
  cbn [cell_at transform set_transform default_state identity tx ty sx sy
       rx ry rw rh].
  repeat split; ring.
Qed.

Lemma grid_cells_apart o i j :
  (0 < cols o)%Z -> i <> j ->
  grid_x o i + POLAROID_WIDTH + GRID_GAP <= grid_x o j
  \/ grid_x o j + POLAROID_WIDTH + GRID_GAP <= grid_x o i
  \/ grid_y o i + POLAROID_HEIGHT + GRID_GAP <= grid_y o j
  \/ grid_y o j + POLAROID_HEIGHT + GRID_GAP <= grid_y o i.
Proof.
  intros Hc Hij. unfold grid_x, grid_y.
  pose proof (Z.div_mod (Z.of_nat i) (cols o) ltac:(lia)) as Hi.
  pose proof (Z.div_mod (Z.of_nat j) (cols o) ltac:(lia)) as Hj.
  set (ci := (Z.of_nat i mod cols o)%Z) in *.
  set (cj := (Z.of_nat j mod cols o)%Z) in *.
  set (ri := (Z.of_nat i / cols o)%Z) in *.
  set (rj := (Z.of_nat j / cols o)%Z) in *.
  assert (Hcase : (ci + 1 <= cj \/ cj + 1 <= ci \/ ri + 1 <= rj \/ rj + 1 <= ri)%Z).
  { destruct (Z.eq_dec ri rj) as [Hr | Hr]; [| lia].
    destruct (Z.eq_dec ci cj) as [Hcc | Hcc]; [| lia].
    exfalso. apply Hij. apply Nat2Z.inj. rewrite Hi, Hj, Hr, Hcc. reflexivity. }
  assert (Hstep : forall a b : Z, (a + 1 <= b)%Z -> inject_Z a + 1 <= inject_Z b).
  { intros a b Hab. apply inject_Z_le in Hab. rewrite inject_Z_plus in Hab.
    exact Hab. }
  unfold POLAROID_WIDTH, POLAROID_HEIGHT, IMG_SIZE, PADDING, TEXT_AREA_HEIGHT, GRID_GAP.
  destruct Hcase as [H | [H | [H | H]]]; apply Hstep in H; revert H;
    generalize (inject_Z ci) (inject_Z cj) (inject_Z ri) (inject_Z rj);
    intros a b c d H.
  - left. lra.
  - right. left. lra.
  - right. right. left. lra.
  - right. right. right. lra.
Qed.

Lemma apart_morph gap r1 r2 x1 y1 x2 y2 w h :
  rx r1 == x1 -> ry r1 == y1 -> rw r1 == w -> rh r1 == h ->
  rx r2 == x2 -> ry r2 == y2 -> rw r2 == w -> rh r2 == h ->
  (x1 + w + gap <= x2 \/ x2 + w + gap <= x1
   \/ y1 + h + gap <= y2 \/ y2 + h + gap <= y1) ->
  apart gap r1 r2.
Proof.
  intros Hx1 Hy1 Hw1 Hh1 Hx2 Hy2 Hw2 Hh2 H. unfold apart.
  rewrite Hx1, Hy1, Hw1, Hh1, Hx2, Hy2, Hw2, Hh2. exact H.
Qed.

Lemma cells_fit config world o cv0 :
  servable config world o = true ->
  recognized (layout o) = true ->
  (List.length (images o) <= capacity (layout o))%nat ->
  exists cv,
    CanvasDrawer.createDownloadableCanvas config world o cv0 = (Ok cv, cv)
    /\ List.length (cells (pixels cv)) = List.length (images o)
    /\ (forall i c, nth_error (cells (pixels cv)) i = Some c ->
          inside (cell_rect c) cv)
    /\ (forall i j ci cj,
          nth_error (cells (pixels cv)) i = Some ci ->
          nth_error (cells (pixels cv)) j = Some cj ->
          i <> j -> apart GRID_GAP (cell_rect ci) (cell_rect cj)).
Proof.
  intros Hs Hrec Hcap.
  pose proof (servable_loads _ _ _ Hs) as (_ & _ & _ & _ & Hne & Hall & _).
  destruct (String.eqb (layout o) "collage") eqn:Hl.
  - apply String.eqb_eq in Hl.
    destruct (compose_collage_cells config world o cv0 Hs Hl)
      as (cv & decoMap & _ & Hrun & Hcells).
    pose proof (compose_size _ _ _ _ _ _ Hrun) as [_ Hsize].
    rewrite Hl in Hsize. change (String.eqb "collage" "collage") with true in Hsize.
    destruct Hsize as [Hw Hh].
    exists cv. split; [exact Hrun |]. rewrite Hcells.
    rewrite Hl in Hcap. change (capacity "collage") with 3%nat in Hcap.
    unfold inside. rewrite Hw, Hh.
    unfold large_cells, small_cells, index, polaroid_cell, cell_rect, apart.
    destruct (images o) as [| a [| b [| c0 [| d rest]]]]; simpl in Hcap, Hall, Hne |- *;
      try congruence; try lia.
    + inversion Hall as [| ? ? (ia & -> & _) _]; subst.
      split; [reflexivity |]. split.
      * intros [| i] c; simpl; [| destruct i; discriminate].
        intros Heq; inversion Heq; subst; cbn. repeat split; vm_compute; discriminate.
      * intros [| i] [| j] ci cj; simpl; try congruence;
          try (destruct i; discriminate); try (destruct j; discriminate).
    + inversion Hall as [| ? ? (ia & -> & _) Hall1]; subst.
      inversion Hall1 as [| ? ? (ib & -> & _) _]; subst.
      split; [reflexivity |]. split.
      * intros [| [| i]] c; simpl; try (destruct i; discriminate);
          intros Heq; inversion Heq; subst; cbn; repeat split; vm_compute; discriminate.
      * intros [| [| i]] [| [| j]] ci cj; simpl; try congruence;
          try (destruct i; discriminate); try (destruct j; discriminate);
          intros Hi Hj _; inversion Hi; inversion Hj; subst; cbn;
          [right; right; left | right; right; right]; vm_compute; discriminate.
    + inversion Hall as [| ? ? (ia & -> & _) Hall1]; subst.
      inversion Hall1 as [| ? ? (ib & -> & _) Hall2]; subst.
      inversion Hall2 as [| ? ? (ic & -> & _) _]; subst.
      split; [reflexivity |]. split.
      * intros [| [| [| i]]] c; simpl; try (destruct i; discriminate);
          intros Heq; inversion Heq; subst; cbn; repeat split; vm_compute; discriminate.
      * intros [| [| [| i]]] [| [| [| j]]] ci cj; simpl; try congruence;
          try (destruct i; discriminate); try (destruct j; discriminate);
          intros Hi Hj _; inversion Hi; inversion Hj; subst; cbn;
          first [ right; right; left; vm_compute; discriminate
                | right; right; right; vm_compute; discriminate
                | left; vm_compute; discriminate
                | right; left; vm_compute; discriminate ].
  - destruct (compose_grid_cells config world o cv0 Hs Hl)
      as (cv & decoMap & _ & Hrun & Hw & Hh & Hcells).
    exists cv. split; [exact Hrun |]. rewrite Hcells.
    assert (Hgrid : layout o = "single" \/ layout o = "grid-2x2"
                    \/ layout o = "grid-strip").
    { destruct (recognized_cases _ Hrec) as [H | [H | [H | H]]]; auto.
      rewrite H in Hl. discriminate. }
    destruct (grid_geometry o Hgrid) as (Hc & _ & _).
    split; [now rewrite length_map, length_seq |]. split.
    + intros i c Hnth. apply nth_error_grid_cell in Hnth as [Hi ->].
      destruct (grid_cell_rect o (map (decoded world) (images o)) decoMap i)
        as (Hx & Hy & Hrw & Hrh).
      unfold inside. rewrite Hw, Hh, Hx, Hy, Hrw, Hrh.
      apply grid_cell_inside; [exact Hgrid | lia].
    + intros i j ci cj Hi Hj Hij.
      apply nth_error_grid_cell in Hi as [_ ->].
      apply nth_error_grid_cell in Hj as [_ ->].
      destruct (grid_cell_rect o (map (decoded world) (images o)) decoMap i)
        as (Hxi & Hyi & Hwi & Hhi).
      destruct (grid_cell_rect o (map (decoded world) (images o)) decoMap j)
        as (Hxj & Hyj & Hwj & Hhj).
      eapply apart_morph; try eassumption.
      now apply grid_cells_apart.
Qed.

(** X4: for every servable request in a recognized layout whose image
    list is within the layout's capacity, every cell drawn lies within
    the returned surface and any two cells are at least GRID_GAP apart,
    so no polaroid is cut off or painted over by another. *)
Theorem cells_fit_and_do_not_overlap config world o cv0 :
  servable config world o = true ->
  recognized (layout o) = true ->
  (List.length (images o) <= capacity (layout o))%nat ->
  exists cv,
    CanvasDrawer.createDownloadableCanvas config world o cv0 = (Ok cv, cv)
    /\ List.length (cells (pixels cv)) = List.length (images o)
    /\ (forall i c, nth_error (cells (pixels cv)) i = Some c ->
          inside (cell_rect c) cv)
    /\ (forall i j ci cj,
          nth_error (cells (pixels cv)) i = Some ci ->
          nth_error (cells (pixels cv)) j = Some cj ->
          i <> j -> apart GRID_GAP (cell_rect ci) (cell_rect cj)).
Proof. apply cells_fit. Qed.

Lemma cells_fit_and_do_not_overlap_witness :
  exists cv,
    compose good_world (opts "grid-2x2" ["a.jpg"; "b.jpg"; "c.jpg"] "hi" []) blank
    = (Ok cv, cv)
    /\ List.length (cells (pixels cv)) = 3%nat
    /\ forall i c, nth_error (cells (pixels cv)) i = Some c -> inside (cell_rect c) cv.
Proof.
  destruct (cells_fit_and_do_not_overlap PolaroidMaker.config good_world
              (opts "grid-2x2" ["a.jpg"; "b.jpg"; "c.jpg"] "hi" []) blank)
    as (cv & Hrun & Hlen & Hin & _);
    [reflexivity | reflexivity | apply Nat.leb_le; reflexivity |].
  exists cv. split; [exact Hrun | split; [exact Hlen | exact Hin]].
Defined.

(** ** Cover fit is the least cover *)

(** X5: the ratio the cover fit aims at, rs = max(W/w, H/h), is the least
    uniform scale under which the image covers the target, and under it
    the image meets the target exactly on one axis.  The extent the code
    draws is (w*rs, h*rs) within a relative 2^-50 (the arithmetic is in
    doubles): it is within 2^-50 of the target's on one axis, and it
    exceeds no covering extent (w*r', h*r') by more than that. *)
Theorem cover_fit_is_least (img : Image) (dx dy dWidth dHeight : Q) (cv : Canvas) :
  (0 < img_width img < 2 ^ 32)%N -> (0 < img_height img < 2 ^ 32)%N ->
  in_double_range dx -> in_double_range dy ->
  in_double_range dWidth -> in_double_range dHeight ->
  0 < dWidth -> 0 < dHeight ->
  let w := N2Q (img_width img) in
  let h := N2Q (img_height img) in
  let eps := 1 # 2 ^ 50 in
  exists (rs : Q) (source dest : Rect),
    CanvasDrawer._drawImageWithAspectRatio (Some img) dx dy dWidth dHeight cv
    = (Ok tt, add_pixels [DrawImage9 (state cv) img source dest] cv)
    /\ rs == Qmax (dWidth / w) (dHeight / h)
    /\ dWidth <= w * rs /\ dHeight <= h * rs
    /\ (w * rs == dWidth \/ h * rs == dHeight)
    /\ (forall r' : Q, dWidth <= w * r' -> dHeight <= h * r' -> rs <= r')
    /\ Qabs (rw dest - w * rs) <= eps * (w * rs)
    /\ Qabs (rh dest - h * rs) <= eps * (h * rs)
    /\ (Qabs (rw dest - dWidth) <= eps * dWidth
        \/ Qabs (rh dest - dHeight) <= eps * dHeight)
    /\ forall r' : Q,
         dWidth <= w * r' -> dHeight <= h * r' ->
         rw dest <= (1 + eps) * (w * r') /\ rh dest <= (1 + eps) * (h * r').
Proof.
  intros [Hw _] [Hh _] _ _ _ _ HW HH w h eps.
  set (rs := Qmax (dWidth / w) (dHeight / h)).
  exists rs, {| rx := 0; ry := 0; rw := w; rh := h |},
    (cover_dest img dx dy dWidth dHeight).
  assert (Hwq : 0 < w) by now apply N2Q_pos.
  assert (Hhq : 0 < h) by now apply N2Q_pos.
  assert (Hcw : dWidth <= w * rs) by now apply cover_reaches.
  assert (Hch : dHeight <= h * rs) by now apply cover_reaches_r.
  assert (Ha : 0 < dWidth / w) by (apply Qlt_shift_div_l; lra).
  assert (Hb : 0 < dHeight / h) by (apply Qlt_shift_div_l; lra).
  destruct (ratio_error (dWidth / w) (dHeight / h) Ha Hb) as [Hr1 Hr2].
  fold rs in Hr1, Hr2.
  destruct (cover_axis w dWidth rs _ dx Hwq HW Hcw Hr1 Hr2) as [Ew _].
  destruct (cover_axis h dHeight rs _ dy Hhq HH Hch Hr1 Hr2) as [Eh _].
  assert (Hfit : w * rs == dWidth \/ h * rs == dHeight).
  { unfold rs. destruct (Q.max_spec (dWidth / w) (dHeight / h)) as [[_ Hm] | [_ Hm]];
      rewrite Hm; [right | left]; field; lra. }
  assert (Hleast : forall r' : Q, dWidth <= w * r' -> dHeight <= h * r' -> rs <= r').
  { intros r' H1 H2. apply Q.max_lub.
    - apply Qmult_le_l with (z := w); [exact Hwq |].
      assert (E : w * (dWidth / w) == dWidth) by (field; lra).
      now rewrite E.
    - apply Qmult_le_l with (z := h); [exact Hhq |].
      assert (E : h * (dHeight / h) == dHeight) by (field; lra).
      now rewrite E. }
  split.
  { unfold CanvasDrawer._drawImageWithAspectRatio.
    replace ((img_width img =? 0)%N) with false by (symmetry; apply N.eqb_neq; lia).
    replace ((img_height img =? 0)%N) with false by (symmetry; apply N.eqb_neq; lia).
    reflexivity. }
  unfold cover_dest. cbn [rx ry rw rh]. fold w h.
  set (nW := fl (w * Qmax (fl (dWidth / w)) (fl (dHeight / h)))) in *.
  set (nH := fl (h * Qmax (fl (dWidth / w)) (fl (dHeight / h)))) in *.
  split; [reflexivity |].
  do 2 (split; [assumption |]).
  split; [exact Hfit |]. split; [exact Hleast |].
  do 2 (split; [assumption |]).
  apply Qabs_Qle_condition in Ew, Eh.
  unfold eps in *. change (2 ^ 50)%positive with 1125899906842624%positive in *.
  split.
  - destruct Hfit as [Hfit | Hfit]; [left | right];
      apply Qabs_Qle_condition; rewrite <- Hfit;
      revert Ew Eh; generalize (w * rs) (h * rs); intros; split; lra.
  - intros r' H1 H2.
    pose proof (Hleast r' H1 H2) as Hle.
    assert (Lw : w * rs <= w * r') by (apply Qmult_le_l; assumption).
    assert (Lh : h * rs <= h * r') by (apply Qmult_le_l; assumption).
    revert Ew Eh Lw Lh Hcw Hch.
    generalize (w * rs) (h * rs) (w * r') (h * r'). intros. split; lra.
Qed.

Lemma cover_fit_is_least_witness :
  exists (rs : Q) (source dest : Rect),
    CanvasDrawer._drawImageWithAspectRatio (Some (photo "a.jpg"))
      PADDING PADDING IMG_SIZE IMG_SIZE blank
    = (Ok tt, add_pixels [DrawImage9 (state blank) (photo "a.jpg") source dest] blank)
    /\ rs == Qmax (IMG_SIZE / N2Q 1920) (IMG_SIZE / N2Q 1080)
    /\ (Qabs (rw dest - IMG_SIZE) <= (1 # 2 ^ 50) * IMG_SIZE
        \/ Qabs (rh dest - IMG_SIZE) <= (1 # 2 ^ 50) * IMG_SIZE).
Proof.
  assert (Hd : forall q : Q,
             fl q == q -> 1 # 2 ^ 256 <= Qabs q -> Qabs q <= inject_Z (2 ^ 256) ->
             in_double_range q).
  { intros q H1 H2 H3. split; [exact H1 | right; now split]. }
  destruct (cover_fit_is_least (photo "a.jpg") PADDING PADDING IMG_SIZE IMG_SIZE blank)
    as (rs & source & dest & Hrun & Hrs & _ & _ & _ & _ & _ & _ & Hfit & _);
    try (apply Hd; vm_compute; (reflexivity || discriminate));
    try (split; reflexivity); try reflexivity.
  exists rs, source, dest. repeat split; assumption.
Defined.

(** An image without pixels is skipped without an error. *)
Lemma empty_image_is_skipped img dx dy dWidth dHeight cv :
  positive_size img = false ->
  CanvasDrawer._drawImageWithAspectRatio (Some img) dx dy dWidth dHeight cv
  = (Ok tt, cv).
Proof.
  unfold positive_size, CanvasDrawer._drawImageWithAspectRatio. intros H.
  apply negb_false_iff in H. now rewrite H.
Qed.

(** ** The order of the decorations *)

Lemma Map_set_fresh {A} key (v : A) m :
  ~ In key (map fst m) -> Map_set key v m = m ++ [(key, v)].
Proof.
  induction m as [| [k v'] m IH]; simpl; intros Hfresh; [reflexivity |].
  destruct (String.eqb key k) eqn:E.
  - apply String.eqb_eq in E. subst. exfalso. apply Hfresh. now left.
  - rewrite IH; [reflexivity |]. intros Hin. apply Hfresh. now right.
Qed.

Lemma new_Map_of_distinct_keys {A} (entries : list (string * A)) :
  NoDup (map fst entries) -> new_Map entries = entries.
Proof.
  unfold new_Map.
  enough (Hgen : forall acc,
            NoDup (map fst (acc ++ entries)) ->
            fold_left (fun m kv => Map_set (fst kv) (snd kv) m) entries acc
            = acc ++ entries).
  { intros H. exact (Hgen [] H). }
  induction entries as [| [k v] rest IH]; intros acc Hnd; simpl.
  - now rewrite app_nil_r.
  - rewrite Map_set_fresh.
    + rewrite IH; rewrite <- app_assoc; [reflexivity | exact Hnd].
    + rewrite map_app in Hnd. simpl in Hnd.
      apply NoDup_remove_2 in Hnd. intros Hin. apply Hnd.
      apply in_or_app. now left.
Qed.

Lemma settled_fst config world id e :
  settled config world id = Some e -> fst e = id.
Proof.
  unfold settled. destruct (lookup id (decorations config)); [| discriminate].
  destruct (decode world (url d)); [| discriminate].
  intros H. now inversion H.
Qed.

Lemma loadAssets_entries config world imageSources activeDecorations :
  decorations_load config world activeDecorations = true ->
  NoDup activeDecorations ->
  exists decoMap,
    CanvasDrawer._loadAssets config world imageSources activeDecorations
    = Ok (map (decoded world) imageSources, decoMap)
    /\ map Some decoMap = map (settled config world) activeDecorations.
Proof.
  intros Hload Hnd. unfold CanvasDrawer._loadAssets.
  rewrite <- map_map with (f := decode world) (g := catch_console_error).
  rewrite Promise_all_caught, map_map. fold (decoded world).
  assert (Hcat : Forall (fun id => lookup id (decorations config) <> None)
                   activeDecorations).
  { unfold decorations_load in Hload. rewrite forallb_forall in Hload.
    apply Forall_forall. intros id Hin. specialize (Hload id Hin).
    destruct (lookup id (decorations config)); [discriminate | discriminate]. }
  destruct (decoration_promises_settle config world _ Hcat) as (ps & Hps & Hall).
  rewrite Hps, Hall.
  assert (Hes : exists entries,
            map_throwing (fun d : option (string * Image) =>
              match d with
              | None => Throw (TypeError "id")
              | Some d => Ok (fst d, snd d)
              end) (map (settled config world) activeDecorations) = Ok entries
            /\ map Some entries = map (settled config world) activeDecorations).
  { clear Hps Hall Hcat Hnd ps.
    induction activeDecorations as [| id ids IH].
    - exists []. now split.
    - simpl in Hload. apply andb_true_iff in Hload as [Hid Hids].
      destruct (IH Hids) as (entries & Hes & Hmap).
      simpl. unfold settled at 1 3. unfold decoded in Hid.
      destruct (lookup id (decorations config)) as [d |]; [| discriminate].
      destruct (decode world (url d)) as [img |]; [| discriminate].
      rewrite Hes. exists ((id, img) :: entries). simpl. now rewrite Hmap. }
  destruct Hes as (entries & Hes & Hmap). rewrite Hes.
  exists (new_Map entries). split; [reflexivity |].
  rewrite new_Map_of_distinct_keys; [exact Hmap |].
  assert (Hkeys : map fst entries = activeDecorations).
  { clear - Hmap. revert activeDecorations Hmap.
    induction entries as [| e es IH]; intros [| id ids] Hmap; simpl in *;
      try discriminate; [reflexivity |].
    inversion Hmap as [[He Hes]]. f_equal.
    - now apply (settled_fst config world).
    - now apply IH. }
  now rewrite Hkeys.
Qed.

(** X6: when every active decoration loads, the decorations are drawn on
    the first cell once each, in the order in which they were activated
    (the iteration order of the set), so a decoration activated later is
    painted over one activated earlier where the two overlap. *)
Theorem decorations_follow_activation_order config world o cv0 :
  servable config world o = true ->
  NoDup (opt_decorations o) ->
  exists cv c0,
    CanvasDrawer.createDownloadableCanvas config world o cv0 = (Ok cv, cv)
    /\ nth_error (cells (pixels cv)) 0 = Some c0
    /\ map Some (cell_decos c0)
       = map (fun id => option_map snd (settled config world id)) (opt_decorations o).
Proof.
  intros Hs Hnd.
  assert (Hdecos : decorations_load config world (opt_decorations o) = true).
  { unfold servable in Hs. apply andb_true_iff in Hs as [Hs _].
    now apply andb_true_iff in Hs as [_ Hs]. }
  destruct (loadAssets_entries config world (images o) _ Hdecos Hnd)
    as (entries & Hentries & Hmap).
  assert (Hsnd : map Some (map snd entries)
                 = map (fun id => option_map snd (settled config world id))
                     (opt_decorations o)).
  { rewrite <- (map_map (settled config world) (option_map snd)), <- Hmap.
    now rewrite !map_map. }
  pose proof (servable_loads _ _ _ Hs) as (_ & _ & _ & _ & Hne & Hall & _).
  destruct (all_shown_index (map (decoded world) (images o)) 0 Hall)
    as (img0 & Himg0 & Hpos0).
  { destruct (map (decoded world) (images o)); [congruence | simpl; lia]. }
  destruct (String.eqb (layout o) "collage") eqn:Hl.
  - apply String.eqb_eq in Hl.
    destruct (compose_collage_cells config world o cv0 Hs Hl)
      as (cv & decoMap & Hload & Hrun & Hcells).
    rewrite Hentries in Hload. inversion Hload; subst decoMap.
    exists cv. eexists. split; [exact Hrun |]. rewrite Hcells.
    unfold large_cells. rewrite Himg0. split; [reflexivity |]. exact Hsnd.
  - destruct (compose_grid_cells config world o cv0 Hs Hl)
      as (cv & decoMap & Hload & Hrun & _ & _ & Hcells).
    rewrite Hentries in Hload. inversion Hload; subst decoMap.
    exists cv, (grid_cell o (map (decoded world) (images o)) entries 0).
    split; [exact Hrun |]. rewrite Hcells. split.
    + destruct (images o) as [| s0 rest]; [now exfalso; apply Hne | reflexivity].
    + unfold grid_cell, grid_decos. cbn [cell_decos Nat.eqb].
      rewrite orb_true_r. exact Hsnd.
Qed.

Lemma decorations_follow_activation_order_witness :
  exists cv c0,
    compose good_world
      (opts "single" ["a.jpg"] "hi" ["sparkle-decoration"; "heart-decoration"]) blank
    = (Ok cv, cv)
    /\ nth_error (cells (pixels cv)) 0 = Some c0
    /\ cell_decos c0 = [photo "assets/sparkle.svg"; photo "assets/heart.png"].
Proof.
  destruct (decorations_follow_activation_order PolaroidMaker.config good_world
              (opts "single" ["a.jpg"] "hi" ["sparkle-decoration"; "heart-decoration"])
              blank)
    as (cv & c0 & Hrun & Hnth & Hdecos).
  - reflexivity.
  - repeat constructor; simpl; intuition discriminate.
  - exists cv, c0. split; [exact Hrun | split; [exact Hnth |]].
    revert Hdecos. generalize (cell_decos c0). intros ds Hdecos.
    vm_compute in Hdecos.
    destruct ds as [| d1 [| d2 [| d3 rest]]]; try discriminate Hdecos.
    inversion Hdecos. reflexivity.
Defined.

(** ** The captured images as a sliding window *)

Lemma slice_last_skipn {A} n (l : list A) :
  (1 <= n)%nat -> PolaroidMaker.slice_last n l = skipn (List.length l - n) l.
Proof.
  intros Hn. unfold PolaroidMaker.slice_last.
  destruct (n =? 0)%nat eqn:E; [apply Nat.eqb_eq in E; lia | reflexivity].
Qed.

Lemma slice_last_window {A} n (l rest : list A) :
  (1 <= n)%nat ->
  PolaroidMaker.slice_last n (PolaroidMaker.slice_last n l ++ rest)
  = PolaroidMaker.slice_last n (l ++ rest).
Proof.
  intros Hn. rewrite !slice_last_skipn by exact Hn.
  rewrite !length_app, length_skipn.
  set (d := (List.length l - n)%nat).
  assert (Happ : skipn d l ++ rest = skipn d (l ++ rest)).
  { rewrite skipn_app. replace (d - List.length l)%nat with 0%nat by lia.
    reflexivity. }
  rewrite Happ, skipn_skipn. f_equal. lia.
Qed.

Lemma slice_last_short {A} n (l : list A) :
  (List.length l <= n)%nat -> PolaroidMaker.slice_last n l = l.
Proof.
  intros H. unfold PolaroidMaker.slice_last.
  destruct (n =? 0)%nat; [reflexivity |].
  replace (List.length l - n)%nat with 0%nat by lia. reflexivity.
Qed.

Lemma addCapturedImage_window imageData st :
  (List.length (PolaroidMaker.capturedImages st)
   <= PolaroidMaker._getMaxImagesForLayout st)%nat ->
  PolaroidMaker.capturedImages (PolaroidMaker.addCapturedImage imageData st)
  = PolaroidMaker.slice_last (PolaroidMaker._getMaxImagesForLayout st)
      (PolaroidMaker.capturedImages st ++ [imageData]).
Proof.
  intros Hb. pose proof (getMaxImagesForLayout_pos st) as Hpos.
  destruct (addCapturedImage_keeps_bound imageData st Hb) as [_ ->].
  rewrite slice_last_skipn by exact Hpos. rewrite length_app. simpl List.length.
  destruct (List.length (PolaroidMaker.capturedImages st)
            =? PolaroidMaker._getMaxImagesForLayout st)%nat eqn:E.
  - apply Nat.eqb_eq in E.
    replace (List.length (PolaroidMaker.capturedImages st) + 1
             - PolaroidMaker._getMaxImagesForLayout st)%nat with 1%nat by lia.
    destruct (PolaroidMaker.capturedImages st); [simpl in E; lia | reflexivity].
  - apply Nat.eqb_neq in E.
    replace (List.length (PolaroidMaker.capturedImages st) + 1
             - PolaroidMaker._getMaxImagesForLayout st)%nat with 0%nat by lia.
    reflexivity.
Qed.

Lemma addCapturedImage_layout imageData st :
  PolaroidMaker._getMaxImagesForLayout (PolaroidMaker.addCapturedImage imageData st)
  = PolaroidMaker._getMaxImagesForLayout st.
Proof. reflexivity. Qed.

Lemma captures_window imgs : forall st,
  (List.length (PolaroidMaker.capturedImages st)
   <= PolaroidMaker._getMaxImagesForLayout st)%nat ->
  PolaroidMaker.capturedImages (PolaroidMaker.run (map PolaroidMaker.Add imgs) st)
  = PolaroidMaker.slice_last (PolaroidMaker._getMaxImagesForLayout st)
      (PolaroidMaker.capturedImages st ++ imgs)
  /\ PolaroidMaker.st_layout (PolaroidMaker.run (map PolaroidMaker.Add imgs) st)
     = PolaroidMaker.st_layout st.
Proof.
  induction imgs as [| img imgs IH]; intros st Hb.
  - simpl. rewrite app_nil_r. split; [| reflexivity].
    symmetry. now apply slice_last_short.
  - simpl PolaroidMaker.run.
    change (fold_left PolaroidMaker.step (map PolaroidMaker.Add imgs)
              (PolaroidMaker.addCapturedImage img st))
      with (PolaroidMaker.run (map PolaroidMaker.Add imgs)
              (PolaroidMaker.addCapturedImage img st)).
    destruct (IH (PolaroidMaker.addCapturedImage img st)) as [Himgs Hlayout].
    { now apply addCapturedImage_keeps_bound. }
    rewrite Himgs, Hlayout, addCapturedImage_layout.
    rewrite addCapturedImage_window by exact Hb.
    split; [| reflexivity].
    rewrite slice_last_window by apply getMaxImagesForLayout_pos.
    now rewrite <- app_assoc.
Qed.

(** X7: from a list within the capacity, any run of captures with no
    change of layout leaves exactly the most recent capacity images of
    the old list followed by the new ones, in capture order; the oldest
    are the ones dropped. *)
Theorem captures_keep_the_most_recent (imgs : list string) (st : PolaroidMaker.State) :
  (List.length (PolaroidMaker.capturedImages st)
   <= PolaroidMaker._getMaxImagesForLayout st)%nat ->
  PolaroidMaker.capturedImages (PolaroidMaker.run (map PolaroidMaker.Add imgs) st)
  = PolaroidMaker.slice_last (PolaroidMaker._getMaxImagesForLayout st)
      (PolaroidMaker.capturedImages st ++ imgs)
  /\ List.length
       (PolaroidMaker.capturedImages
          (PolaroidMaker.run (map PolaroidMaker.Add imgs) st))
     = Nat.min (List.length (PolaroidMaker.capturedImages st) + List.length imgs)
         (PolaroidMaker._getMaxImagesForLayout st).
Proof.
  intros Hb. destruct (captures_window imgs st Hb) as [Himgs _].
  split; [exact Himgs |].
  rewrite Himgs, slice_last_skipn by apply getMaxImagesForLayout_pos.
  rewrite length_skipn, length_app. lia.
Qed.

Lemma captures_keep_the_most_recent_witness :
  PolaroidMaker.capturedImages
    (PolaroidMaker.run (map PolaroidMaker.Add ["c"; "d"; "e"; "f"])
       (PolaroidMaker.run
          [PolaroidMaker.SelectLayout "collage"; PolaroidMaker.Add "a";
           PolaroidMaker.Add "b"] PolaroidMaker.initial))
  = ["d"; "e"; "f"].
Proof.
  destruct (captures_keep_the_most_recent ["c"; "d"; "e"; "f"]
              (PolaroidMaker.run
                 [PolaroidMaker.SelectLayout "collage"; PolaroidMaker.Add "a";
                  PolaroidMaker.Add "b"] PolaroidMaker.initial)) as [H _].
  - apply Nat.leb_le. reflexivity.
  - exact H.
Defined.

Lemma shift_while_longer_skipn {A} maxImages (array : list A) :
  AppJs.shift_while_longer maxImages array
  = skipn (List.length array - maxImages) array.
Proof.
  induction array as [| a rest IH]; [now destruct maxImages |].
  cbn [AppJs.shift_while_longer List.length].
  destruct (maxImages <? S (List.length rest))%nat eqn:E.
  - apply Nat.ltb_lt in E. rewrite IH.
    replace (S (List.length rest) - maxImages)%nat
      with (S (List.length rest - maxImages)) by lia.
    reflexivity.
  - apply Nat.ltb_ge in E.
    replace (S (List.length rest) - maxImages)%nat with 0%nat by lia.
    reflexivity.
Qed.

(** X8: in app.js the list after addCapturedImage is always the most
    recent capacity images of the old list followed by the new image,
    whatever the list held before, also after a change of layout. *)
Theorem AppJs_addCapturedImage_is_a_window (imageData : string)
    (st : PolaroidMaker.State) :
  PolaroidMaker.capturedImages (AppJs.addCapturedImage imageData st)
  = PolaroidMaker.slice_last (AppJs._getMaxImagesForLayout st)
      (PolaroidMaker.capturedImages st ++ [imageData])
  /\ PolaroidMaker.st_layout (AppJs.addCapturedImage imageData st)
     = PolaroidMaker.st_layout st.
Proof.
  split; [| reflexivity].
  unfold AppJs.addCapturedImage.
  cbn [PolaroidMaker.capturedImages PolaroidMaker.set_capturedImages].
  rewrite shift_while_longer_skipn, slice_last_skipn; [reflexivity |].
  unfold AppJs._getMaxImagesForLayout. destruct (String.eqb _ _); lia.
Qed.

(** X9: in the layouts single, grid-2x2 and grid-strip, and on a list
    within the capacity, addCapturedImage of the current revision and of
    app.js give the same state. *)
Theorem revisions_agree_within_capacity (imageData : string)
    (st : PolaroidMaker.State) :
  PolaroidMaker.st_layout st = "single"
  \/ PolaroidMaker.st_layout st = "grid-2x2"
  \/ PolaroidMaker.st_layout st = "grid-strip" ->
  (List.length (PolaroidMaker.capturedImages st)
   <= PolaroidMaker._getMaxImagesForLayout st)%nat ->
  AppJs.addCapturedImage imageData st = PolaroidMaker.addCapturedImage imageData st.
Proof.
  intros Hl Hb.
  assert (Hmax : AppJs._getMaxImagesForLayout st
                 = PolaroidMaker._getMaxImagesForLayout st).
  { unfold AppJs._getMaxImagesForLayout, PolaroidMaker._getMaxImagesForLayout.
    destruct Hl as [-> | [-> | ->]]; reflexivity. }
  pose proof (addCapturedImage_window imageData st Hb) as Hcur.
  pose proof (getMaxImagesForLayout_pos st) as Hpos.
  unfold AppJs.addCapturedImage, PolaroidMaker.addCapturedImage in *.
  cbn [PolaroidMaker.capturedImages PolaroidMaker.set_capturedImages] in Hcur.
  f_equal. rewrite Hcur, Hmax, shift_while_longer_skipn, slice_last_skipn by exact Hpos.
  reflexivity.
Qed.

Lemma revisions_agree_within_capacity_witness :
  AppJs.addCapturedImage "b"
    (PolaroidMaker.run [PolaroidMaker.Add "a"] PolaroidMaker.initial)
  = PolaroidMaker.addCapturedImage "b"
      (PolaroidMaker.run [PolaroidMaker.Add "a"] PolaroidMaker.initial).
Proof.
  apply revisions_agree_within_capacity.
  - left. reflexivity.
  - apply Nat.leb_le. reflexivity.
Defined.

(** ** The set of active decorations *)

Lemma Set_has_In x s : Page.Set_has x s = true <-> In x s.
Proof.
  unfold Page.Set_has. rewrite existsb_exists. split.
  - intros (y & Hin & Heq). apply String.eqb_eq in Heq. now subst.
  - intros Hin. exists x. split; [exact Hin | apply String.eqb_refl].
Qed.

Lemma Set_delete_In x y s : In y (Page.Set_delete x s) <-> In y s /\ y <> x.
Proof.
  unfold Page.Set_delete. rewrite filter_In, negb_true_iff, String.eqb_neq.
  split; intros [H1 H2]; split; auto.
Qed.

Lemma Set_delete_NoDup x s : NoDup s -> NoDup (Page.Set_delete x s).
Proof. apply NoDup_filter. Qed.

Lemma Set_delete_absent x s : ~ In x s -> Page.Set_delete x s = s.
Proof.
  intros Hx. unfold Page.Set_delete. induction s as [| y s IH]; [reflexivity |].
  simpl. destruct (String.eqb x y) eqn:E.
  - apply String.eqb_eq in E. subst. exfalso. apply Hx. now left.
  - simpl. f_equal. apply IH. intros Hin. apply Hx. now right.
Qed.

Lemma toggleDecoration_NoDup decoId st :
  NoDup (PolaroidMaker.st_decorations st) ->
  NoDup (PolaroidMaker.st_decorations (Page.toggleDecoration decoId st)).
Proof.
  intros Hnd. unfold Page.toggleDecoration, Page.set_decorations.
  cbn [PolaroidMaker.st_decorations].
  destruct (Page.Set_has decoId (PolaroidMaker.st_decorations st)) eqn:E.
  - now apply Set_delete_NoDup.
  - unfold Page.Set_add. rewrite E.
    apply NoDup_app; [exact Hnd | repeat constructor; intros [] |].
    intros x Hx [<- | []].
    apply Set_has_In in Hx. congruence.
Qed.

Lemma toggleDecoration_In decoId st x :
  In x (PolaroidMaker.st_decorations (Page.toggleDecoration decoId st)) <->
  (x <> decoId /\ In x (PolaroidMaker.st_decorations st))
  \/ (x = decoId /\ ~ In decoId (PolaroidMaker.st_decorations st)).
Proof.
  unfold Page.toggleDecoration, Page.set_decorations.
  cbn [PolaroidMaker.st_decorations].
  destruct (Page.Set_has decoId (PolaroidMaker.st_decorations st)) eqn:E.
  - apply Set_has_In in E. rewrite Set_delete_In. tauto.
  - assert (Hno : ~ In decoId (PolaroidMaker.st_decorations st)).
    { intros Hin. apply Set_has_In in Hin. congruence. }
    unfold Page.Set_add. rewrite E, in_app_iff. simpl.
    destruct (string_dec x decoId) as [-> | Hne]; [tauto |].
    split; [intros [H | [H | []]]; [tauto | congruence] | tauto].
Qed.

Lemma Set_delete_split x before after :
  ~ In x before -> ~ In x after ->
  Page.Set_delete x (before ++ x :: after) = before ++ after.
Proof.
  intros Hb Ha. unfold Page.Set_delete. rewrite filter_app. simpl.
  rewrite String.eqb_refl. simpl.
  fold (Page.Set_delete x before). fold (Page.Set_delete x after).
  now rewrite !Set_delete_absent.
Qed.

(** X10: a click on a decoration option flips the membership of that
    decoration in the set of active decorations and of no other, and the
    set, which a JavaScript [Set] keeps free of repetitions and in
    insertion order, changes in one place only: an inactive decoration is
    appended last, after the others in their order; an active one is
    taken out of its place and the others keep their order.  A decoration
    switched off and on again therefore moves to the end of the set; as
    decorations are drawn in the order of the set, it is then painted
    over the others. *)
Theorem toggleDecoration_flips_one (decoId : string) (st : PolaroidMaker.State) :
  NoDup (PolaroidMaker.st_decorations st) ->
  NoDup (PolaroidMaker.st_decorations (Page.toggleDecoration decoId st))
  /\ (In decoId (PolaroidMaker.st_decorations (Page.toggleDecoration decoId st))
      <-> ~ In decoId (PolaroidMaker.st_decorations st))
  /\ (forall x, x <> decoId ->
        (In x (PolaroidMaker.st_decorations (Page.toggleDecoration decoId st))
         <-> In x (PolaroidMaker.st_decorations st)))
  /\ (~ In decoId (PolaroidMaker.st_decorations st) ->
      PolaroidMaker.st_decorations (Page.toggleDecoration decoId st)
      = PolaroidMaker.st_decorations st ++ [decoId])
  /\ (In decoId (PolaroidMaker.st_decorations st) ->
      exists before after,
        PolaroidMaker.st_decorations st = before ++ decoId :: after
        /\ PolaroidMaker.st_decorations (Page.toggleDecoration decoId st)
           = before ++ after)
  /\ (In decoId (PolaroidMaker.st_decorations st) ->
      exists before after,
        PolaroidMaker.st_decorations st = before ++ decoId :: after
        /\ PolaroidMaker.st_decorations
             (Page.toggleDecoration decoId (Page.toggleDecoration decoId st))
           = before ++ after ++ [decoId]).
Proof.
  intros Hnd. split; [now apply toggleDecoration_NoDup |].
  split; [| split; [| split]].
  - rewrite toggleDecoration_In. tauto.
  - intros x Hx. rewrite toggleDecoration_In. tauto.
  - intros Hno.
    assert (Hhas : Page.Set_has decoId (PolaroidMaker.st_decorations st) = false).
    { apply not_true_is_false. intros E. now apply Set_has_In in E. }
    unfold Page.toggleDecoration, Page.set_decorations.
    cbn [PolaroidMaker.st_decorations].
    rewrite Hhas. unfold Page.Set_add. now rewrite Hhas.
  - assert (Hsplit : In decoId (PolaroidMaker.st_decorations st) ->
              exists before after,
                PolaroidMaker.st_decorations st = before ++ decoId :: after
                /\ ~ In decoId (before ++ after)
                /\ PolaroidMaker.st_decorations (Page.toggleDecoration decoId st)
                   = before ++ after).
    { intros Hin.
      destruct (in_split _ _ Hin) as (before & after & Hold).
      exists before, after. split; [exact Hold |].
      rewrite Hold in Hnd. apply NoDup_remove_2 in Hnd.
      split; [exact Hnd |].
      assert (Hhas : Page.Set_has decoId (PolaroidMaker.st_decorations st) = true)
        by now apply Set_has_In.
      unfold Page.toggleDecoration, Page.set_decorations.
      cbn [PolaroidMaker.st_decorations].
      rewrite Hhas, Hold. apply Set_delete_split; intros H; apply Hnd;
        apply in_app_iff; tauto. }
    split.
    + intros Hin. destruct (Hsplit Hin) as (before & after & Hold & _ & Hnew).
      now exists before, after.
    + intros Hin. destruct (Hsplit Hin) as (before & after & Hold & Hno & Hnew).
      exists before, after. split; [exact Hold |].
      assert (Hhas : Page.Set_has decoId
                       (PolaroidMaker.st_decorations (Page.toggleDecoration decoId st))
                     = false).
      { apply not_true_is_false. intros E. apply Set_has_In in E.
        rewrite Hnew in E. now apply Hno. }
      unfold Page.toggleDecoration at 1. unfold Page.set_decorations at 1.
      cbn [PolaroidMaker.st_decorations].
      rewrite Hhas. unfold Page.Set_add. rewrite Hhas, Hnew.
      now rewrite app_assoc.
Qed.

Lemma toggleDecoration_flips_one_witness :
  PolaroidMaker.st_decorations
    (Page.toggleDecoration "sparkle-decoration"
       (Page.run [Page.ToggleDecoration "ribbon-decoration";
                  Page.ToggleDecoration "heart-decoration"]
          PolaroidMaker.initial))
  = ["ribbon-decoration"; "heart-decoration"; "sparkle-decoration"]
  /\ exists before after,
       ["ribbon-decoration"; "heart-decoration"] = before ++ "ribbon-decoration" :: after
       /\ PolaroidMaker.st_decorations
            (Page.toggleDecoration "ribbon-decoration"
               (Page.run [Page.ToggleDecoration "ribbon-decoration";
                          Page.ToggleDecoration "heart-decoration"]
                  PolaroidMaker.initial))
          = before ++ after.
Proof.
  assert (Hnd : NoDup (PolaroidMaker.st_decorations
                         (Page.run [Page.ToggleDecoration "ribbon-decoration";
                                    Page.ToggleDecoration "heart-decoration"]
                            PolaroidMaker.initial))).
  { repeat constructor; simpl; intuition discriminate. }
  split.
  - destruct (toggleDecoration_flips_one "sparkle-decoration" _ Hnd)
      as (_ & _ & _ & H & _).
    rewrite H; [reflexivity |]. simpl. intuition discriminate.
  - destruct (toggleDecoration_flips_one "ribbon-decoration" _ Hnd)
      as (_ & _ & _ & _ & H & _).
    apply H. left. reflexivity.
Defined.

Lemma run_snoc acts a st :
  Page.run (acts ++ [a]) st = Page.step (Page.run acts st) a.
Proof. unfold Page.run. now rewrite fold_left_app. Qed.

Lemma decorationHTML_succeeds config st :
  Forall (fun id => lookup id (decorations config) <> None)
    (PolaroidMaker.st_decorations st) ->
  exists divs,
    Page.decorationHTML config st = Ok divs
    /\ List.length divs = List.length (PolaroidMaker.st_decorations st).
Proof.
  unfold Page.decorationHTML.
  induction 1 as [| id ids Hid _ (divs & Hdivs & Hlen)].
  - exists []. now split.
  - simpl. destruct (lookup id (decorations config)) as [d |]; [| congruence].
    rewrite Hdivs. eexists. split; [reflexivity |]. simpl. now rewrite Hlen.
Qed.

Lemma page_decorations_invariant config acts :
  Forall (Page.offered config) acts ->
  NoDup (PolaroidMaker.st_decorations (Page.run acts PolaroidMaker.initial))
  /\ Forall (fun id => lookup id (decorations config) <> None)
       (PolaroidMaker.st_decorations (Page.run acts PolaroidMaker.initial)).
Proof.
  induction acts as [| a acts IH] using rev_ind; intros Hoff.
  - split; constructor.
  - apply Forall_app in Hoff as [Hacts Ha]. inversion Ha as [| ? ? Hoffa _]; subst.
    destruct (IH Hacts) as [Hnd Hcat]. rewrite run_snoc.
    destruct a as [img | l | decoId]; simpl Page.step.
    + split; assumption.
    + split; assumption.
    + split; [now apply toggleDecoration_NoDup |].
      apply Forall_forall. intros x Hx.
      apply toggleDecoration_In in Hx as [[_ Hx] | [-> _]].
      * rewrite Forall_forall in Hcat. now apply Hcat.
      * exact Hoffa.
Qed.

(** X11: whatever the user captures, selects and toggles on the page, the
    active decorations stay a duplicate-free set of catalog ids, so the
    preview is always rendered without an error and the compositor never
    meets a decoration id that is missing from the catalog. *)
Theorem page_decorations_stay_in_catalog config world acts cv0 e cv' :
  Forall (Page.offered config) acts ->
  NoDup (PolaroidMaker.st_decorations (Page.run acts PolaroidMaker.initial))
  /\ (exists pv, Page.renderPolaroid config (Page.run acts PolaroidMaker.initial)
                 = Ok pv)
  /\ (Page.downloadPolaroid config world (Page.run acts PolaroidMaker.initial) cv0
      = (Page.Alerted e, cv') -> e <> TypeError "url").
Proof.
  intros Hoff. destruct (page_decorations_invariant config acts Hoff) as [Hnd Hcat].
  split; [exact Hnd |]. split.
  - unfold Page.renderPolaroid.
    destruct (List.length _ =? 0)%nat; [now eexists |].
    destruct (decorationHTML_succeeds config _ Hcat) as (divs & -> & _).
    destruct (String.eqb _ "single"); now eexists.
  - unfold Page.downloadPolaroid.
    destruct (CanvasDrawer.createDownloadableCanvas config world
                (PolaroidMaker.download_options
                   (Page.run acts PolaroidMaker.initial)) cv0)
      as [[cv | e1] cv1] eqn:Hrun; [discriminate |].
    intros H. inversion H; subst e1 cv1. intros ->.
    apply compose_failures in Hrun.
    destruct Hrun
      as [(_ & [(_ & id & Hin & Hnone) | [(He & _) | [(He & _) | (He & _)]]])
         | (He & _)]; try discriminate He.
    rewrite Forall_forall in Hcat. now apply (Hcat id Hin).
Qed.

Lemma page_decorations_stay_in_catalog_witness :
  exists pv,
    Page.renderPolaroid PolaroidMaker.config
      (Page.run [Page.Capture "a"; Page.ToggleDecoration "heart-decoration";
                 Page.SelectLayout "collage"] PolaroidMaker.initial)
    = Ok pv.
Proof.
  destruct (page_decorations_stay_in_catalog PolaroidMaker.config good_world
              [Page.Capture "a"; Page.ToggleDecoration "heart-decoration";
               Page.SelectLayout "collage"] blank NoImagesToDraw blank)
    as (_ & Hpv & _).
  - repeat constructor. simpl. discriminate.
  - exact Hpv.
Defined.

(** ** What the page downloads *)

Lemma download_options_length st :
  List.length (images (PolaroidMaker.download_options st))
  = Nat.min (List.length (PolaroidMaker.capturedImages st))
      (PolaroidMaker._getMaxImagesForLayout st).
Proof.
  pose proof (getMaxImagesForLayout_pos st) as Hpos.
  unfold PolaroidMaker.download_options. cbn [images].
  rewrite slice_last_skipn by exact Hpos. rewrite length_skipn. lia.
Qed.

Lemma capacity_of_state st :
  capacity (PolaroidMaker.st_layout st) = PolaroidMaker._getMaxImagesForLayout st.
Proof. reflexivity. Qed.

(** X12: whatever the list of captured images holds, a download whose
    assets load composes the most recent capacity images, in capture
    order; every polaroid lies within the surface, no two overlap, and the
    decorations are on the first polaroid only. *)
Theorem page_download_is_well_formed config world st cv0 :
  servable config world (PolaroidMaker.download_options st) = true ->
  recognized (PolaroidMaker.st_layout st) = true ->
  exists cv,
    Page.downloadPolaroid config world st cv0 = (Page.Saved cv, cv)
    /\ map cell_image (cells (pixels cv))
       = map (decoded world)
           (PolaroidMaker.slice_last (PolaroidMaker._getMaxImagesForLayout st)
              (PolaroidMaker.capturedImages st))
    /\ (forall i c, nth_error (cells (pixels cv)) i = Some c ->
          inside (cell_rect c) cv /\ (i <> 0%nat -> cell_decos c = []))
    /\ (forall i j ci cj,
          nth_error (cells (pixels cv)) i = Some ci ->
          nth_error (cells (pixels cv)) j = Some cj ->
          i <> j -> apart GRID_GAP (cell_rect ci) (cell_rect cj)).
Proof.
  intros Hs Hrec.
  set (o := PolaroidMaker.download_options st) in *.
  assert (Hcap : (List.length (images o) <= capacity (layout o))%nat).
  { unfold o. rewrite download_options_length. cbn [layout PolaroidMaker.download_options].
    rewrite capacity_of_state. lia. }
  destruct (cells_fit config world o cv0 Hs Hrec Hcap)
    as (cv & Hrun & Hlen & Hinside & Hapart).
  pose proof (servable_loads _ _ _ Hs) as (_ & _ & _ & _ & Hne & Hall & _).
  exists cv. unfold Page.downloadPolaroid. fold o. rewrite Hrun.
  split; [reflexivity |]. split; [| split].
  - destruct (String.eqb (layout o) "collage") eqn:Hl.
    + apply String.eqb_eq in Hl.
      destruct (compose_collage_cells config world o cv0 Hs Hl)
        as (cv2 & decoMap & _ & Hrun2 & Hcells).
      rewrite Hrun in Hrun2. inversion Hrun2; subst cv2.
      rewrite Hcells, collage_cell_images by exact Hall.
      rewrite Hl in Hcap. change (capacity "collage") with 3%nat in Hcap.
      rewrite firstn_all2; [reflexivity | now rewrite length_map].
    + destruct (compose_grid_cells config world o cv0 Hs Hl)
        as (cv2 & decoMap & _ & Hrun2 & _ & _ & Hcells).
      rewrite Hrun in Hrun2. inversion Hrun2; subst cv2.
      rewrite Hcells, <- (length_map (decoded world)).
      now apply grid_cell_images.
  - intros i c Hnth. split; [now apply (Hinside i) |].
    intros Hi.
    destruct (String.eqb (layout o) "collage") eqn:Hl.
    + apply String.eqb_eq in Hl.
      destruct (compose_collage_cells config world o cv0 Hs Hl)
        as (cv2 & decoMap & _ & Hrun2 & Hcells).
      rewrite Hrun in Hrun2. inversion Hrun2; subst cv2.
      rewrite Hcells in Hnth.
      destruct (collage_cell_decos _ _ _ _ _ Hall Hnth) as [Hd _].
      rewrite Hd. destruct i; [congruence | reflexivity].
    + destruct (compose_grid_cells config world o cv0 Hs Hl)
        as (cv2 & decoMap & _ & Hrun2 & _ & _ & Hcells).
      rewrite Hrun in Hrun2. inversion Hrun2; subst cv2.
      rewrite Hcells in Hnth. apply nth_error_grid_cell in Hnth as [Hlt ->].
      rewrite grid_cell_decos.
      destruct i as [| i]; [congruence |]. cbn [Nat.eqb orb].
      destruct (String.eqb (layout o) "single") eqn:Hsingle; [| reflexivity].
      apply String.eqb_eq in Hsingle. rewrite Hsingle in Hcap.
      change (capacity "single") with 1%nat in Hcap. lia.
  - exact Hapart.
Qed.

Lemma page_download_is_well_formed_witness :
  exists cv,
    Page.downloadPolaroid PolaroidMaker.config good_world
      (PolaroidMaker.run
         [PolaroidMaker.SelectLayout "grid-2x2"; PolaroidMaker.Add "a";
          PolaroidMaker.Add "b"; PolaroidMaker.Add "c"; PolaroidMaker.Add "d";
          PolaroidMaker.SelectLayout "single"; PolaroidMaker.Add "e"]
         PolaroidMaker.initial) blank
    = (Page.Saved cv, cv)
    /\ map cell_image (cells (pixels cv)) = [Some (photo "e")].
Proof.
  destruct (page_download_is_well_formed PolaroidMaker.config good_world
              (PolaroidMaker.run
                 [PolaroidMaker.SelectLayout "grid-2x2"; PolaroidMaker.Add "a";
                  PolaroidMaker.Add "b"; PolaroidMaker.Add "c"; PolaroidMaker.Add "d";
                  PolaroidMaker.SelectLayout "single"; PolaroidMaker.Add "e"]
                 PolaroidMaker.initial) blank)
    as (cv & Hrun & Himgs & _); [reflexivity | reflexivity |].
  exists cv. split; [exact Hrun | exact Himgs].
Defined.

(** ** The preview and the download *)

(** Cell [i] of a grid composition. *)
Lemma grid_cell_view o loaded decoMap i :
  all_shown loaded -> (i < List.length loaded)%nat ->
  (layout o = "single" -> (List.length loaded <= 1)%nat) ->
  cell_image (grid_cell o loaded decoMap i) = index loaded i
  /\ cell_caption (grid_cell o loaded decoMap i)
     = (if (Z.of_nat i =? Z.of_nat (List.length loaded) - 1)%Z then text o else "")
  /\ cell_decos (grid_cell o loaded decoMap i)
     = (if (i =? 0)%nat then map snd decoMap else []).
Proof.
  intros Hall Hi Hsingle. split; [| split].
  - unfold grid_cell. cbn [cell_image].
    destruct (all_shown_index loaded i Hall Hi) as (img & -> & Hpos).
    simpl. now rewrite Hpos.
  - reflexivity.
  - rewrite grid_cell_decos.
    destruct (String.eqb (layout o) "single") eqn:Hl.
    + apply String.eqb_eq in Hl. specialize (Hsingle Hl).
      assert (i = 0%nat) as -> by lia. reflexivity.
    + now rewrite orb_false_r.
Qed.

(** Cell [i] of a collage of two or three images. *)
Lemma collage_cell_view o loaded decoMap i c :
  all_shown loaded ->
  (2 <= List.length loaded <= 3)%nat ->
  nth_error
    (large_cells loaded decoMap ++ flat_map (small_cells o loaded) (seq 1 2)) i
  = Some c ->
  (i < List.length loaded)%nat
  /\ cell_image c = index loaded i
  /\ cell_caption c
     = (if (Z.of_nat i =? Z.of_nat (List.length loaded) - 1)%Z then text o else "")
  /\ cell_decos c = (if (i =? 0)%nat then map snd decoMap else []).
Proof.
  intros Hall Hlen.
  unfold large_cells, small_cells, grid_text, last_index, index, polaroid_cell.
  destruct Hall as [| a l1 (ia & -> & Ha) Hall]; [simpl in Hlen; lia |].
  destruct Hall as [| b l2 (ib & -> & Hb) Hall]; [simpl in Hlen; lia |].
  destruct Hall as [| d l3 (ic & -> & Hc) Hall].
  - destruct i as [| [| i]]; simpl; rewrite ?Ha, ?Hb;
      try (destruct i; discriminate);
      intros H; inversion H; subst; cbn [cell_image cell_caption cell_decos];
      (split; [lia | split; [reflexivity | split; reflexivity]]).
  - destruct Hall as [| x l4 _ _]; [| simpl in Hlen; lia].
    destruct i as [| [| [| i]]]; simpl; rewrite ?Ha, ?Hb, ?Hc;
      try (destruct i; discriminate);
      intros H; inversion H; subst; cbn [cell_image cell_caption cell_decos];
      (split; [lia | split; [reflexivity | split; reflexivity]]).
Qed.

(** The cells of a composition within the capacity of its layout (for the
    collage, of at least two images): cell [i] shows image [i]; the last
    cell has the caption, the first one the decorations. *)
Lemma composition_cells config world o cv0 :
  servable config world o = true ->
  (List.length (images o) <= capacity (layout o))%nat ->
  (layout o = "collage" -> (2 <= List.length (images o))%nat) ->
  exists cv decoMap,
    CanvasDrawer._loadAssets config world (images o) (opt_decorations o)
    = Ok (map (decoded world) (images o), decoMap)
    /\ CanvasDrawer.createDownloadableCanvas config world o cv0 = (Ok cv, cv)
    /\ forall i c, nth_error (cells (pixels cv)) i = Some c ->
         (i < List.length (images o))%nat
         /\ cell_image c = index (map (decoded world) (images o)) i
         /\ cell_caption c
            = (if (Z.of_nat i =? Z.of_nat (List.length (images o)) - 1)%Z
               then text o else "")
         /\ cell_decos c = (if (i =? 0)%nat then map snd decoMap else []).
Proof.
  intros Hs Hcap Hcollage.
  pose proof (servable_loads _ _ _ Hs) as (_ & _ & _ & _ & _ & Hall & _).
  destruct (String.eqb (layout o) "collage") eqn:Hl.
  - apply String.eqb_eq in Hl.
    destruct (compose_collage_cells config world o cv0 Hs Hl)
      as (cv & decoMap & Hload & Hrun & Hcells).
    exists cv, decoMap. split; [exact Hload |]. split; [exact Hrun |].
    intros i c Hnth. rewrite Hcells in Hnth.
    specialize (Hcollage Hl). rewrite Hl in Hcap.
    change (capacity "collage") with 3%nat in Hcap.
    rewrite <- (length_map (decoded world)) in Hcap, Hcollage |- *.
    apply (collage_cell_view o _ decoMap i c Hall); [lia | exact Hnth].
  - destruct (compose_grid_cells config world o cv0 Hs Hl)
      as (cv & decoMap & Hload & Hrun & _ & _ & Hcells).
    exists cv, decoMap. split; [exact Hload |]. split; [exact Hrun |].
    intros i c Hnth. rewrite Hcells in Hnth.
    apply nth_error_grid_cell in Hnth as [Hlt ->].
    split; [exact Hlt |].
    rewrite <- (length_map (decoded world)) in Hlt |- *.
    apply grid_cell_view; [exact Hall | exact Hlt |].
    intros Hsingle. rewrite Hsingle in Hcap.
    change (capacity "single") with 1%nat in Hcap.
    now rewrite length_map.
Qed.

(** The decoration elements of the preview name the assets the download
    draws. *)
Lemma decorationHTML_assets config world st :
  decorations_load config world (PolaroidMaker.st_decorations st) = true ->
  exists divs,
    Page.decorationHTML config st = Ok divs
    /\ map (fun d => decoded world (Page.dd_url d)) divs
       = map (fun id => option_map snd (settled config world id))
           (PolaroidMaker.st_decorations st).
Proof.
  unfold Page.decorationHTML, decorations_load.
  induction (PolaroidMaker.st_decorations st) as [| id ids IH]; intros Hload.
  - exists []. now split.
  - simpl in Hload. apply andb_true_iff in Hload as [Hid Hids].
    destruct (IH Hids) as (divs & Hdivs & Hmap).
    simpl. unfold settled at 1.
    destruct (lookup id (decorations config)) as [d |]; [| discriminate].
    rewrite Hdivs. eexists. split; [reflexivity |].
    simpl. rewrite Hmap. f_equal.
    unfold decoded. now destruct (decode world (url d)).
Qed.

(** Slot [i] of the preview. *)
Lemma preview_slot config st divs i :
  PolaroidMaker.capturedImages st <> [] ->
  Page.decorationHTML config st = Ok divs ->
  Forall (fun s => truthy_string s = true) (PolaroidMaker.capturedImages st) ->
  (i < PolaroidMaker._getMaxImagesForLayout st)%nat ->
  exists pv p,
    Page.renderPolaroid config st = Ok pv
    /\ List.length (Page.slots pv) = PolaroidMaker._getMaxImagesForLayout st
    /\ nth_error (Page.slots pv) i = Some p
    /\ Page.pd_src p
       = nth i (images (PolaroidMaker.download_options st)) Page.placeholder
    /\ Page.pd_text p
       = (if (Z.of_nat i
              =? Z.of_nat (List.length (images (PolaroidMaker.download_options st))) - 1)%Z
          then PolaroidMaker.polaroidText st else "")
    /\ Page.pd_decorations p = (if (i =? 0)%nat then divs else []).
Proof.
  intros Hne Hdivs Htruthy Hi.
  pose proof (download_options_length st) as Hlen.
  assert (Htr : Forall (fun s => truthy_string s = true)
                  (images (PolaroidMaker.download_options st))).
  { cbn [images PolaroidMaker.download_options].
    rewrite slice_last_skipn by apply getMaxImagesForLayout_pos.
    rewrite Forall_forall in *. intros s Hin. apply Htruthy.
    rewrite <- (firstn_skipn
                  (List.length (PolaroidMaker.capturedImages st)
                   - PolaroidMaker._getMaxImagesForLayout st)).
    apply in_or_app. now right. }
  unfold Page.renderPolaroid. rewrite Hdivs.
  destruct (PolaroidMaker.capturedImages st) as [| s0 rest] eqn:Hcap;
    [congruence |].
  cbn [List.length Nat.eqb]. rewrite <- Hcap.
  change (PolaroidMaker.slice_last (PolaroidMaker._getMaxImagesForLayout st)
            (PolaroidMaker.capturedImages st))
    with (images (PolaroidMaker.download_options st)).
  assert (Hcaplen : (1 <= List.length (PolaroidMaker.capturedImages st))%nat).
  { rewrite Hcap. simpl. lia. }
  destruct (String.eqb (PolaroidMaker.st_layout st) "single") eqn:Hl.
  - assert (Hmax : PolaroidMaker._getMaxImagesForLayout st = 1%nat).
    { unfold PolaroidMaker._getMaxImagesForLayout. now rewrite Hl. }
    rewrite Hmax in *. assert (i = 0%nat) as -> by lia.
    eexists. eexists. split; [reflexivity |]. cbn [Page.slots nth_error].
    split; [reflexivity |]. split; [reflexivity |].
    cbn [Page.pd_src Page.pd_text Page.pd_decorations Nat.eqb].
    destruct (images (PolaroidMaker.download_options st)) as [| s [| s' l]];
      simpl in Hlen; try lia.
    split; [reflexivity |]. split; reflexivity.
  - eexists. eexists. split; [reflexivity |]. cbn [Page.slots].
    split; [now rewrite length_map, length_seq |].
    split.
    { rewrite nth_error_map, nth_error_seq.
      apply Nat.ltb_lt in Hi as ->. reflexivity. }
    cbn [Page.pd_src Page.pd_text Page.pd_decorations Nat.add].
    split; [| split; reflexivity].
    destruct (nth_error (images (PolaroidMaker.download_options st)) i)
      as [s |] eqn:Hnth.
    + rewrite (nth_error_nth _ _ _ Hnth).
      rewrite Forall_forall in Htr. now rewrite (Htr s (nth_error_In _ _ Hnth)).
    + apply nth_error_None in Hnth. now rewrite nth_overflow.
Qed.

Lemma composition_cell_count config world o cv0 cv cv' :
  servable config world o = true ->
  (List.length (images o) <= capacity (layout o))%nat ->
  CanvasDrawer.createDownloadableCanvas config world o cv0 = (Ok cv, cv') ->
  List.length (cells (pixels cv)) = List.length (images o).
Proof.
  intros Hs Hcap H.
  pose proof (servable_loads _ _ _ Hs) as (_ & _ & _ & _ & _ & Hall & _).
  destruct (returned_cells _ _ _ _ _ _ H) as (decoMap & _ & _ & _ & Hcollage & Hgrid).
  destruct (String.eqb (layout o) "collage") eqn:Hl.
  - apply String.eqb_eq in Hl. rewrite (Hcollage Hl).
    rewrite <- (length_map cell_image), collage_cell_images by exact Hall.
    rewrite Hl in Hcap. change (capacity "collage") with 3%nat in Hcap.
    rewrite length_firstn, length_map. lia.
  - assert (Hl' : layout o <> "collage")
      by (intros E; rewrite E in Hl; discriminate).
    destruct (Hgrid Hl') as (_ & _ & _ & Hcells).
    now rewrite Hcells, length_map, length_seq.
Qed.

(** X13: when the assets of the current selections load, no interpolated
    value contains a character of markup and, in the collage layout, at
    least two images are captured, the download shows what the preview
    shows.  The preview has one slot per place of the layout and the
    download one polaroid per image to render; polaroid i and slot i exist
    together for every i below the number of images, with the same image,
    the same caption and the same decoration assets; the slots from that
    number on are empty placeholders, which the download leaves out.  (A
    collage of a single image is excepted: there the two differ in the
    caption.) *)
Theorem download_matches_preview config world st cv0 :
  servable config world (PolaroidMaker.download_options st) = true ->
  forallb markup_free (interpolated config st) = true ->
  NoDup (PolaroidMaker.st_decorations st) ->
  Forall (fun s => truthy_string s = true) (PolaroidMaker.capturedImages st) ->
  (PolaroidMaker.st_layout st = "collage" ->
   (2 <= List.length (PolaroidMaker.capturedImages st))%nat) ->
  exists cv pv,
    Page.downloadPolaroid config world st cv0 = (Page.Saved cv, cv)
    /\ Page.renderPolaroid config st = Ok pv
    /\ List.length (Page.slots pv) = PolaroidMaker._getMaxImagesForLayout st
    /\ List.length (cells (pixels cv))
       = List.length (images (PolaroidMaker.download_options st))
    /\ (1 <= List.length (images (PolaroidMaker.download_options st))
        <= PolaroidMaker._getMaxImagesForLayout st)%nat
    /\ (forall i,
          (i < List.length (images (PolaroidMaker.download_options st)))%nat ->
          exists c p,
            nth_error (cells (pixels cv)) i = Some c
            /\ nth_error (Page.slots pv) i = Some p
            /\ Page.pd_src p = nth i (images (PolaroidMaker.download_options st)) ""
            /\ cell_image c = decoded world (Page.pd_src p)
            /\ cell_caption c = Page.pd_text p
            /\ map Some (cell_decos c)
               = map (fun d => decoded world (Page.dd_url d)) (Page.pd_decorations p))
    /\ (forall i p, nth_error (Page.slots pv) i = Some p ->
          (List.length (images (PolaroidMaker.download_options st)) <= i)%nat ->
          nth_error (cells (pixels cv)) i = None
          /\ Page.pd_src p = Page.placeholder
          /\ Page.pd_text p = ""
          /\ Page.pd_decorations p = []).
Proof.
  intros Hs _ Hnodup Htruthy Hcollage.
  set (o := PolaroidMaker.download_options st) in *.
  pose proof (download_options_length st) as Hlen. fold o in Hlen.
  pose proof (getMaxImagesForLayout_pos st) as Hpos.
  pose proof (servable_loads _ _ _ Hs) as (_ & _ & _ & _ & Hne & _ & _).
  assert (Hcapne : PolaroidMaker.capturedImages st <> []).
  { intros Hnil. apply Hne.
    assert (Hzero : List.length (images o) = 0%nat)
      by (rewrite Hlen, Hnil; reflexivity).
    apply length_zero_iff_nil in Hzero. now rewrite Hzero. }
  assert (Hdl : decorations_load config world (PolaroidMaker.st_decorations st) = true).
  { unfold servable in Hs. apply andb_true_iff in Hs as [Hs _].
    now apply andb_true_iff in Hs as [_ Hs]. }
  assert (Hwithin : (List.length (images o) <= capacity (layout o))%nat).
  { rewrite Hlen. unfold o. cbn [layout PolaroidMaker.download_options].
    rewrite capacity_of_state. lia. }
  destruct (decorationHTML_assets config world st Hdl) as (divs & Hdivs & Hassets).
  destruct (composition_cells config world o cv0 Hs Hwithin)
    as (cv & decoMap & Hload & Hrun & Hcells).
  { intros Hl. specialize (Hcollage Hl). rewrite Hlen.
    unfold PolaroidMaker._getMaxImagesForLayout.
    change (layout o) with (PolaroidMaker.st_layout st) in Hl. rewrite Hl.
    simpl. lia. }
  pose proof (composition_cell_count _ _ _ _ _ _ Hs Hwithin Hrun) as Hcount.
  destruct (loadAssets_entries config world (images o)
              (PolaroidMaker.st_decorations st) Hdl Hnodup)
    as (decoMap' & Hload' & Hentries).
  change (opt_decorations o) with (PolaroidMaker.st_decorations st) in Hload.
  rewrite Hload in Hload'. inversion Hload'; subst decoMap'.
  assert (Hdecos : map Some (map snd decoMap)
                   = map (fun d => decoded world (Page.dd_url d)) divs).
  { rewrite Hassets, <- (map_map (settled config world) (option_map snd)).
    rewrite <- Hentries. now rewrite !map_map. }
  destruct (preview_slot config st divs 0 Hcapne Hdivs Htruthy Hpos)
    as (pv & _ & Hpv & Hslots & _).
  assert (Hn : (1 <= List.length (images o))%nat).
  { destruct (images o); [now contradiction Hne | simpl; lia]. }
  assert (Hmax : (List.length (images o) <= PolaroidMaker._getMaxImagesForLayout st)%nat).
  { rewrite Hlen. lia. }
  exists cv, pv. unfold Page.downloadPolaroid. fold o. rewrite Hrun.
  split; [reflexivity |]. split; [exact Hpv |]. split; [exact Hslots |].
  split; [exact Hcount |]. split; [lia |].
  split.
  - intros i Hi.
    destruct (nth_error (cells (pixels cv)) i) as [c |] eqn:Hnth.
    2: { apply nth_error_None in Hnth. lia. }
    destruct (Hcells i c Hnth) as (_ & Himg & Hcap & Hdec).
    destruct (preview_slot config st divs i Hcapne Hdivs Htruthy)
      as (pv' & p & Hpv' & _ & Hp & Hsrc & Htext & Hpd); [lia |].
    rewrite Hpv in Hpv'. inversion Hpv'; subst pv'.
    exists c, p. split; [reflexivity |]. split; [exact Hp |].
    fold o in Hsrc, Htext.
    assert (Hsrc' : Page.pd_src p = nth i (images o) "").
    { rewrite Hsrc. apply nth_indep. exact Hi. }
    split; [exact Hsrc' |].
    split; [| split].
    + rewrite Himg, Hsrc'. unfold index. rewrite nth_error_map.
      destruct (nth_error (images o) i) as [s |] eqn:Hs'.
      * now rewrite (nth_error_nth _ _ _ Hs').
      * apply nth_error_None in Hs'. lia.
    + now rewrite Hcap, Htext.
    + rewrite Hdec, Hpd. destruct (i =? 0)%nat; [exact Hdecos | reflexivity].
  - intros i p Hp Hi.
    assert (Hlt : (i < PolaroidMaker._getMaxImagesForLayout st)%nat).
    { rewrite <- Hslots. apply nth_error_Some. congruence. }
    destruct (preview_slot config st divs i Hcapne Hdivs Htruthy Hlt)
      as (pv' & p' & Hpv' & _ & Hp' & Hsrc & Htext & Hpd).
    rewrite Hpv in Hpv'. inversion Hpv'; subst pv'.
    rewrite Hp in Hp'. inversion Hp'; subst p'. fold o in Hsrc, Htext.
    split; [apply nth_error_None; lia |].
    split; [| split].
    + rewrite Hsrc. now apply nth_overflow.
    + rewrite Htext.
      destruct (Z.of_nat i =? Z.of_nat (List.length (images o)) - 1)%Z eqn:E;
        [apply Z.eqb_eq in E; lia | reflexivity].
    + rewrite Hpd. destruct i; [lia | reflexivity].
Qed.

Lemma download_matches_preview_witness :
  exists cv pv c p,
    Page.downloadPolaroid PolaroidMaker.config good_world
      (Page.run [Page.SelectLayout "grid-2x2"; Page.ToggleDecoration "heart-decoration";
                 Page.Capture "a"; Page.Capture "b"] PolaroidMaker.initial) blank
    = (Page.Saved cv, cv)
    /\ Page.renderPolaroid PolaroidMaker.config
         (Page.run [Page.SelectLayout "grid-2x2"; Page.ToggleDecoration "heart-decoration";
                    Page.Capture "a"; Page.Capture "b"] PolaroidMaker.initial)
       = Ok pv
    /\ List.length (Page.slots pv) = 4%nat
    /\ List.length (cells (pixels cv)) = 2%nat
    /\ nth_error (cells (pixels cv)) 1 = Some c
    /\ nth_error (Page.slots pv) 1 = Some p
    /\ Page.pd_src p = "b"
    /\ cell_image c = Some (photo "b").
Proof.
  destruct (download_matches_preview PolaroidMaker.config good_world
              (Page.run [Page.SelectLayout "grid-2x2";
                         Page.ToggleDecoration "heart-decoration";
                         Page.Capture "a"; Page.Capture "b"] PolaroidMaker.initial)
              blank)
    as (cv & pv & Hrun & Hpv & Hlen & Hcount & _ & Hboth & _).
  - reflexivity.
  - reflexivity.
  - vm_compute. repeat constructor; simpl; intuition discriminate.
  - vm_compute. repeat constructor.
  - intros Hl. vm_compute in Hl. discriminate Hl.
  - destruct (Hboth 1%nat) as (c & p & Hc & Hp & Hsrc & Himg & _).
    { vm_compute. repeat constructor. }
    exists cv, pv, c, p. split; [exact Hrun |]. split; [exact Hpv |].
    split; [exact Hlen |]. split; [exact Hcount |].
    split; [exact Hc |]. split; [exact Hp |].
    split; [exact Hsrc |]. rewrite Himg, Hsrc. reflexivity.
Defined.

(** ** The camera, the shutter and the timer *)

Section BoothProperties.

Variable config : Config.
Variable world : World.
Variable video : option nat -> Z -> Image.
Variable toDataURL : Q -> Q -> list draw_op -> string.

Local Abbreviation renderPolaroid := (Booth.renderPolaroid config).
Local Abbreviation addCapturedImage := (Booth.addCapturedImage config).
Local Abbreviation capturePhoto := (Booth.capturePhoto config video toDataURL).
Local Abbreviation handler := (Booth.handler config world video toDataURL).
Local Abbreviation dispatch := (Booth.dispatch config world video toDataURL).
Local Abbreviation run := (Booth.run config world video toDataURL).

Lemma Page_renderPolaroid_succeeds st :
  Forall (fun id => lookup id (decorations config) <> None)
    (PolaroidMaker.st_decorations st) ->
  exists pv, Page.renderPolaroid config st = Ok pv.
Proof.
  intros Hcat. destruct (decorationHTML_succeeds config st Hcat) as (divs & Hdivs & _).
  unfold Page.renderPolaroid. rewrite Hdivs.
  destruct (List.length (PolaroidMaker.capturedImages st) =? 0)%nat;
    [now eexists |].
  destruct (String.eqb (PolaroidMaker.st_layout st) "single"); now eexists.
Qed.

(** [renderPolaroid] on a page whose decorations are in the catalog. *)
Lemma renderPolaroid_runs p :
  Forall (fun id => lookup id (decorations config) <> None)
    (PolaroidMaker.st_decorations (Booth.pm (Booth.app_state p))) ->
  exists pv,
    renderPolaroid p
    = (Ok tt, Booth.set_controls (Booth.controls_for (Booth.app_state p))
                (Booth.set_polaroidContainer pv p)).
Proof.
  intros Hcat.
  destruct (Page_renderPolaroid_succeeds _ Hcat) as (pv & Hpv).
  exists pv. unfold Booth.renderPolaroid, Booth.hbind, Booth.get_state.
  rewrite Hpv. reflexivity.
Qed.

Lemma addCapturedImage_runs imageData p :
  Forall (fun id => lookup id (decorations config) <> None)
    (PolaroidMaker.st_decorations (Booth.pm (Booth.app_state p))) ->
  exists pv,
    addCapturedImage imageData p
    = (Ok tt,
       Booth.set_controls
         (Booth.controls_for
            (Booth.with_pm (PolaroidMaker.addCapturedImage imageData)
               (Booth.app_state p)))
         (Booth.set_polaroidContainer pv
            (Booth.upd_state
               (Booth.with_pm (PolaroidMaker.addCapturedImage imageData)) p))).
Proof.
  intros Hcat.
  destruct (renderPolaroid_runs
              (Booth.upd_state
                 (Booth.with_pm (PolaroidMaker.addCapturedImage imageData)) p))
    as (pv & Hpv); [exact Hcat |].
  exists pv. unfold Booth.addCapturedImage, Booth.hbind at 1 2.
  unfold Booth.modify at 1. rewrite Hpv. reflexivity.
Qed.

Lemma hbind_Ok {A B} (m : Booth.H A) (k : A -> Booth.H B) p a p' :
  m p = (Ok a, p') -> Booth.hbind m k p = k a p'.
Proof. intros Hm. unfold Booth.hbind. now rewrite Hm. Qed.

Ltac booth_cbn :=
  cbv beta delta
      [Booth.upd_state Booth.set_controls Booth.set_polaroidContainer
       Booth.upd_camera_view Booth.upd_timer_view Booth.set_inputs
       Booth.set_canvas Booth.set_tracks Booth.set_downloads Booth.set_now
       Booth.set_timers
       Booth.with_pm Booth.set_isStreaming Booth.set_isTimerActive
       Booth.set_facingMode Booth.set_stream Booth.set_videoDeviceCount];
  cbn [Booth.app_state Booth.controls Booth.polaroidContainer Booth.camera_view
       Booth.timer_view Booth.inputs Booth.canvas Booth.tracks Booth.downloads
       Booth.now Booth.timers
       Booth.pm Booth.isStreaming Booth.isTimerActive Booth.facingMode
       Booth.stream Booth.videoDeviceCount
       Booth.srcObject Booth.cameraOverlay_hidden Booth.cameraOverlay_text
       Booth.startCameraBtn
       Booth.timerStatus Booth.countdownOverlay_active Booth.countdownNumber
       Booth.flashEffect_active
       Booth.photoCount Booth.photoCount_max Booth.timerDelay
       Booth.captureBtn_disabled Booth.startTimerBtn_disabled
       Booth.downloadBtn_disabled Booth.switchCameraBtn_disabled
       Booth.emptyState_hidden
       Booth.photosTaken Booth.photosToTake Booth.delay
       fst snd].

Ltac booth_cbn_all :=
  cbv beta delta
      [Booth.upd_state Booth.set_controls Booth.set_polaroidContainer
       Booth.upd_camera_view Booth.upd_timer_view Booth.set_inputs
       Booth.set_canvas Booth.set_tracks Booth.set_downloads Booth.set_now
       Booth.set_timers
       Booth.with_pm Booth.set_isStreaming Booth.set_isTimerActive
       Booth.set_facingMode Booth.set_stream Booth.set_videoDeviceCount] in *;
  cbn [Booth.app_state Booth.controls Booth.polaroidContainer Booth.camera_view
       Booth.timer_view Booth.inputs Booth.canvas Booth.tracks Booth.downloads
       Booth.now Booth.timers
       Booth.pm Booth.isStreaming Booth.isTimerActive Booth.facingMode
       Booth.stream Booth.videoDeviceCount
       Booth.srcObject Booth.cameraOverlay_hidden Booth.cameraOverlay_text
       Booth.startCameraBtn
       Booth.timerStatus Booth.countdownOverlay_active Booth.countdownNumber
       Booth.flashEffect_active
       Booth.photoCount Booth.photoCount_max Booth.timerDelay
       Booth.captureBtn_disabled Booth.startTimerBtn_disabled
       Booth.downloadBtn_disabled Booth.switchCameraBtn_disabled
       Booth.emptyState_hidden
       Booth.photosTaken Booth.photosToTake Booth.delay
       fst snd] in *.

Ltac hstep := erewrite hbind_Ok by reflexivity; cbv beta; booth_cbn.

(** The shutter: what [capturePhoto] does on a streaming camera. *)
Lemma capturePhoto_runs p :
  Booth.isStreaming (Booth.app_state p) = true ->
  Forall (fun id => lookup id (decorations config) <> None)
    (PolaroidMaker.st_decorations (Booth.pm (Booth.app_state p))) ->
  exists pv, capturePhoto p = (Ok tt, Booth.captured video toDataURL pv p).
Proof.
  destruct p as [s c pc cam tv inp cv trk dl t q]. booth_cbn.
  intros Hstreaming Hcat. unfold Booth.capturePhoto.
  hstep. rewrite Hstreaming. cbn [negb].
  hstep. hstep.
  destruct (String.eqb (Booth.facingMode s) "user") eqn:Hfacing.
  - hstep. hstep.
    unfold Booth.hbind at 1. booth_cbn.
    match goal with
    | |- context [Booth.addCapturedImage config ?d ?q] =>
        destruct (addCapturedImage_runs d q Hcat) as (pv & Hpv)
    end.
    exists pv. rewrite Hpv.
    unfold Booth.captured, Booth.shot, Booth.snapshot, Booth.shot. booth_cbn.
    rewrite Hfacing. reflexivity.
  - hstep. hstep.
    unfold Booth.hbind at 1. booth_cbn.
    match goal with
    | |- context [Booth.addCapturedImage config ?d ?q] =>
        destruct (addCapturedImage_runs d q Hcat) as (pv & Hpv)
    end.
    exists pv. rewrite Hpv.
    unfold Booth.captured, Booth.shot, Booth.snapshot, Booth.shot. booth_cbn.
    rewrite Hfacing. reflexivity.
Qed.

Lemma waiting_enqueue due t q :
  List.length (filter Booth.of_sequence (map snd (Booth.enqueue due t q)))
  = (List.length (filter Booth.of_sequence (map snd q))
     + if Booth.of_sequence t then 1 else 0)%nat.
Proof.
  induction q as [| [d t'] q IH]; simpl.
  - destruct (Booth.of_sequence t); reflexivity.
  - destruct (due <? d)%Z; simpl.
    + destruct (Booth.of_sequence t), (Booth.of_sequence t'); simpl; lia.
    + destruct (Booth.of_sequence t'); simpl; rewrite IH; lia.
Qed.

Ltac booth_open p H :=
  destruct p as [s c pc cam tv inp cv trk dl t q];
  destruct H as [Hcontrols Hstreaming Htracks Hsrc Hnodup Hcat];
  cbn [Booth.app_state Booth.controls Booth.camera_view Booth.tracks
       Booth.timers] in *.

(** Coherence does not depend on the timer elements, the number fields,
    the canvas, the downloads, the clock or the queue. *)
Lemma coherent_ext p p' :
  Booth.app_state p' = Booth.app_state p ->
  Booth.controls p' = Booth.controls p ->
  Booth.tracks p' = Booth.tracks p ->
  Booth.srcObject (Booth.camera_view p') = Booth.srcObject (Booth.camera_view p) ->
  Booth.coherent config p -> Booth.coherent config p'.
Proof.
  intros Hs Hc Ht Hv [H1 H2 H3 H4 H5 H6].
  constructor; rewrite ?Hs, ?Hc, ?Ht, ?Hv; assumption.
Qed.

(** A method that changes the selections or the image list and ends with
    a call of [_updateUI]. *)
Lemma coherent_updated f c' pv p :
  Booth.coherent config p ->
  NoDup (PolaroidMaker.st_decorations (f (Booth.pm (Booth.app_state p)))) ->
  Forall (fun id => lookup id (decorations config) <> None)
    (PolaroidMaker.st_decorations (f (Booth.pm (Booth.app_state p)))) ->
  c' = Booth.controls_for (Booth.with_pm f (Booth.app_state p)) ->
  Booth.coherent config
    (Booth.set_controls c'
       (Booth.set_polaroidContainer pv (Booth.upd_state (Booth.with_pm f) p))).
Proof.
  intros Hp Hnd Hc ->. booth_open p Hp.
  constructor; booth_cbn; assumption || reflexivity.
Qed.

Lemma coherent_render f p :
  Booth.coherent config p ->
  NoDup (PolaroidMaker.st_decorations (f (Booth.pm (Booth.app_state p)))) ->
  Forall (fun id => lookup id (decorations config) <> None)
    (PolaroidMaker.st_decorations (f (Booth.pm (Booth.app_state p)))) ->
  exists p',
    Booth.hbind (Booth.modify (Booth.upd_state (Booth.with_pm f)))
      (fun _ => renderPolaroid) p = (Ok tt, p')
    /\ Booth.coherent config p'
    /\ Booth.timers p' = Booth.timers p
    /\ Booth.isTimerActive (Booth.app_state p')
       = Booth.isTimerActive (Booth.app_state p).
Proof.
  intros Hp Hnd Hc.
  destruct (renderPolaroid_runs (Booth.upd_state (Booth.with_pm f) p))
    as (pv & Hpv).
  { destruct p. exact Hc. }
  eexists. split; [erewrite hbind_Ok by reflexivity; exact Hpv |].
  split; [now apply coherent_updated |].
  destruct p. split; reflexivity.
Qed.

Lemma coherent_addCapturedImage imageData p :
  Booth.coherent config p ->
  exists p',
    addCapturedImage imageData p = (Ok tt, p')
    /\ Booth.coherent config p'
    /\ Booth.timers p' = Booth.timers p
    /\ Booth.isTimerActive (Booth.app_state p')
       = Booth.isTimerActive (Booth.app_state p).
Proof.
  intros Hp.
  destruct (addCapturedImage_runs imageData p (Booth.decorations_ok _ _ Hp))
    as (pv & Hpv).
  eexists. split; [exact Hpv |].
  split.
  - apply coherent_updated; try reflexivity; try exact Hp.
    + exact (Booth.decorations_distinct _ _ Hp).
    + exact (Booth.decorations_ok _ _ Hp).
  - destruct p. split; reflexivity.
Qed.

Lemma coherent_capturePhoto p :
  Booth.coherent config p ->
  exists p',
    capturePhoto p = (Ok tt, p')
    /\ Booth.coherent config p'
    /\ List.length (Booth.waiting p') = List.length (Booth.waiting p)
    /\ Booth.now p' = Booth.now p
    /\ Booth.isTimerActive (Booth.app_state p')
       = Booth.isTimerActive (Booth.app_state p).
Proof.
  intros Hp.
  destruct (Booth.isStreaming (Booth.app_state p)) eqn:Hs.
  - destruct (capturePhoto_runs p Hs (Booth.decorations_ok _ _ Hp)) as (pv & Hpv).
    eexists. split; [exact Hpv |].
    split; [| split; [| split]].
    + booth_open p Hp. unfold Booth.captured. booth_cbn.
      constructor; booth_cbn; assumption || reflexivity.
    + destruct p. unfold Booth.waiting, Booth.captured. booth_cbn.
      rewrite waiting_enqueue. simpl. lia.
    + destruct p. reflexivity.
    + destruct p. reflexivity.
  - exists p. unfold Booth.capturePhoto.
    erewrite hbind_Ok by reflexivity. rewrite Hs. cbn [negb].
    split; [reflexivity |]. split; [exact Hp |]. split; [| split]; reflexivity.
Qed.

(** *** The callbacks of the timer *)

Lemma tick_runs count env p :
  exists p',
    Booth.tick count env p = (Ok tt, p')
    /\ Booth.app_state p' = Booth.app_state p
    /\ Booth.controls p' = Booth.controls p
    /\ Booth.tracks p' = Booth.tracks p
    /\ Booth.camera_view p' = Booth.camera_view p
    /\ List.length (Booth.waiting p') = S (List.length (Booth.waiting p)).
Proof.
  destruct p. unfold Booth.tick, Booth.waiting.
  hstep. destruct (0 <? count)%Z; (eexists; split; [reflexivity |]); booth_cbn;
    rewrite waiting_enqueue; simpl; repeat split; lia.
Qed.

Lemma stopTimer_runs p :
  Booth.coherent config p ->
  exists p',
    Booth.stopTimer p = (Ok tt, p')
    /\ Booth.coherent config p'
    /\ Booth.isTimerActive (Booth.app_state p') = false
    /\ Booth.timers p' = Booth.timers p.
Proof.
  intros Hp. booth_open p Hp. unfold Booth.stopTimer.
  hstep. hstep. eexists. split; [reflexivity |]. booth_cbn.
  split; [| split; reflexivity].
  constructor; booth_cbn; assumption || reflexivity.
Qed.

Lemma sequence_runs env p :
  Booth.coherent config p ->
  exists p',
    Booth.sequence env p = (Ok tt, p')
    /\ Booth.coherent config p'
    /\ ((Booth.isTimerActive (Booth.app_state p') = false
         /\ List.length (Booth.waiting p') = List.length (Booth.waiting p))
        \/ (Booth.isTimerActive (Booth.app_state p')
            = Booth.isTimerActive (Booth.app_state p)
            /\ List.length (Booth.waiting p') = S (List.length (Booth.waiting p)))).
Proof.
  intros Hp. unfold Booth.sequence.
  destruct (Booth.photosToTake env <=? Booth.photosTaken env)%Z.
  - destruct (stopTimer_runs p Hp) as (p' & Hrun & Hp' & Hactive & Htimers).
    exists p'. split; [exact Hrun |]. split; [exact Hp' |]. left.
    split; [exact Hactive |]. unfold Booth.waiting. now rewrite Htimers.
  - unfold Booth.showCountdown. hstep.
    match goal with
    | |- context [Booth.tick ?c ?e ?q] =>
        destruct (tick_runs c e q) as (p' & Hrun & Hs & Hc & Ht & Hv & Hw)
    end.
    exists p'. split; [exact Hrun |]. split.
    + apply (coherent_ext p p'); [| | | | exact Hp];
        destruct p; booth_cbn_all; congruence.
    + right. destruct p. booth_cbn_all. split; [now rewrite Hs | exact Hw].
Qed.

Lemma countdown_done_runs env p :
  Booth.coherent config p ->
  exists p',
    Booth.countdown_done config video toDataURL env p = (Ok tt, p')
    /\ Booth.coherent config p'
    /\ Booth.isTimerActive (Booth.app_state p')
       = Booth.isTimerActive (Booth.app_state p)
    /\ List.length (Booth.waiting p') = S (List.length (Booth.waiting p)).
Proof.
  intros Hp. unfold Booth.countdown_done. hstep.
  match goal with
  | |- context [Booth.hbind capturePhoto ?k ?q] =>
      destruct (coherent_capturePhoto q) as (p1 & Hrun & Hp1 & Hw & _ & Ha)
  end.
  { apply (coherent_ext p); [| | | | exact Hp]; destruct p; reflexivity. }
  erewrite hbind_Ok by exact Hrun.
  eexists. split; [reflexivity |].
  split; [| split].
  - apply (coherent_ext p1); [| | | | exact Hp1]; destruct p1; reflexivity.
  - destruct p1, p. booth_cbn_all. exact Ha.
  - destruct p1, p. unfold Booth.waiting in *. booth_cbn_all.
    rewrite waiting_enqueue. simpl. lia.
Qed.

Lemma flash_off_runs p :
  exists p',
    Booth.flash_off p = (Ok tt, p')
    /\ Booth.app_state p' = Booth.app_state p
    /\ Booth.controls p' = Booth.controls p
    /\ Booth.tracks p' = Booth.tracks p
    /\ Booth.camera_view p' = Booth.camera_view p
    /\ Booth.timers p' = Booth.timers p.
Proof. destruct p. eexists. split; [reflexivity |]. repeat split. Qed.

Lemma startTimer_runs p :
  Booth.consistent config p ->
  exists p',
    Booth.startTimer config p = (Ok tt, p') /\ Booth.consistent config p'.
Proof.
  intros [Hp Hw]. unfold Booth.startTimer. hstep.
  destruct (negb (Booth.isStreaming (Booth.app_state p))
            || Booth.isTimerActive (Booth.app_state p)) eqn:Hguard.
  { exists p. split; [reflexivity |]. now split. }
  apply orb_false_iff in Hguard as [_ Hidle]. rewrite Hidle in Hw.
  hstep. hstep. hstep. hstep. hstep.
  match goal with
  | |- context [Booth.sequence ?e ?q] =>
      destruct (sequence_runs e q) as (p' & Hrun & Hp' & Hcases)
  end.
  { booth_open p Hp. constructor; booth_cbn; assumption || reflexivity. }
  exists p'. split; [exact Hrun |]. split; [exact Hp' |].
  destruct p. unfold Booth.waiting in *. booth_cbn_all.
  destruct Hcases as [[-> ->] | [-> ->]]; [exact Hw | now rewrite Hw].
Qed.

(** *** The camera *)

Lemma stop_tracks_only m : Booth.stop_tracks m [m] = [].
Proof. unfold Booth.stop_tracks. simpl. now rewrite Nat.eqb_refl. Qed.

Lemma stopCamera_runs p :
  Booth.coherent config p ->
  exists p',
    Booth.stopCamera p = (Ok tt, p')
    /\ Booth.coherent config p'
    /\ Booth.stream (Booth.app_state p') = None
    /\ Booth.facingMode (Booth.app_state p') = Booth.facingMode (Booth.app_state p)
    /\ Booth.timers p' = Booth.timers p
    /\ Booth.isTimerActive (Booth.app_state p')
       = Booth.isTimerActive (Booth.app_state p).
Proof.
  intros Hp. booth_open p Hp. unfold Booth.stopCamera, Booth.stop_stream.
  destruct (Booth.stream s) as [m |] eqn:Hm;
    hstep; rewrite Hm; booth_cbn; hstep; hstep; hstep;
    (eexists; split; [reflexivity |]); booth_cbn;
    (split; [| repeat split]);
    constructor; booth_cbn; try assumption; try reflexivity.
  subst trk. apply stop_tracks_only.
Qed.

Lemma startCamera_runs getUserMedia enumerateDevices p :
  Booth.coherent config p ->
  exists p',
    Booth.startCamera getUserMedia enumerateDevices p = (Ok tt, p')
    /\ Booth.coherent config p'
    /\ (Booth.isStreaming (Booth.app_state p) = true ->
        Booth.stream (Booth.app_state p') = None)
    /\ Booth.facingMode (Booth.app_state p') = Booth.facingMode (Booth.app_state p)
    /\ Booth.timers p' = Booth.timers p
    /\ Booth.isTimerActive (Booth.app_state p')
       = Booth.isTimerActive (Booth.app_state p).
Proof.
  intros Hp. unfold Booth.startCamera. hstep.
  destruct (Booth.isStreaming (Booth.app_state p)) eqn:Hs.
  { destruct (stopCamera_runs p Hp) as (p' & Hrun & Hp' & Hnone & Hf & Ht & Ha).
    exists p'. repeat (split; [assumption |]). split; [intros _ |]; auto. }
  booth_open p Hp. booth_cbn_all. rewrite Hs in Hstreaming.
  destruct (Booth.stream s) as [m0 |] eqn:Hm0; [discriminate |].
  unfold Booth.stop_stream. hstep. rewrite Hm0.
  destruct (getUserMedia (Booth.facingMode s)) as [m |].
  - destruct enumerateDevices as [devices |].
    + hstep. eexists. split; [reflexivity |]. booth_cbn.
      split; [| split; [discriminate | repeat split]].
      constructor; booth_cbn; subst; try assumption; reflexivity.
    + hstep. eexists. split; [reflexivity |]. booth_cbn.
      split; [| split; [discriminate | repeat split]].
      constructor; booth_cbn; subst; try assumption; reflexivity.
  - hstep. eexists. split; [reflexivity |]. booth_cbn.
    split; [| split; [discriminate | repeat split]].
    constructor; booth_cbn; subst; try assumption; try reflexivity.
    + now rewrite Hm0.
    + now rewrite Hm0.
    + now rewrite Hm0.
Qed.

Lemma switchCamera_runs getUserMedia enumerateDevices p :
  Booth.coherent config p ->
  exists p',
    Booth.switchCamera getUserMedia enumerateDevices p = (Ok tt, p')
    /\ Booth.coherent config p'
    /\ (Booth.isStreaming (Booth.app_state p) = true ->
        Booth.stream (Booth.app_state p') = None)
    /\ Booth.facingMode (Booth.app_state p')
       = (if String.eqb (Booth.facingMode (Booth.app_state p)) "user"
          then "environment" else "user")
    /\ Booth.timers p' = Booth.timers p
    /\ Booth.isTimerActive (Booth.app_state p')
       = Booth.isTimerActive (Booth.app_state p).
Proof.
  intros Hp. unfold Booth.switchCamera. hstep.
  match goal with
  | |- context [Booth.startCamera ?g ?d ?q] =>
      destruct (startCamera_runs g d q) as (p' & Hrun & Hp' & Hnone & Hf & Ht & Ha)
  end.
  { booth_open p Hp. constructor; booth_cbn; assumption. }
  exists p'. split; [exact Hrun |]. split; [exact Hp' |].
  destruct p. booth_cbn_all. repeat split; assumption.
Qed.

(** *** The download *)

Lemma downloadPolaroid_runs p :
  Booth.coherent config p ->
  Booth.downloadBtn_disabled (Booth.controls p) = false ->
  exists p',
    Booth.downloadPolaroid config world p = (Ok tt, p')
    /\ Booth.coherent config p'
    /\ Booth.app_state p' = Booth.app_state p
    /\ Booth.timers p' = Booth.timers p.
Proof.
  intros Hp Henabled. booth_open p Hp. unfold Booth.downloadPolaroid.
  hstep. hstep. eexists. split; [reflexivity |]. booth_cbn.
  split; [| split; reflexivity].
  constructor; booth_cbn; try assumption.
  subst c. booth_cbn_all. unfold Booth.controls_for in *. booth_cbn_all.
  now rewrite Henabled.
Qed.

(** *** Every event keeps the page consistent *)

Lemma timer_fires_runs p :
  Booth.consistent config p ->
  exists p',
    Booth.timer_fires config video toDataURL p = (Ok tt, p')
    /\ Booth.consistent config p'.
Proof.
  intros [Hp Hw]. unfold Booth.timer_fires.
  destruct (Booth.timers p) as [| [due task] rest] eqn:Hq.
  { exists p. split; [reflexivity |]. now split. }
  set (p0 := Booth.set_now (Z.max (Booth.now p) due) (Booth.set_timers rest p)).
  assert (Hp0 : Booth.coherent config p0).
  { apply (coherent_ext p); [| | | | exact Hp]; destruct p; reflexivity. }
  assert (Ha0 : Booth.isTimerActive (Booth.app_state p0)
                = Booth.isTimerActive (Booth.app_state p))
    by (destruct p; reflexivity).
  assert (Hw0 : (List.length (Booth.waiting p0)
                 + (if Booth.of_sequence task then 1 else 0))%nat
                = if Booth.isTimerActive (Booth.app_state p) then 1%nat else 0%nat).
  { rewrite <- Hw. unfold Booth.waiting. rewrite Hq.
    replace (Booth.timers p0) with rest by (destruct p; reflexivity).
    simpl. destruct (Booth.of_sequence task); simpl; lia. }
  clearbody p0.
  destruct task as [count env | env | env |]; simpl Booth.run_task;
    simpl Booth.of_sequence in Hw0.
  - destruct (tick_runs count env p0) as (p' & Hrun & Hs & Hc & Ht & Hv & Hw').
    exists p'. split; [exact Hrun |]. split.
    + apply (coherent_ext p0); try assumption. now rewrite Hv.
    + rewrite Hw', Hs, Ha0. destruct (Booth.isTimerActive (Booth.app_state p)); lia.
  - destruct (countdown_done_runs env p0 Hp0) as (p' & Hrun & Hp' & Ha & Hw').
    exists p'. split; [exact Hrun |]. split; [exact Hp' |].
    rewrite Hw', Ha, Ha0. destruct (Booth.isTimerActive (Booth.app_state p)); lia.
  - destruct (sequence_runs env p0 Hp0) as (p' & Hrun & Hp' & Hcases).
    exists p'. split; [exact Hrun |]. split; [exact Hp' |].
    destruct Hcases as [[-> ->] | [-> ->]]; rewrite ?Ha0;
      destruct (Booth.isTimerActive (Booth.app_state p)); lia.
  - destruct (flash_off_runs p0) as (p' & Hrun & Hs & Hc & Ht & Hv & Hq').
    exists p'. split; [exact Hrun |]. split.
    + apply (coherent_ext p0); try assumption. now rewrite Hv.
    + unfold Booth.waiting in *. rewrite Hq', Hs, Ha0.
      destruct (Booth.isTimerActive (Booth.app_state p)); lia.
Qed.

Lemma consistent_frame p p' :
  Booth.coherent config p' ->
  Booth.timers p' = Booth.timers p ->
  Booth.isTimerActive (Booth.app_state p') = Booth.isTimerActive (Booth.app_state p) ->
  Booth.consistent config p -> Booth.consistent config p'.
Proof.
  intros Hp' Ht Ha [_ Hw]. split; [exact Hp' |].
  unfold Booth.waiting in *. now rewrite Ht, Ha.
Qed.

Lemma handler_runs e p :
  Booth.offered config e ->
  Booth.consistent config p ->
  exists p', handler e p = (Ok tt, p') /\ Booth.consistent config p'.
Proof.
  intros Hoff Hp. pose proof Hp as [Hco Hw].
  destruct e as [g d | g d | | | | imageData | l | f | f | decoId | txt | v | v
                 | t |]; simpl Booth.handler; unfold Booth.unless.
  - destruct (startCamera_runs g d p Hco) as (p' & Hrun & Hp' & _ & _ & Ht & Ha).
    exists p'. split; [exact Hrun |]. now apply (consistent_frame p).
  - destruct (Booth.switchCameraBtn_disabled (Booth.controls p));
      [now exists p |].
    destruct (switchCamera_runs g d p Hco) as (p' & Hrun & Hp' & _ & _ & Ht & Ha).
    exists p'. split; [exact Hrun |]. now apply (consistent_frame p).
  - destruct (Booth.captureBtn_disabled (Booth.controls p)); [now exists p |].
    destruct (coherent_capturePhoto p Hco) as (p' & Hrun & Hp' & Hw' & _ & Ha).
    exists p'. split; [exact Hrun |]. split; [exact Hp' |]. now rewrite Hw', Ha.
  - destruct (Booth.startTimerBtn_disabled (Booth.controls p)); [now exists p |].
    now apply startTimer_runs.
  - destruct (Booth.downloadBtn_disabled (Booth.controls p)) eqn:Hd;
      [now exists p |].
    destruct (downloadPolaroid_runs p Hco Hd) as (p' & Hrun & Hp' & Hs & Ht).
    exists p'. split; [exact Hrun |].
    apply (consistent_frame p); try assumption. now rewrite Hs.
  - destruct (coherent_addCapturedImage imageData p Hco) as (p' & Hrun & Hp' & Ht & Ha).
    exists p'. split; [exact Hrun |]. now apply (consistent_frame p).
  - unfold Booth.selectLayout.
    destruct (coherent_render (PolaroidMaker.selectLayout l) p Hco)
      as (p1 & Hrun & Hp1 & Ht & Ha);
      [exact (Booth.decorations_distinct _ _ Hco)
      | exact (Booth.decorations_ok _ _ Hco) |].
    hstep.
    match goal with
    | |- context [Booth.hbind ?m ?k ?q] =>
        destruct (renderPolaroid_runs
                    (snd (m q))) as (pv & Hpv)
    end.
    { destruct p. exact (Booth.decorations_ok _ _ Hco). }
    hstep. eexists. split; [exact Hpv |].
    destruct p. booth_cbn_all. split.
    + destruct Hco. booth_cbn_all.
      constructor; booth_cbn; assumption || reflexivity.
    + exact Hw.
  - destruct (coherent_render (Booth.set_filter f) p Hco)
      as (p' & Hrun & Hp' & Ht & Ha);
      [exact (Booth.decorations_distinct _ _ Hco)
      | exact (Booth.decorations_ok _ _ Hco) |].
    exists p'. split; [exact Hrun |]. now apply (consistent_frame p).
  - destruct (coherent_render (Booth.set_font f) p Hco)
      as (p' & Hrun & Hp' & Ht & Ha);
      [exact (Booth.decorations_distinct _ _ Hco)
      | exact (Booth.decorations_ok _ _ Hco) |].
    exists p'. split; [exact Hrun |]. now apply (consistent_frame p).
  - destruct (coherent_render (Page.toggleDecoration decoId) p Hco)
      as (p' & Hrun & Hp' & Ht & Ha).
    + apply toggleDecoration_NoDup. exact (Booth.decorations_distinct _ _ Hco).
    + apply Forall_forall. intros x Hx.
      apply toggleDecoration_In in Hx as [[_ Hx] | [-> _]].
      * pose proof (Booth.decorations_ok _ _ Hco) as Hcat.
        rewrite Forall_forall in Hcat. now apply Hcat.
      * exact Hoff.
    + exists p'. split; [exact Hrun |]. now apply (consistent_frame p).
  - destruct (coherent_render (Booth.set_polaroidText txt) p Hco)
      as (p' & Hrun & Hp' & Ht & Ha);
      [exact (Booth.decorations_distinct _ _ Hco)
      | exact (Booth.decorations_ok _ _ Hco) |].
    exists p'. split; [exact Hrun |]. now apply (consistent_frame p).
  - eexists. split; [reflexivity |].
    apply (consistent_frame p); try (destruct p; reflexivity); [| exact Hp].
    apply (coherent_ext p); [| | | | exact Hco]; destruct p; reflexivity.
  - eexists. split; [reflexivity |].
    apply (consistent_frame p); try (destruct p; reflexivity); [| exact Hp].
    apply (coherent_ext p); [| | | | exact Hco]; destruct p; reflexivity.
  - unfold Booth.elapse, Booth.modify.
    eexists. split; [reflexivity |]. cbn [snd].
    destruct ((Booth.now p <=? t)%Z
              && match Booth.timers p with
                 | [] => true
                 | (due, _) :: _ => (t <=? due)%Z
                 end); [| exact Hp].
    apply (consistent_frame p); try (destruct p; reflexivity); [| exact Hp].
    apply (coherent_ext p); [| | | | exact Hco]; destruct p; reflexivity.
  - now apply timer_fires_runs.
Qed.

Lemma constructor_consistent document :
  Booth.consistent config (Booth.constructor document).
Proof.
  destruct document. split; [| reflexivity].
  constructor; try reflexivity; constructor.
Qed.

Lemma run_snoc_event evs e p : run (evs ++ [e]) p = dispatch (run evs p) e.
Proof. unfold Booth.run. now rewrite fold_left_app. Qed.

Lemma run_consistent evs p :
  Forall (Booth.offered config) evs ->
  Booth.consistent config p ->
  Booth.consistent config (run evs p).
Proof.
  induction evs as [| e evs IH] using rev_ind; intros Hoff Hp; [exact Hp |].
  apply Forall_app in Hoff as [Hevs He]. inversion He as [| ? ? Hoffe _]; subst.
  rewrite run_snoc_event. unfold Booth.dispatch.
  destruct (handler_runs e (run evs p) Hoffe (IH Hevs Hp)) as (p' & -> & Hp').
  exact Hp'.
Qed.

(** *** A timed sequence *)

Lemma run_fires_S k p :
  run (repeat Booth.TimerFires (S k)) p
  = run (repeat Booth.TimerFires k) (dispatch p Booth.TimerFires).
Proof. reflexivity. Qed.

Lemma run_fires_add a b p :
  run (repeat Booth.TimerFires (a + b)) p
  = run (repeat Booth.TimerFires b) (run (repeat Booth.TimerFires a) p).
Proof. unfold Booth.run. now rewrite repeat_app, fold_left_app. Qed.

Lemma undisturbed_refl p : Booth.undisturbed p p.
Proof. constructor; reflexivity. Qed.

Lemma undisturbed_trans p1 p2 p3 :
  Booth.undisturbed p1 p2 -> Booth.undisturbed p2 p3 -> Booth.undisturbed p1 p3.
Proof. intros [] []. constructor; congruence. Qed.

(** The ticks of one countdown. *)
Lemma ticks_run env k : forall count p,
  Z.to_nat count = k ->
  Booth.timers p = [] ->
  let p' := run (repeat Booth.TimerFires k) (snd (Booth.tick count env p)) in
  Booth.timers p'
  = [((Booth.now p + 1000 * Z.max count 0 + 800)%Z, Booth.CountdownDone env)]
  /\ Booth.now p' = (Booth.now p + 1000 * Z.max count 0)%Z
  /\ Booth.app_state p' = Booth.app_state p
  /\ Booth.controls p' = Booth.controls p
  /\ Booth.camera_view p' = Booth.camera_view p
  /\ Booth.inputs p' = Booth.inputs p
  /\ Booth.tracks p' = Booth.tracks p
  /\ Booth.downloads p' = Booth.downloads p
  /\ Booth.timerStatus (Booth.timer_view p') = Booth.timerStatus (Booth.timer_view p)
  /\ Booth.flashEffect_active (Booth.timer_view p')
     = Booth.flashEffect_active (Booth.timer_view p).
Proof.
  induction k as [| k IH]; intros count p Hk Hq p'; subst p';
    destruct p as [s c pc cam tv inp cv trk dl t q]; booth_cbn_all; subst q;
    unfold Booth.tick; hstep.
  - assert (Hc : (0 <? count)%Z = false) by (apply Z.ltb_ge; lia).
    rewrite Hc. cbn [repeat Booth.run fold_left]. unfold Booth.setTimeout, Booth.modify.
    booth_cbn. cbn [Booth.enqueue].
    replace (Z.max count 0) with 0%Z by lia.
    split; [f_equal; f_equal; lia |]. split; [lia |]. repeat split; reflexivity.
  - assert (Hc : (0 <? count)%Z = true) by (apply Z.ltb_lt; lia).
    rewrite Hc. rewrite run_fires_S.
    unfold Booth.setTimeout, Booth.modify. booth_cbn. cbn [Booth.enqueue].
    unfold Booth.dispatch. cbn [Booth.handler]. unfold Booth.timer_fires.
    booth_cbn. cbn [Booth.run_task].
    match goal with
    | |- context [Booth.tick ?c' env ?q] =>
        specialize (IH c' q ltac:(lia) eq_refl)
    end.
    cbv zeta in IH. booth_cbn_all.
    destruct IH as (Hq & Hnow & Hs & Hc' & Hcam & Hinp & Htrk & Hdl & Hst & Hfl).
    rewrite Hq, Hnow, Hs, Hc', Hcam, Hinp, Htrk, Hdl, Hst, Hfl.
    split; [f_equal; f_equal; lia |]. split; [lia |]. repeat split; reflexivity.
Qed.

(** One photo of a sequence: the countdown, the shot, the end of the
    flash and the next call of [sequence]. *)
Lemma photo_cycle env p :
  Booth.timers p = [] ->
  Booth.isStreaming (Booth.app_state p) = true ->
  Forall (fun id => lookup id (decorations config) <> None)
    (PolaroidMaker.st_decorations (Booth.pm (Booth.app_state p))) ->
  (Booth.photosTaken env < Booth.photosToTake env)%Z ->
  exists p1,
    run (repeat Booth.TimerFires (Booth.callbacks_per_photo (Booth.delay env)))
      (snd (Booth.sequence env p))
    = snd (Booth.sequence
             {| Booth.photosTaken := Booth.photosTaken env + 1;
                Booth.photosToTake := Booth.photosToTake env;
                Booth.delay := Booth.delay env |} p1)
    /\ Booth.timers p1 = []
    /\ Booth.now p1 = (Booth.now p + Booth.countdown_ms (Booth.delay env) + 1000)%Z
    /\ Booth.pm (Booth.app_state p1)
       = PolaroidMaker.addCapturedImage
           (Booth.snapshot toDataURL (Booth.facingMode (Booth.app_state p))
              (video (Booth.srcObject (Booth.camera_view p))
                 (Booth.now p + Booth.countdown_ms (Booth.delay env))%Z))
           (Booth.pm (Booth.app_state p))
    /\ Booth.isTimerActive (Booth.app_state p1)
       = Booth.isTimerActive (Booth.app_state p)
    /\ Booth.undisturbed p p1
    /\ Booth.timerStatus (Booth.timer_view p1) = Booth.timerStatus (Booth.timer_view p)
    /\ Booth.flashEffect_active (Booth.timer_view p1) = false
    /\ Booth.countdownOverlay_active (Booth.timer_view p1) = false.
Proof.
  intros Hq Hstreaming Hcat Hmore.
  unfold Booth.sequence at 1.
  assert (Hle : (Booth.photosToTake env <=? Booth.photosTaken env)%Z = false)
    by (apply Z.leb_gt; lia).
  rewrite Hle. unfold Booth.showCountdown. hstep.
  unfold Booth.callbacks_per_photo. rewrite run_fires_add.
  match goal with
  | |- context [Booth.tick ?c env ?q] =>
      pose proof (ticks_run env (Z.to_nat c) c q eq_refl) as Hticks;
      set (p0 := q) in *
  end.
  assert (Hq0 : Booth.timers p0 = []) by (destruct p; exact Hq).
  specialize (Hticks Hq0). cbv zeta in Hticks.
  destruct Hticks as (Ht & Hnow & Hs & Hc & Hcam & Hinp & Htrk & Hdl & Hst & Hfl).
  set (p' := run (repeat Booth.TimerFires (Z.to_nat (Booth.delay env)))
               (snd (Booth.tick (Booth.delay env) env p0))) in *.
  clearbody p'. subst p0.
  destruct p as [s c pc cam tv inp cv trk dl t q].
  destruct p' as [s' c' pc' cam' tv' inp' cv' trk' dl' t' q'].
  booth_cbn_all. subst. clear Hq0.
  unfold Booth.countdown_ms.
  set (t0 := (t + 1000 * Z.max (Booth.delay env) 0)%Z).
  destruct (capturePhoto_runs
              {| Booth.app_state := s;
                 Booth.controls := c;
                 Booth.polaroidContainer := pc';
                 Booth.camera_view := cam;
                 Booth.timer_view :=
                   {| Booth.timerStatus := Booth.timerStatus tv';
                      Booth.countdownOverlay_active := false;
                      Booth.countdownNumber := Booth.countdownNumber tv';
                      Booth.flashEffect_active := Booth.flashEffect_active tv' |};
                 Booth.inputs := inp;
                 Booth.canvas := cv';
                 Booth.tracks := trk;
                 Booth.downloads := dl;
                 Booth.now := (t0 + 800)%Z;
                 Booth.timers := [] |} Hstreaming Hcat) as (pv & Hpv).
  eexists. split.
  - rewrite run_fires_S.
    unfold Booth.dispatch at 1. cbn [Booth.handler]. unfold Booth.timer_fires.
    booth_cbn. cbn [Booth.run_task].
    rewrite (Z.max_r t0 (t0 + 800)) by lia.
    unfold Booth.countdown_done. hstep.
    erewrite hbind_Ok by exact Hpv.
    unfold Booth.captured, Booth.setTimeout, Booth.modify. booth_cbn.
    cbn [Booth.enqueue].
    assert (Hlt : (t0 + 800 + 1000 <? t0 + 800 + 300)%Z = false)
      by (apply Z.ltb_ge; lia).
    rewrite Hlt.
    rewrite run_fires_S.
    unfold Booth.dispatch at 1. cbn [Booth.handler]. unfold Booth.timer_fires.
    booth_cbn. cbn [Booth.run_task]. unfold Booth.flash_off, Booth.modify.
    booth_cbn.
    rewrite (Z.max_r (t0 + 800) (t0 + 800 + 300)) by lia.
    rewrite run_fires_S.
    unfold Booth.dispatch at 1. cbn [Booth.handler]. unfold Booth.timer_fires.
    booth_cbn. cbn [Booth.run_task].
    rewrite (Z.max_r (t0 + 800 + 300) (t0 + 800 + 1000)) by lia.
    cbn [repeat Booth.run fold_left]. reflexivity.
  - booth_cbn. subst t0.
    split; [reflexivity |]. split; [lia |].
    split; [rewrite Z.add_assoc; reflexivity |].
    split; [reflexivity |]. split; [constructor; reflexivity |].
    split; [exact Hst |]. split; reflexivity.
Qed.

Lemma sequence_shots_S facing source t0 d n :
  Booth.sequence_shots video toDataURL facing source t0 d (S n)
  = Booth.snapshot toDataURL facing (video source (t0 + Booth.countdown_ms d)%Z)
    :: Booth.sequence_shots video toDataURL facing source
         (t0 + Booth.countdown_ms d + 1000)%Z d n.
Proof.
  unfold Booth.sequence_shots. cbn [seq map]. f_equal.
  - do 2 f_equal. cbn [Z.of_nat]. lia.
  - rewrite <- seq_shift, map_map. apply map_ext. intros k.
    do 2 f_equal. rewrite Nat2Z.inj_succ. ring.
Qed.

(** A sequence runs to its end: from a call of [sequence] with [r] photos
    to go, [r] rounds of callbacks later the timer is idle again. *)
Lemma sequence_completes r : forall env p,
  Z.to_nat (Booth.photosToTake env - Booth.photosTaken env) = r ->
  Booth.timers p = [] ->
  Booth.isStreaming (Booth.app_state p) = true ->
  Forall (fun id => lookup id (decorations config) <> None)
    (PolaroidMaker.st_decorations (Booth.pm (Booth.app_state p))) ->
  let pf :=
    run (repeat Booth.TimerFires (r * Booth.callbacks_per_photo (Booth.delay env)))
      (snd (Booth.sequence env p)) in
  Booth.timers pf = []
  /\ Booth.isTimerActive (Booth.app_state pf) = false
  /\ Booth.now pf
     = (Booth.now p + Z.of_nat r * (Booth.countdown_ms (Booth.delay env) + 1000))%Z
  /\ Booth.pm (Booth.app_state pf)
     = PolaroidMaker.run
         (map PolaroidMaker.Add
            (Booth.sequence_shots video toDataURL
               (Booth.facingMode (Booth.app_state p))
               (Booth.srcObject (Booth.camera_view p))
               (Booth.now p) (Booth.delay env) r))
         (Booth.pm (Booth.app_state p))
  /\ Booth.undisturbed p pf
  /\ Booth.controls pf = Booth.controls_for (Booth.app_state pf)
  /\ Booth.timerStatus (Booth.timer_view pf) = ""
  /\ (r <> 0%nat ->
      Booth.flashEffect_active (Booth.timer_view pf) = false
      /\ Booth.countdownOverlay_active (Booth.timer_view pf) = false).
Proof.
  induction r as [| r IH]; intros env p Hr Hq Hstreaming Hcat pf; subst pf.
  - assert (Hle : (Booth.photosToTake env <=? Booth.photosTaken env)%Z = true)
      by (apply Z.leb_le; lia).
    cbn [Nat.mul repeat Booth.run fold_left].
    unfold Booth.sequence. rewrite Hle.
    destruct p as [s c pc cam tv inp cv trk dl t q]. booth_cbn_all. subst q.
    unfold Booth.stopTimer, Booth._updateUI, Booth.hbind, Booth.modify. booth_cbn.
    split; [reflexivity |]. split; [reflexivity |].
    split; [change (Z.of_nat 0) with 0%Z; lia |].
    split; [reflexivity |]. split; [constructor; reflexivity |].
    split; [reflexivity |]. split; [reflexivity |]. intros Hne. now contradiction Hne.
  - cbn [Nat.mul]. rewrite run_fires_add.
    destruct (photo_cycle env p Hq Hstreaming Hcat ltac:(lia))
      as (p1 & -> & Hq1 & Hnow1 & Hpm1 & Ha1 & Hsame & Hst1 & Hfl1 & Hov1).
    specialize (IH {| Booth.photosTaken := Booth.photosTaken env + 1;
                      Booth.photosToTake := Booth.photosToTake env;
                      Booth.delay := Booth.delay env |} p1).
    cbn [Booth.photosTaken Booth.photosToTake Booth.delay] in IH.
    destruct IH as (Hqf & Haf & Hnowf & Hpmf & Hsamef & Hcf & Hstf & Hflf).
    { lia. }
    { exact Hq1. }
    { now rewrite (Booth.same_isStreaming _ _ Hsame). }
    { now rewrite (Booth.same_decorations _ _ Hsame). }
    split; [exact Hqf |]. split; [exact Haf |].
    split; [rewrite Hnowf, Hnow1, Nat2Z.inj_succ; ring |].
    split.
    { rewrite Hpmf, sequence_shots_S, Hpm1, Hnow1.
      rewrite (Booth.same_facingMode _ _ Hsame), (Booth.same_camera_view _ _ Hsame).
      reflexivity. }
    split; [exact (undisturbed_trans _ _ _ Hsame Hsamef) |].
    split; [exact Hcf |]. split; [exact Hstf |].
    intros _. destruct r as [| r'].
    + cbn [Nat.mul repeat Booth.run fold_left].
      assert (Hle : (Booth.photosToTake env <=? Booth.photosTaken env + 1)%Z = true)
        by (apply Z.leb_le; lia).
      unfold Booth.sequence. cbn [Booth.photosTaken Booth.photosToTake]. rewrite Hle.
      destruct p1. booth_cbn_all.
      unfold Booth.stopTimer, Booth._updateUI, Booth.hbind, Booth.modify. booth_cbn.
      now split.
    + now apply Hflf.
Qed.

(** *** The queue drains *)

Lemma backlog_enqueue due t q :
  list_sum (map (fun entry => Booth.effort (snd entry)) (Booth.enqueue due t q))
  = (Booth.effort t
     + list_sum (map (fun entry => Booth.effort (snd entry)) q))%nat.
Proof.
  induction q as [| [d t'] q IH]; cbn [Booth.enqueue map list_sum fold_right snd].
  - reflexivity.
  - destruct (due <? d)%Z; cbn [map list_sum fold_right snd]; [reflexivity |].
    unfold list_sum in IH. rewrite IH. lia.
Qed.

Lemma capturePhoto_backlog p :
  Booth.coherent config p ->
  (Booth.backlog (snd (capturePhoto p)) <= Booth.backlog p + 1)%nat.
Proof.
  intros Hp. destruct (Booth.isStreaming (Booth.app_state p)) eqn:Hs.
  - destruct (capturePhoto_runs p Hs (Booth.decorations_ok _ _ Hp)) as (pv & ->).
    destruct p. unfold Booth.backlog, Booth.captured. booth_cbn.
    rewrite backlog_enqueue. cbn [Booth.effort]. lia.
  - unfold Booth.capturePhoto. erewrite hbind_Ok by reflexivity.
    rewrite Hs. cbn [negb Booth.hret snd]. lia.
Qed.

Lemma photos_to_go_next env :
  Booth.photos_to_go
    {| Booth.photosTaken := Booth.photosTaken env + 1;
       Booth.photosToTake := Booth.photosToTake env;
       Booth.delay := Booth.delay env |}
  = (Booth.photos_to_go env - 1)%nat.
Proof. unfold Booth.photos_to_go. cbn [Booth.photosTaken Booth.photosToTake]. lia. Qed.

Lemma tick_backlog count env p :
  (Booth.backlog (snd (Booth.tick count env p)) + 1
   = Booth.backlog p + Booth.effort (Booth.Tick count env))%nat.
Proof.
  destruct p. unfold Booth.tick, Booth.backlog.
  erewrite hbind_Ok by reflexivity.
  destruct (0 <? count)%Z eqn:Hc; unfold Booth.setTimeout, Booth.modify;
    booth_cbn; rewrite backlog_enqueue; cbn [Booth.effort].
  - apply Z.ltb_lt in Hc. lia.
  - apply Z.ltb_ge in Hc. lia.
Qed.

Lemma sequence_backlog env p :
  (Booth.backlog (snd (Booth.sequence env p)) + 1
   <= Booth.backlog p + Booth.effort (Booth.NextPhoto env))%nat.
Proof.
  unfold Booth.sequence.
  destruct (Booth.photosToTake env <=? Booth.photosTaken env)%Z eqn:Hle.
  - destruct p. unfold Booth.stopTimer, Booth._updateUI, Booth.hbind, Booth.modify,
      Booth.backlog. booth_cbn. cbn [Booth.effort]. lia.
  - apply Z.leb_gt in Hle. unfold Booth.showCountdown.
    erewrite hbind_Ok by reflexivity.
    match goal with
    | |- context [Booth.tick ?c ?e ?q] => pose proof (tick_backlog c e q) as Ht
    end.
    destruct p. unfold Booth.backlog in *. booth_cbn_all.
    cbn [Booth.effort] in *.
    assert (Hgo : (1 <= Booth.photos_to_go env)%nat)
      by (unfold Booth.photos_to_go; lia).
    unfold Booth.round in *.
    destruct (Booth.photos_to_go env) as [| r]; [lia |].
    cbn [Nat.sub] in Ht. rewrite Nat.sub_0_r in Ht. cbn [Nat.mul]. lia.
Qed.

Lemma countdown_done_backlog env p :
  Booth.coherent config p ->
  (Booth.backlog (snd (Booth.countdown_done config video toDataURL env p)) + 1
   <= Booth.backlog p + Booth.effort (Booth.CountdownDone env))%nat.
Proof.
  intros Hp. unfold Booth.countdown_done. hstep.
  match goal with
  | |- context [Booth.hbind capturePhoto ?k ?q] =>
      pose proof (capturePhoto_backlog q) as Hb;
      destruct (coherent_capturePhoto q) as (p1 & Hrun & _)
  end.
  { apply (coherent_ext p); [| | | | exact Hp]; destruct p; reflexivity. }
  rewrite Hrun in Hb. cbn [snd] in Hb.
  erewrite hbind_Ok by exact Hrun.
  specialize (Hb ltac:(apply (coherent_ext p); [| | | | exact Hp];
                       destruct p; reflexivity)).
  destruct p, p1. unfold Booth.setTimeout, Booth.modify, Booth.backlog in *.
  booth_cbn_all. rewrite backlog_enqueue. cbn [Booth.effort].
  rewrite photos_to_go_next. unfold Booth.round. cbn [Booth.delay]. lia.
Qed.

Lemma timer_fires_backlog p :
  Booth.coherent config p ->
  Booth.timers p <> [] ->
  (Booth.backlog (snd (Booth.timer_fires config video toDataURL p)) + 1
   <= Booth.backlog p)%nat.
Proof.
  intros Hp Hne. unfold Booth.timer_fires.
  destruct (Booth.timers p) as [| [due task] rest] eqn:Hq; [congruence |].
  set (p0 := Booth.set_now (Z.max (Booth.now p) due) (Booth.set_timers rest p)).
  assert (Hp0 : Booth.coherent config p0).
  { apply (coherent_ext p); [| | | | exact Hp]; destruct p; reflexivity. }
  assert (Hb : Booth.backlog p = (Booth.effort task + Booth.backlog p0)%nat).
  { unfold Booth.backlog. rewrite Hq.
    replace (Booth.timers p0) with rest by (destruct p; reflexivity).
    reflexivity. }
  clearbody p0. rewrite Hb.
  destruct task as [count env | env | env |]; cbn [Booth.run_task].
  - pose proof (tick_backlog count env p0). lia.
  - pose proof (countdown_done_backlog env p0 Hp0). lia.
  - pose proof (sequence_backlog env p0). lia.
  - destruct p0. unfold Booth.flash_off, Booth.modify, Booth.backlog.
    booth_cbn. cbn [Booth.effort]. lia.
Qed.

Lemma backlog_zero p : Booth.backlog p = 0%nat -> Booth.timers p = [].
Proof.
  unfold Booth.backlog. destruct (Booth.timers p) as [| [due task] rest];
    [reflexivity |].
  cbn [map list_sum fold_right snd]. intros Hzero. exfalso.
  destruct task; cbn [Booth.effort] in Hzero;
    unfold list_sum in Hzero; nia.
Qed.

Lemma queue_drains k : forall p,
  Booth.consistent config p ->
  (Booth.backlog p <= k)%nat ->
  Booth.timers (run (repeat Booth.TimerFires k) p) = []
  /\ Booth.consistent config (run (repeat Booth.TimerFires k) p).
Proof.
  induction k as [| k IH]; intros p Hp Hk.
  - split; [apply backlog_zero; cbn; lia | exact Hp].
  - rewrite run_fires_S. unfold Booth.dispatch. cbn [Booth.handler].
    destruct (timer_fires_runs p Hp) as (p' & Hrun & Hp').
    pose proof (timer_fires_backlog p (proj1 Hp)) as Hb.
    rewrite Hrun in *. cbn [snd] in *.
    apply IH; [exact Hp' |].
    destruct (Booth.timers p) as [| e q] eqn:Hq.
    + unfold Booth.timer_fires in Hrun. rewrite Hq in Hrun.
      inversion Hrun; subst p'. unfold Booth.backlog. rewrite Hq. cbn. lia.
    + specialize (Hb ltac:(discriminate)). lia.
Qed.

(** A timed sequence from the click to its end. *)
Lemma timed_sequence_runs p n d :
  Booth.coherent config p ->
  Booth.timers p = [] ->
  Booth.isStreaming (Booth.app_state p) = true ->
  Booth.isTimerActive (Booth.app_state p) = false ->
  n = Z.to_nat (Booth.or_default (Booth.photoCount (Booth.inputs p)) 4) ->
  d = Booth.or_default (Booth.timerDelay (Booth.inputs p)) 3 ->
  Booth.timers
    (run (Booth.ClickStartTimer
          :: repeat Booth.TimerFires (n * Booth.callbacks_per_photo d)) p)
  = []
  /\ Booth.isTimerActive
       (Booth.app_state
          (run (Booth.ClickStartTimer
                :: repeat Booth.TimerFires (n * Booth.callbacks_per_photo d)) p))
     = false
  /\ Booth.now
       (run (Booth.ClickStartTimer
             :: repeat Booth.TimerFires (n * Booth.callbacks_per_photo d)) p)
     = (Booth.now p + Z.of_nat n * (Booth.countdown_ms d + 1000))%Z
  /\ PolaroidMaker.capturedImages
       (Booth.pm
          (Booth.app_state
             (run (Booth.ClickStartTimer
                   :: repeat Booth.TimerFires (n * Booth.callbacks_per_photo d))
                p)))
     = PolaroidMaker.slice_last
         (PolaroidMaker._getMaxImagesForLayout (Booth.pm (Booth.app_state p)))
         (Booth.sequence_shots video toDataURL
            (Booth.facingMode (Booth.app_state p))
            (Booth.srcObject (Booth.camera_view p)) (Booth.now p) d n)
  /\ Booth.undisturbed p
       (run (Booth.ClickStartTimer
             :: repeat Booth.TimerFires (n * Booth.callbacks_per_photo d)) p)
  /\ Booth.timerStatus
       (Booth.timer_view
          (run (Booth.ClickStartTimer
                :: repeat Booth.TimerFires (n * Booth.callbacks_per_photo d)) p))
     = "".
Proof.
  intros Hco Hq Hstreaming Hidle -> ->.
  set (n := Z.to_nat (Booth.or_default (Booth.photoCount (Booth.inputs p)) 4)).
  set (d := Booth.or_default (Booth.timerDelay (Booth.inputs p)) 3).
  change (Booth.run config world video toDataURL
            (Booth.ClickStartTimer
             :: repeat Booth.TimerFires (n * Booth.callbacks_per_photo d)) p)
    with (Booth.run config world video toDataURL
            (repeat Booth.TimerFires (n * Booth.callbacks_per_photo d))
            (Booth.dispatch config world video toDataURL p Booth.ClickStartTimer)).
  assert (Hclick :
    exists p0,
      Booth.dispatch config world video toDataURL p Booth.ClickStartTimer
      = snd (Booth.sequence
               {| Booth.photosTaken := 0;
                  Booth.photosToTake :=
                    Booth.or_default (Booth.photoCount (Booth.inputs p)) 4;
                  Booth.delay := d |} p0)
      /\ Booth.timers p0 = []
      /\ Booth.now p0 = Booth.now p
      /\ Booth.pm (Booth.app_state p0)
         = PolaroidMaker.set_capturedImages [] (Booth.pm (Booth.app_state p))
      /\ Booth.isStreaming (Booth.app_state p0) = true
      /\ Booth.undisturbed p p0).
  { unfold Booth.dispatch. cbn [Booth.handler]. unfold Booth.unless.
    rewrite (Booth.controls_ok _ _ Hco).
    unfold Booth.controls_for at 1. cbn [Booth.startTimerBtn_disabled].
    rewrite Hstreaming, Hidle. cbn [negb orb].
    unfold Booth.startTimer.
    erewrite hbind_Ok by reflexivity. cbv beta.
    rewrite Hstreaming, Hidle. cbn [negb orb].
    do 4 (erewrite hbind_Ok by reflexivity; cbv beta).
    erewrite hbind_Ok by reflexivity.
    destruct p as [s c pc cam tv inp cv trk dl t q].
    eexists. split; [reflexivity |].
    cbn in Hq, Hstreaming |- *. subst q.
    repeat split; assumption || reflexivity. }
  destruct Hclick as (p0 & -> & Hq0 & Hnow0 & Hpm0 & Hs0 & Hsame0).
  destruct (sequence_completes n
              {| Booth.photosTaken := 0;
                 Booth.photosToTake :=
                   Booth.or_default (Booth.photoCount (Booth.inputs p)) 4;
                 Booth.delay := d |} p0)
    as (Hqf & Haf & Hnowf & Hpmf & Hsamef & _ & Hstf & _).
  { cbn [Booth.photosTaken Booth.photosToTake]. now rewrite Z.sub_0_r. }
  { exact Hq0. }
  { exact Hs0. }
  { rewrite (Booth.same_decorations _ _ Hsame0). exact (Booth.decorations_ok _ _ Hco). }
  cbn [Booth.delay] in *.
  split; [exact Hqf |]. split; [exact Haf |].
  split; [rewrite Hnowf, Hnow0; reflexivity |].
  split.
  { rewrite Hpmf.
    destruct (captures_window
                (Booth.sequence_shots video toDataURL
                   (Booth.facingMode (Booth.app_state p0))
                   (Booth.srcObject (Booth.camera_view p0)) (Booth.now p0) d n)
                (Booth.pm (Booth.app_state p0))) as [-> _].
    { rewrite Hpm0. cbn. lia. }
    rewrite Hpm0, Hnow0, (Booth.same_facingMode _ _ Hsame0),
      (Booth.same_camera_view _ _ Hsame0).
    reflexivity. }
  split; [exact (undisturbed_trans _ _ _ Hsame0 Hsamef) |].
  exact Hstf.
Qed.

(** The click handler of the layout options. *)
Lemma selectLayout_runs l p :
  Booth.coherent config p ->
  exists p1,
    Booth.selectLayout config l p = (Ok tt, p1)
    /\ Booth.coherent config p1
    /\ Booth.timers p1 = Booth.timers p
    /\ Booth.now p1 = Booth.now p
    /\ Booth.camera_view p1 = Booth.camera_view p
    /\ Booth.isStreaming (Booth.app_state p1) = Booth.isStreaming (Booth.app_state p)
    /\ Booth.isTimerActive (Booth.app_state p1)
       = Booth.isTimerActive (Booth.app_state p)
    /\ Booth.facingMode (Booth.app_state p1) = Booth.facingMode (Booth.app_state p)
    /\ PolaroidMaker.st_layout (Booth.pm (Booth.app_state p1)) = l
    /\ Booth.timerDelay (Booth.inputs p1) = Booth.timerDelay (Booth.inputs p)
    /\ Booth.photoCount (Booth.inputs p1)
       = match Booth.photoCount (Booth.inputs p) with
         | Some v => Some (Z.min v (Z.of_nat (capacity l)))
         | None => None
         end.
Proof.
  intros Hp. unfold Booth.selectLayout. hstep.
  match goal with
  | |- context [Booth.hbind ?m ?k ?q] =>
      destruct (renderPolaroid_runs (snd (m q))) as (pv & Hpv)
  end.
  { destruct p. exact (Booth.decorations_ok _ _ Hp). }
  hstep. eexists. split; [exact Hpv |].
  booth_open p Hp. booth_cbn.
  split; [constructor; booth_cbn; assumption || reflexivity |].
  repeat (split; [reflexivity |]).
  unfold Booth.modify. booth_cbn.
  destruct (Booth.photoCount inp) as [v |]; [| reflexivity].
  change (PolaroidMaker._getMaxImagesForLayout
            (PolaroidMaker.selectLayout l (Booth.pm s))) with (capacity l).
  destruct (Z.of_nat (capacity l) <? v)%Z eqn:Hlt; f_equal.
  - apply Z.ltb_lt in Hlt. lia.
  - apply Z.ltb_ge in Hlt. lia.
Qed.

Lemma sequence_shots_length facing source t0 d n :
  List.length (Booth.sequence_shots video toDataURL facing source t0 d n) = n.
Proof. unfold Booth.sequence_shots. now rewrite length_map, length_seq. Qed.

Lemma capacity_pos l : (1 <= capacity l)%nat.
Proof. apply getMaxImagesForLayout_pos. Qed.

(** A sequence started after a click on a layout option. *)
Lemma sequence_after_layout l v p :
  Booth.coherent config p ->
  Booth.timers p = [] ->
  Booth.isStreaming (Booth.app_state p) = true ->
  Booth.isTimerActive (Booth.app_state p) = false ->
  Booth.photoCount (Booth.inputs p) = Some v ->
  v <> 0%Z ->
  PolaroidMaker.capturedImages
    (Booth.pm
       (Booth.app_state
          (run (Booth.SelectLayout l
                :: Booth.ClickStartTimer
                :: repeat Booth.TimerFires
                     (Z.to_nat (Z.min v (Z.of_nat (capacity l)))
                      * Booth.callbacks_per_photo
                          (Booth.or_default (Booth.timerDelay (Booth.inputs p)) 3)))
             p)))
  = Booth.sequence_shots video toDataURL
      (Booth.facingMode (Booth.app_state p))
      (Booth.srcObject (Booth.camera_view p)) (Booth.now p)
      (Booth.or_default (Booth.timerDelay (Booth.inputs p)) 3)
      (Z.to_nat (Z.min v (Z.of_nat (capacity l)))).
Proof.
  intros Hp Hq Hs Hidle Hv Hv0.
  destruct (selectLayout_runs l p Hp)
    as (p1 & Hrun & Hp1 & Hq1 & Hnow1 & Hcam1 & Hs1 & Ha1 & Hf1 & Hl1 & Hd1 & Hc1).
  rewrite Hv in Hc1.
  pose proof (capacity_pos l) as Hcap.
  change (run (Booth.SelectLayout l
               :: Booth.ClickStartTimer
               :: repeat Booth.TimerFires
                    (Z.to_nat (Z.min v (Z.of_nat (capacity l)))
                     * Booth.callbacks_per_photo
                         (Booth.or_default (Booth.timerDelay (Booth.inputs p)) 3)))
            p)
    with (run (Booth.ClickStartTimer
               :: repeat Booth.TimerFires
                    (Z.to_nat (Z.min v (Z.of_nat (capacity l)))
                     * Booth.callbacks_per_photo
                         (Booth.or_default (Booth.timerDelay (Booth.inputs p)) 3)))
            (snd (Booth.selectLayout config l p))).
  rewrite Hrun. cbn [snd].
  destruct (timed_sequence_runs p1
              (Z.to_nat (Z.min v (Z.of_nat (capacity l))))
              (Booth.or_default (Booth.timerDelay (Booth.inputs p)) 3))
    as (_ & _ & _ & Himgs & _); try congruence.
  { rewrite Hc1. unfold Booth.or_default.
    destruct (Z.min v (Z.of_nat (capacity l)) =? 0)%Z eqn:E; [| reflexivity].
    apply Z.eqb_eq in E. lia. }
  rewrite Himgs, Hf1, Hcam1, Hnow1.
  apply slice_last_short. rewrite sequence_shots_length.
  replace (PolaroidMaker._getMaxImagesForLayout (Booth.pm (Booth.app_state p1)))
    with (capacity l).
  - lia.
  - unfold capacity, PolaroidMaker._getMaxImagesForLayout. rewrite Hl1. reflexivity.
Qed.

End BoothProperties.

(** X14: after any sequence of clicks, uploads, selections and timer
    callbacks on a freshly constructed page whose decoration options come
    from the catalog, the four buttons and the empty-state note are as
    [_updateUI] sets them from the current state, although
    [downloadPolaroid] re-enables its button without looking at the
    state. *)
Theorem controls_follow_the_state config world video toDataURL document evs :
  Forall (Booth.offered config) evs ->
  Booth.controls
    (Booth.run config world video toDataURL evs (Booth.constructor document))
  = Booth.controls_for
      (Booth.app_state
         (Booth.run config world video toDataURL evs (Booth.constructor document))).
Proof.
  intros Hoff.
  apply (Booth.controls_ok config).
  apply (run_consistent config world video toDataURL evs _ Hoff).
  apply constructor_consistent.
Qed.

Lemma controls_follow_the_state_witness :
  Booth.controls
    (Booth.run PolaroidMaker.config good_world sample_video sample_toDataURL
       [Booth.ClickStartCamera (fun _ => Some 1%nat) (Some ["videoinput"; "audioinput"]);
        Booth.ClickCapture; Booth.ClickDownload]
       (Booth.constructor sample_document))
  = Booth.controls_for
      (Booth.app_state
         (Booth.run PolaroidMaker.config good_world sample_video sample_toDataURL
            [Booth.ClickStartCamera (fun _ => Some 1%nat)
               (Some ["videoinput"; "audioinput"]);
             Booth.ClickCapture; Booth.ClickDownload]
            (Booth.constructor sample_document))).
Proof.
  apply (controls_follow_the_state PolaroidMaker.config good_world sample_video
           sample_toDataURL sample_document).
  repeat constructor.
Defined.

(** X15: when every start of the camera settles before the next event,
    the camera streams exactly while the object holds a stream; the tracks
    of that stream are the only ones running, and it is the stream the
    video element shows.  No stream is left running after a stop, a failed
    start or a switch. *)
Theorem camera_tracks_are_released config world video toDataURL document evs :
  Forall (Booth.offered config) evs ->
  Booth.isStreaming
    (Booth.app_state
       (Booth.run config world video toDataURL evs (Booth.constructor document)))
  = match
      Booth.stream
        (Booth.app_state
           (Booth.run config world video toDataURL evs (Booth.constructor document)))
    with
    | Some _ => true
    | None => false
    end
  /\ Booth.tracks
       (Booth.run config world video toDataURL evs (Booth.constructor document))
     = match
         Booth.stream
           (Booth.app_state
              (Booth.run config world video toDataURL evs
                 (Booth.constructor document)))
       with
       | Some m => [m]
       | None => []
       end
  /\ Booth.srcObject
       (Booth.camera_view
          (Booth.run config world video toDataURL evs (Booth.constructor document)))
     = Booth.stream
         (Booth.app_state
            (Booth.run config world video toDataURL evs (Booth.constructor document))).
Proof.
  intros Hoff.
  destruct (run_consistent config world video toDataURL evs _ Hoff
              (constructor_consistent config document)) as [[] _].
  repeat split; assumption.
Qed.

Lemma camera_tracks_are_released_witness :
  Booth.tracks
    (Booth.run PolaroidMaker.config good_world sample_video sample_toDataURL
       [Booth.ClickStartCamera (fun _ => Some 1%nat) None;
        Booth.ClickStartCamera (fun _ => Some 2%nat) None;
        Booth.ClickStartCamera (fun _ => Some 3%nat) (Some ["videoinput"])]
       (Booth.constructor sample_document))
  = [3%nat].
Proof.
  destruct (camera_tracks_are_released PolaroidMaker.config good_world sample_video
              sample_toDataURL sample_document
              [Booth.ClickStartCamera (fun _ => Some 1%nat) None;
               Booth.ClickStartCamera (fun _ => Some 2%nat) None;
               Booth.ClickStartCamera (fun _ => Some 3%nat) (Some ["videoinput"])])
    as (_ & Htracks & _).
  - repeat constructor.
  - exact Htracks.
Defined.

(** X16: a callback of a timed sequence waits in the timer queue exactly
    while the timer is marked active, and then there is one: a sequence
    never runs beside another, and the timer is never left active with
    nothing to end it. *)
Theorem one_sequence_at_a_time config world video toDataURL document evs :
  Forall (Booth.offered config) evs ->
  List.length
    (Booth.waiting
       (Booth.run config world video toDataURL evs (Booth.constructor document)))
  = (if Booth.isTimerActive
          (Booth.app_state
             (Booth.run config world video toDataURL evs
                (Booth.constructor document)))
     then 1 else 0)%nat.
Proof.
  intros Hoff.
  apply (run_consistent config world video toDataURL evs _ Hoff).
  apply constructor_consistent.
Qed.

Lemma one_sequence_at_a_time_witness :
  List.length
    (Booth.waiting
       (Booth.run PolaroidMaker.config good_world sample_video sample_toDataURL
          [Booth.ClickStartCamera (fun _ => Some 1%nat) (Some ["videoinput"]);
           Booth.ClickStartTimer; Booth.TimerFires; Booth.ClickStartTimer;
           Booth.ClickCapture; Booth.TimerFires]
          (Booth.constructor sample_document)))
  = 1%nat.
Proof.
  apply (one_sequence_at_a_time PolaroidMaker.config good_world sample_video
           sample_toDataURL sample_document
           [Booth.ClickStartCamera (fun _ => Some 1%nat) (Some ["videoinput"]);
            Booth.ClickStartTimer; Booth.TimerFires; Booth.ClickStartTimer;
            Booth.ClickCapture; Booth.TimerFires]).
  repeat constructor.
Defined.

(** X17: a click on the switch button never switches cameras.  The button
    takes clicks only while the camera streams, and then [switchCamera]
    flips the facing mode and calls [startCamera], which stops the camera
    because it is streaming: the page is left either as it was (the button
    was disabled) or with the camera off and the other facing mode
    selected, whatever the browser would have answered. *)
Theorem switch_button_stops_the_camera config world video toDataURL document evs
    getUserMedia enumerateDevices :
  Forall (Booth.offered config) evs ->
  Booth.dispatch config world video toDataURL
    (Booth.run config world video toDataURL evs (Booth.constructor document))
    (Booth.ClickSwitchCamera getUserMedia enumerateDevices)
  = Booth.run config world video toDataURL evs (Booth.constructor document)
  \/ (Booth.isStreaming
        (Booth.app_state
           (Booth.dispatch config world video toDataURL
              (Booth.run config world video toDataURL evs
                 (Booth.constructor document))
              (Booth.ClickSwitchCamera getUserMedia enumerateDevices)))
      = false
      /\ Booth.tracks
           (Booth.dispatch config world video toDataURL
              (Booth.run config world video toDataURL evs
                 (Booth.constructor document))
              (Booth.ClickSwitchCamera getUserMedia enumerateDevices))
         = []
      /\ Booth.facingMode
           (Booth.app_state
              (Booth.dispatch config world video toDataURL
                 (Booth.run config world video toDataURL evs
                    (Booth.constructor document))
                 (Booth.ClickSwitchCamera getUserMedia enumerateDevices)))
         = (if String.eqb
                 (Booth.facingMode
                    (Booth.app_state
                       (Booth.run config world video toDataURL evs
                          (Booth.constructor document))))
                 "user"
            then "environment" else "user")).
Proof.
  intros Hoff.
  pose proof (run_consistent config world video toDataURL evs _ Hoff
                (constructor_consistent config document)) as [Hco _].
  set (p := Booth.run config world video toDataURL evs (Booth.constructor document))
    in *.
  unfold Booth.dispatch. cbn [Booth.handler]. unfold Booth.unless.
  destruct (Booth.switchCameraBtn_disabled (Booth.controls p)) eqn:Hd;
    [now left | right].
  rewrite (Booth.controls_ok _ _ Hco) in Hd. cbn in Hd.
  apply orb_false_iff in Hd as [Hd _]. apply orb_false_iff in Hd as [Hs _].
  apply negb_false_iff in Hs.
  destruct (switchCamera_runs config getUserMedia enumerateDevices p Hco)
    as (p' & -> & Hp' & Hnone & Hf & _).
  cbn [snd]. specialize (Hnone Hs).
  rewrite (Booth.streaming_ok _ _ Hp'), (Booth.tracks_ok _ _ Hp'), Hnone.
  repeat split. exact Hf.
Qed.

Lemma switch_button_stops_the_camera_witness :
  Booth.isStreaming
    (Booth.app_state
       (Booth.dispatch PolaroidMaker.config good_world sample_video sample_toDataURL
          (Booth.run PolaroidMaker.config good_world sample_video sample_toDataURL
             [Booth.ClickStartCamera (fun _ => Some 1%nat)
                (Some ["videoinput"; "videoinput"])]
             (Booth.constructor sample_document))
          (Booth.ClickSwitchCamera (fun _ => Some 2%nat)
             (Some ["videoinput"; "videoinput"]))))
  = false.
Proof.
  destruct (switch_button_stops_the_camera PolaroidMaker.config good_world
              sample_video sample_toDataURL sample_document
              [Booth.ClickStartCamera (fun _ => Some 1%nat)
                 (Some ["videoinput"; "videoinput"])]
              (fun _ => Some 2%nat) (Some ["videoinput"; "videoinput"]))
    as [Hsame | (Hoff & _)].
  - repeat constructor.
  - reflexivity.
  - exact Hoff.
Defined.

(** X18: a timed sequence on a streaming camera, left alone, runs to its
    end.  With [n] photos to take and a delay of [d] seconds, after the
    click and [n] rounds of callbacks the queue is empty and the timer is
    idle, [n] times the countdown (1000 ms per second of delay, and 800 ms)
    and the pause of 1000 ms have passed, the list holds the most recent
    shots of the sequence, as many as the layout takes, in the order
    taken, and the status line is empty; the camera, the selections and
    the number fields are as they were.  A photo count that reads as NaN
    or 0 counts as 4, a delay as 3; a negative count takes no photo, and
    clears the list all the same. *)
Theorem timed_sequence config world video toDataURL p :
  Booth.coherent config p ->
  Booth.timers p = [] ->
  Booth.isStreaming (Booth.app_state p) = true ->
  Booth.isTimerActive (Booth.app_state p) = false ->
  Booth.timers
    (Booth.run config world video toDataURL
       (Booth.ClickStartTimer
        :: repeat Booth.TimerFires
             (Z.to_nat (Booth.or_default (Booth.photoCount (Booth.inputs p)) 4)
              * Booth.callbacks_per_photo
                  (Booth.or_default (Booth.timerDelay (Booth.inputs p)) 3))) p)
  = []
  /\ Booth.isTimerActive
       (Booth.app_state
          (Booth.run config world video toDataURL
             (Booth.ClickStartTimer
              :: repeat Booth.TimerFires
                   (Z.to_nat (Booth.or_default (Booth.photoCount (Booth.inputs p)) 4)
                    * Booth.callbacks_per_photo
                        (Booth.or_default (Booth.timerDelay (Booth.inputs p)) 3)))
             p))
     = false
  /\ Booth.now
       (Booth.run config world video toDataURL
          (Booth.ClickStartTimer
           :: repeat Booth.TimerFires
                (Z.to_nat (Booth.or_default (Booth.photoCount (Booth.inputs p)) 4)
                 * Booth.callbacks_per_photo
                     (Booth.or_default (Booth.timerDelay (Booth.inputs p)) 3))) p)
     = (Booth.now p
        + Z.of_nat (Z.to_nat (Booth.or_default (Booth.photoCount (Booth.inputs p)) 4))
          * (Booth.countdown_ms
               (Booth.or_default (Booth.timerDelay (Booth.inputs p)) 3) + 1000))%Z
  /\ PolaroidMaker.capturedImages
       (Booth.pm
          (Booth.app_state
             (Booth.run config world video toDataURL
                (Booth.ClickStartTimer
                 :: repeat Booth.TimerFires
                      (Z.to_nat
                         (Booth.or_default (Booth.photoCount (Booth.inputs p)) 4)
                       * Booth.callbacks_per_photo
                           (Booth.or_default (Booth.timerDelay (Booth.inputs p)) 3)))
                p)))
     = PolaroidMaker.slice_last
         (PolaroidMaker._getMaxImagesForLayout (Booth.pm (Booth.app_state p)))
         (Booth.sequence_shots video toDataURL
            (Booth.facingMode (Booth.app_state p))
            (Booth.srcObject (Booth.camera_view p))
            (Booth.now p)
            (Booth.or_default (Booth.timerDelay (Booth.inputs p)) 3)
            (Z.to_nat (Booth.or_default (Booth.photoCount (Booth.inputs p)) 4)))
  /\ Booth.undisturbed p
       (Booth.run config world video toDataURL
          (Booth.ClickStartTimer
           :: repeat Booth.TimerFires
                (Z.to_nat (Booth.or_default (Booth.photoCount (Booth.inputs p)) 4)
                 * Booth.callbacks_per_photo
                     (Booth.or_default (Booth.timerDelay (Booth.inputs p)) 3))) p)
  /\ Booth.timerStatus
       (Booth.timer_view
          (Booth.run config world video toDataURL
             (Booth.ClickStartTimer
              :: repeat Booth.TimerFires
                   (Z.to_nat (Booth.or_default (Booth.photoCount (Booth.inputs p)) 4)
                    * Booth.callbacks_per_photo
                        (Booth.or_default (Booth.timerDelay (Booth.inputs p)) 3)))
             p))
     = "".
Proof.
  intros Hco Hq Hstreaming Hidle.
  exact (timed_sequence_runs config world video toDataURL p _ _
           Hco Hq Hstreaming Hidle eq_refl eq_refl).
Qed.

Lemma timed_sequence_witness :
  Booth.now
    (Booth.run PolaroidMaker.config good_world sample_video sample_toDataURL
       (Booth.ClickStartTimer :: repeat Booth.TimerFires 24) sample_streaming_page)
  = 19200%Z
  /\ List.length
       (PolaroidMaker.capturedImages
          (Booth.pm
             (Booth.app_state
                (Booth.run PolaroidMaker.config good_world sample_video
                   sample_toDataURL
                   (Booth.ClickStartTimer :: repeat Booth.TimerFires 24)
                   sample_streaming_page))))
     = 1%nat.
Proof.
  destruct (timed_sequence PolaroidMaker.config good_world sample_video
              sample_toDataURL sample_streaming_page)
    as (_ & _ & Hnow & Himgs & _).
  - constructor; try reflexivity; constructor.
  - reflexivity.
  - reflexivity.
  - reflexivity.
  - split; [exact Hnow |].
    change (Z.to_nat
              (Booth.or_default
                 (Booth.photoCount (Booth.inputs sample_streaming_page)) 4)
            * Booth.callbacks_per_photo
                (Booth.or_default
                   (Booth.timerDelay (Booth.inputs sample_streaming_page)) 3))%nat
      with 24%nat in Himgs.
    rewrite Himgs. reflexivity.
Defined.

(** X19: the shutter.  On a streaming camera [capturePhoto] sizes the
    canvas to the frame and draws the frame once, whatever the canvas held
    and however its context was left: from the front camera mirrored, the
    left edge of the frame on the right edge of the canvas and the right
    edge on the left, from any other camera as it is; top and bottom stay.
    The encoded canvas goes to the image list, the context is left
    untransformed, and the flash is on with its end 300 ms away. *)
Theorem shutter_mirrors_the_front_camera config video toDataURL p :
  Booth.isStreaming (Booth.app_state p) = true ->
  Forall (fun id => lookup id (decorations config) <> None)
    (PolaroidMaker.st_decorations (Booth.pm (Booth.app_state p))) ->
  exists p',
    Booth.capturePhoto config video toDataURL p = (Ok tt, p')
    /\ width (Booth.canvas p')
       = N2Q (img_width (video (Booth.srcObject (Booth.camera_view p)) (Booth.now p)))
    /\ height (Booth.canvas p')
       = N2Q (img_height (video (Booth.srcObject (Booth.camera_view p)) (Booth.now p)))
    /\ transform (state (Booth.canvas p')) = identity
    /\ (exists s r,
          pixels (Booth.canvas p')
          = [DrawImage5 s
               (video (Booth.srcObject (Booth.camera_view p)) (Booth.now p)) r]
          /\ (if String.eqb (Booth.facingMode (Booth.app_state p)) "user"
              then tx (transform s) + sx (transform s) * rx r
                   == width (Booth.canvas p')
                   /\ tx (transform s) + sx (transform s) * (rx r + rw r) == 0
              else tx (transform s) + sx (transform s) * rx r == 0
                   /\ tx (transform s) + sx (transform s) * (rx r + rw r)
                      == width (Booth.canvas p'))
          /\ ty (transform s) + sy (transform s) * ry r == 0
          /\ ty (transform s) + sy (transform s) * (ry r + rh r)
             == height (Booth.canvas p'))
    /\ Booth.pm (Booth.app_state p')
       = PolaroidMaker.addCapturedImage
           (toDataURL (width (Booth.canvas p')) (height (Booth.canvas p'))
              (pixels (Booth.canvas p')))
           (Booth.pm (Booth.app_state p))
    /\ Booth.flashEffect_active (Booth.timer_view p') = true
    /\ In ((Booth.now p + 300)%Z, Booth.FlashOff) (Booth.timers p').
Proof.
  intros Hstreaming Hcat.
  destruct (capturePhoto_runs config video toDataURL p Hstreaming Hcat) as (pv & Hpv).
  eexists. split; [exact Hpv |].
  destruct p as [s c pc cam tv inp cv trk dl t q].
  unfold Booth.captured, Booth.shot, Booth.snapshot, Booth.shot.
  cbn [Booth.canvas Booth.app_state Booth.camera_view Booth.now Booth.timer_view
       Booth.timers Booth.pm Booth.with_pm Booth.facingMode
       Booth.flashEffect_active width height state pixels].
  split; [reflexivity |]. split; [reflexivity |]. split; [reflexivity |].
  split.
  { eexists. eexists. split; [reflexivity |].
    destruct (String.eqb (Booth.facingMode s) "user");
      unfold Booth.mirror; cbn; repeat split; ring. }
  split; [reflexivity |]. split; [reflexivity |].
  clear. induction q as [| [due task] q IH]; cbn.
  - now left.
  - destruct (t + 300 <? due)%Z; cbn; auto.
Qed.

Lemma shutter_mirrors_the_front_camera_witness :
  exists p',
    Booth.capturePhoto PolaroidMaker.config sample_video sample_toDataURL
      sample_streaming_page
    = (Ok tt, p')
    /\ width (Booth.canvas p') = 1920.
Proof.
  destruct (shutter_mirrors_the_front_camera PolaroidMaker.config sample_video
              sample_toDataURL sample_streaming_page)
    as (p' & Hrun & Hw & _).
  - reflexivity.
  - constructor.
  - exists p'. split; [exact Hrun | exact Hw].
Defined.

(** X20: whatever has happened on the page, once the events stop the
    timer queue runs empty and the timer is idle: a timed sequence always
    comes to its end, also when the camera was stopped or the layout
    changed under it.  The callbacks that run until then are at most the
    backlog of the queue: for a sequence with [r] photos to go and a delay
    of [d] seconds, [d + 5] for each photo. *)
Theorem timer_queue_drains config world video toDataURL document evs :
  Forall (Booth.offered config) evs ->
  Booth.timers
    (Booth.run config world video toDataURL
       (repeat Booth.TimerFires
          (Booth.backlog
             (Booth.run config world video toDataURL evs
                (Booth.constructor document))))
       (Booth.run config world video toDataURL evs (Booth.constructor document)))
  = []
  /\ Booth.isTimerActive
       (Booth.app_state
          (Booth.run config world video toDataURL
             (repeat Booth.TimerFires
                (Booth.backlog
                   (Booth.run config world video toDataURL evs
                      (Booth.constructor document))))
             (Booth.run config world video toDataURL evs
                (Booth.constructor document))))
     = false.
Proof.
  intros Hoff.
  pose proof (run_consistent config world video toDataURL evs _ Hoff
                (constructor_consistent config document)) as Hp.
  destruct (queue_drains config world video toDataURL _ _ Hp (Nat.le_refl _))
    as [Hq [_ Hw]].
  split; [exact Hq |].
  unfold Booth.waiting in Hw. rewrite Hq in Hw. cbn in Hw.
  destruct (Booth.isTimerActive _); [discriminate | reflexivity].
Qed.

Lemma timer_queue_drains_witness :
  Booth.isTimerActive
    (Booth.app_state
       (Booth.run PolaroidMaker.config good_world sample_video sample_toDataURL
          (repeat Booth.TimerFires
             (Booth.backlog
                (Booth.run PolaroidMaker.config good_world sample_video
                   sample_toDataURL
                   [Booth.ClickStartCamera (fun _ => Some 1%nat) (Some ["videoinput"]);
                    Booth.TypePhotoCount (Some 2%Z); Booth.ClickStartTimer;
                    Booth.TimerFires;
                    Booth.ClickStartCamera (fun _ => Some 2%nat) (Some ["videoinput"])]
                   (Booth.constructor sample_document))))
          (Booth.run PolaroidMaker.config good_world sample_video sample_toDataURL
             [Booth.ClickStartCamera (fun _ => Some 1%nat) (Some ["videoinput"]);
              Booth.TypePhotoCount (Some 2%Z); Booth.ClickStartTimer;
              Booth.TimerFires;
              Booth.ClickStartCamera (fun _ => Some 2%nat) (Some ["videoinput"])]
             (Booth.constructor sample_document))))
  = false.
Proof.
  apply (timer_queue_drains PolaroidMaker.config good_world sample_video
           sample_toDataURL sample_document
           [Booth.ClickStartCamera (fun _ => Some 1%nat) (Some ["videoinput"]);
            Booth.TypePhotoCount (Some 2%Z); Booth.ClickStartTimer;
            Booth.TimerFires;
            Booth.ClickStartCamera (fun _ => Some 2%nat) (Some ["videoinput"])]).
  repeat constructor.
Defined.

(** X21: the layout handler caps the photo count at the capacity of the
    selected layout, so that a timed sequence started after it drops no
    shot: when the count read a number other than 0, the list after the
    sequence holds every shot taken, in the order taken.  (A count of 0
    reads as 4 photos and is not capped.) *)
Theorem sequence_after_layout_keeps_every_shot config world video toDataURL l v p :
  Booth.coherent config p ->
  Booth.timers p = [] ->
  Booth.isStreaming (Booth.app_state p) = true ->
  Booth.isTimerActive (Booth.app_state p) = false ->
  Booth.photoCount (Booth.inputs p) = Some v ->
  v <> 0%Z ->
  PolaroidMaker.capturedImages
    (Booth.pm
       (Booth.app_state
          (Booth.run config world video toDataURL
             (Booth.SelectLayout l
              :: Booth.ClickStartTimer
              :: repeat Booth.TimerFires
                   (Z.to_nat (Z.min v (Z.of_nat (capacity l)))
                    * Booth.callbacks_per_photo
                        (Booth.or_default (Booth.timerDelay (Booth.inputs p)) 3)))
             p)))
  = Booth.sequence_shots video toDataURL
      (Booth.facingMode (Booth.app_state p))
      (Booth.srcObject (Booth.camera_view p)) (Booth.now p)
      (Booth.or_default (Booth.timerDelay (Booth.inputs p)) 3)
      (Z.to_nat (Z.min v (Z.of_nat (capacity l)))).
Proof. apply sequence_after_layout. Qed.

Lemma sequence_after_layout_keeps_every_shot_witness :
  List.length
    (PolaroidMaker.capturedImages
       (Booth.pm
          (Booth.app_state
             (Booth.run PolaroidMaker.config good_world sample_video sample_toDataURL
                (Booth.SelectLayout "collage"
                 :: Booth.ClickStartTimer :: repeat Booth.TimerFires 18)
                sample_streaming_page))))
  = 3%nat.
Proof.
  pose proof (sequence_after_layout_keeps_every_shot PolaroidMaker.config good_world
                sample_video sample_toDataURL "collage" 4%Z sample_streaming_page)
    as Himgs.
  change (Z.to_nat (Z.min 4 (Z.of_nat (capacity "collage")))
          * Booth.callbacks_per_photo
              (Booth.or_default
                 (Booth.timerDelay (Booth.inputs sample_streaming_page)) 3))%nat
    with 18%nat in Himgs.
  rewrite Himgs.
  - reflexivity.
  - constructor; try reflexivity; constructor.
  - reflexivity.
  - reflexivity.
  - reflexivity.
  - reflexivity.
  - discriminate.
Defined.
